(** * megaska-tryon: the size / coverage recommendation engine

    A shallow embedding of the recommendation route of the storefront
    widget, and the properties of its specification.

    Two route files carry the engine:
    - [src/app/size/recommend/route.ts]          (modules [App], [App64]);
    - [src/app/api/size/recommend/route.ts], second document, lines 155-310
                                                 (modules [Api], [Api64]).
    They share the size chart (centimetres), [sizeByHW], [parseBra],
    [chooseCoverage] and the body of the chart loop word for word; they
    differ in the guard of [pickFromChart], in the wording of [fitCopy]
    and in whether the analytics write is gated on the environment.
    The helpers [cmToIn] and [lbToKg] come from the inch-based variant
    ([src/unnamed/part_000], module [Inch]).  The first document of the
    api route file (lines 1-154), whose handler reads variables it never
    defines, is not modelled.

    The numeric code is embedded twice.
    - Over IEEE 754 doubles ([float], modules [F64], [App64], [Api64]):
      a JavaScript number is a binary64 double, every operation is rounded
      as the engine rounds it, comparisons are those of doubles, and [NaN],
      the infinities and the two zeros are values like any other.  The
      route is modelled from the loading of its module on: the client of
      the analytics store is created at module scope, before any request
      is served.  The properties of the specification that involve
      numbers or the analytics write are stated over this embedding.
    - Over the rationals ([Q], the top-level definitions and the modules
      [App], [Api], [Inch]): arithmetic is exact, there is no rounding, no
      NaN and no infinity.  This is the engine as its arithmetic is meant;
      it carries the order and agreement properties in the second half of
      the facts, each of which says so.

    Conventions common to both.
    - An optional value ([x?: T], [undefined], [null]) is an [option].
    - A string is a [string] of ASCII characters: on these, [isSpace] is
      the class [\s] and [upcase] is [toUpperCase].  JavaScript does more
      on other characters (U+00A0 is white space, the sharp s uppercases
      to SS); what is said of [parseBra] is said of ASCII strings.
    - Truthiness ([if (x)], [!x], [a || b]) is written out per type. *)

From Stdlib Require Import QArith Qabs Qround Qpower ZArith String Ascii List Bool Lia Lqa.
From Stdlib Require Import Floats.
From Stdlib Require Uint63.
Import ListNotations.

Set Warnings "-inexact-float".

Open Scope string_scope.
Open Scope Q_scope.

(** * The engine in exact arithmetic *)

(** ** JavaScript values *)

Module Js.

(** [!!x] for an optional number: [undefined] and [0] are falsy. *)
Definition truthy_num (v : option Q) : bool :=
  match v with
  | Some x => negb (Qeq_bool x 0)
  | None => false
  end.

(** [!!s] for an optional string: [undefined], [null] and [""] are falsy. *)
Definition truthy_str (v : option string) : bool :=
  match v with
  | Some EmptyString => false
  | Some _ => true
  | None => false
  end.

(** [!!b] for an optional boolean. *)
Definition truthy_bool (v : option bool) : bool :=
  match v with
  | Some b => b
  | None => false
  end.

(** [a < b], [a <= b] on numbers. *)
Definition lt (a b : Q) : bool := negb (Qle_bool b a).
Definition le (a b : Q) : bool := Qle_bool a b.

(** [x === "lit"] for an optional string. *)
Definition str_is (v : option string) (lit : string) : bool :=
  match v with
  | Some s => String.eqb s lit
  | None => false
  end.

(** [a || b] on optional strings: the first truthy operand, else the
    second. *)
Definition or_str (a b : option string) : option string :=
  if truthy_str a then a else b.

(** [Math.round]: the nearest integer, halves rounded up. *)
Definition round (x : Q) : Q := inject_Z (Qfloor (x + (1 # 2))).

(** [Math.pow(x, 2)]. *)
Definition pow2 (x : Q) : Q := x * x.

End Js.

(** ** The size chart *)

Definition Range : Type := (Q * Q)%type.

Record SizeRow : Type := mkRow {
  label : string;
  bust : Range;
  waist : Range;
  hip : Range
}.

(** Bust / waist / hip in centimetres per size. *)
Definition SIZE_CHART : list SizeRow :=
  [ mkRow "S"   (80, 86)   (64, 70)  (86, 94);
    mkRow "M"   (87, 94)   (71, 78)  (95, 101);
    mkRow "L"   (95, 101)  (79, 86)  (102, 108);
    mkRow "XL"  (102, 108) (87, 94)  (109, 115);
    mkRow "XXL" (109, 116) (95, 104) (116, 124) ].

(** ** Unit conversion *)

Definition inToCm (inches : Q) : Q := inches * 2.54.
Definition cmToIn (n : Q) : Q := n / 2.54.
Definition lbToKg (n : Q) : Q := n * 0.453592.

(** ** Height / weight heuristic *)

Definition sizeByHW (height_cm weight_kg : option Q) : option string :=
  if negb (Js.truthy_num height_cm) || negb (Js.truthy_num weight_kg) then None
  else
    match height_cm, weight_kg with
    | Some h, Some w =>
        let bmi := w / Js.pow2 (h / 100) in
        if Js.lt bmi 21 then Some "S"
        else if Js.lt bmi 24 then Some "M"
        else if Js.lt bmi 27 then Some "L"
        else if Js.lt bmi 31 then Some "XL"
        else Some "XXL"
    | _, _ => None
    end.

(** ** Chart lookup: the scoring loop *)

(** The running best of the loop: [{label, score, dist}]. *)
Record Cand : Type := mkCand {
  c_label : string;
  c_score : nat;
  c_dist : Q
}.

Definition mid (a b : Q) : Q := (a + b) / 2.

(** [clampDist] of [App], called [dist] in [Api]. *)
Definition clampDist (val : option Q) (lo hi : Q) : Q :=
  match val with
  | None => 0
  | Some v =>
      if Js.lt v lo then lo - v
      else if Js.lt hi v then v - hi
      else Qabs (v - mid lo hi) * 0.1
  end.

(** [v != null && v >= r[0] && v <= r[1]]. *)
Definition inRange (val : option Q) (r : Range) : bool :=
  match val with
  | None => false
  | Some v => Js.le (fst r) v && Js.le v (snd r)
  end.

Definition incr (b : bool) (score : nat) : nat := if b then S score else score.

Definition rowScore (b w h : option Q) (s : SizeRow) : nat :=
  incr (inRange h (hip s)) (incr (inRange w (waist s)) (incr (inRange b (bust s)) 0%nat)).

Definition rowDist (b w h : option Q) (s : SizeRow) : Q :=
  0 + clampDist b (fst (bust s)) (snd (bust s))
    + clampDist w (fst (waist s)) (snd (waist s))
    + clampDist h (fst (hip s)) (snd (hip s)).

Definition candOf (b w h : option Q) (s : SizeRow) : Cand :=
  mkCand (label s) (rowScore b w h s) (rowDist b w h s).

(** [!best || cand.score > best.score ||
     (cand.score === best.score && cand.dist < best.dist)]. *)
Definition replaces (best : option Cand) (cand : Cand) : bool :=
  match best with
  | None => true
  | Some bst =>
      Nat.ltb (c_score bst) (c_score cand)
      || (Nat.eqb (c_score cand) (c_score bst) && Js.lt (c_dist cand) (c_dist bst))
  end.

(** One iteration of [for (const s of SIZE_CHART)]. *)
Definition chartStep (b w h : option Q) (best : option Cand) (s : SizeRow) : option Cand :=
  let cand := candOf b w h s in
  if replaces best cand then Some cand else best.

Definition chartLoop (b w h : option Q) (chart : list SizeRow) : option Cand :=
  fold_left (chartStep b w h) chart None.

(** [best?.label || null]. *)
Definition labelOrNull (best : option Cand) : option string :=
  match best with
  | Some bst => if Js.truthy_str (Some (c_label bst)) then Some (c_label bst) else None
  | None => None
  end.

(** ** Bra string *)

Fixpoint str_filter (f : ascii -> bool) (s : string) : string :=
  match s with
  | EmptyString => EmptyString
  | String c rest => if f c then String c (str_filter f rest) else str_filter f rest
  end.

Fixpoint str_map (f : ascii -> ascii) (s : string) : string :=
  match s with
  | EmptyString => EmptyString
  | String c rest => String (f c) (str_map f rest)
  end.

Fixpoint str_forallb (f : ascii -> bool) (s : string) : bool :=
  match s with
  | EmptyString => true
  | String c rest => f c && str_forallb f rest
  end.

Definition between (lo hi : nat) (c : ascii) : bool :=
  let n := nat_of_ascii c in Nat.leb lo n && Nat.leb n hi.

(** [\s] on ASCII characters: tab, line feed, vertical tab, form feed,
    carriage return, space.  Beyond ASCII, [\s] also matches U+00A0,
    U+FEFF and the Unicode space separators; this test does not. *)
Definition isSpace (c : ascii) : bool := between 9 13 c || between 32 32 c.

(** [\d] and [[A-Z]]. *)
Definition isDigit (c : ascii) : bool := between 48 57 c.
Definition isUpper (c : ascii) : bool := between 65 90 c.

(** [toUpperCase] on ASCII characters.  Beyond ASCII, [toUpperCase]
    changes other letters too and can lengthen the string (the sharp s
    becomes SS); here such characters are left as they are. *)
Definition upcase (c : ascii) : ascii :=
  if between 97 122 c then ascii_of_nat (nat_of_ascii c - 32) else c.

Definition toUpperCase (s : string) : string := str_map upcase s.

(** [bra.replace(/\s+/g, "")]. *)
Definition stripSpaces (s : string) : string := str_filter (fun c => negb (isSpace c)) s.

Definition digitVal (c : ascii) : Z := Z.of_nat (nat_of_ascii c - 48).

(** [parseInt(m, 10)] on a string of decimal digits. *)
Definition parseInt10 (s : string) : Z :=
  fold_left (fun acc c => (10 * acc + digitVal c)%Z) (list_ascii_of_string s) 0%Z.

(** [match(/^(\d{2})([A-Z]+)$/)]: the two captured groups. *)
Definition matchBra (s : string) : option (string * string) :=
  match s with
  | String d1 (String d2 rest) =>
      if isDigit d1 && isDigit d2
         && negb (String.eqb rest EmptyString) && str_forallb isUpper rest
      then Some (String d1 (String d2 EmptyString), rest)
      else None
  | _ => None
  end.

Definition parseBra (bra : option string) : option Q * option string :=
  match bra with
  | Some s =>
      if negb (Js.truthy_str bra) then (None, None)
      else
        match matchBra (toUpperCase (stripSpaces s)) with
        | None => (None, None)
        | Some (m1, m2) => (Some (inject_Z (parseInt10 m1)), Some m2)
        end
  | None => (None, None)
  end.

(** [{ A:2.5, B:5, C:7.5, D:10, DD:12.5, E:12.5, F:15 }]. *)
Definition cupMap : list (string * Q) :=
  [ ("A", 2.5); ("B", 5); ("C", 7.5); ("D", 10); ("DD", 12.5); ("E", 12.5); ("F", 15) ].

Fixpoint lookup (key : string) (m : list (string * Q)) : option Q :=
  match m with
  | [] => None
  | (k, v) :: rest => if String.eqb k key then Some v else lookup key rest
  end.

(** [cupMap[bra_cup] || 7.5]. *)
Definition cupIncrement (bra_cup : string) : Q :=
  let v := lookup bra_cup cupMap in
  if Js.truthy_num v then match v with Some x => x | None => 7.5 end else 7.5.

(** [bust_est]: the measured bust, else the estimate from band and cup. *)
Definition estimateBust (bust_cm bra_band : option Q) (bra_cup : option string) : option Q :=
  if negb (Js.truthy_num bust_cm) && Js.truthy_num bra_band && Js.truthy_str bra_cup
  then
    match bra_band, bra_cup with
    | Some band, Some cup => Some (band * 2.54 + cupIncrement cup * 2.54)
    | _, _ => bust_cm
    end
  else bust_cm.

(** ** Coverage cascade *)

Definition chooseCoverage (activity modesty : option string) (tummy : option bool)
    (pref : option string) : string :=
  if Js.str_is pref "burkini" then "burkini"
  else if Js.str_is pref "swimdress" then "knee length"
  else if Js.str_is pref "rashguard" then "one-piece + rash guard"
  else if Js.str_is modesty "high" then "burkini"
  else if Js.str_is activity "swim_class" || Js.str_is activity "aqua_fitness" then
    if Js.str_is modesty "medium" then "knee length" else "one-piece"
  else if Js.truthy_bool tummy then "knee length"
  else "knee length".

(** ** Request, response and the analytics collaborator *)

(** The request payload ([BodyIn]). *)
Module Body.
Record t : Type := mk {
  product_handle : option string;
  product_title : option string;
  unit : option string;
  height : option Q;
  weight : option Q;
  bust : option Q;
  waist : option Q;
  hip : option Q;
  bra : option string;
  activity : option string;
  modesty : option string;
  tummy_control : option bool;
  style_preference : option string
}.

(** The empty payload [{}]. *)
Definition empty : t :=
  mk None None None None None None None None None None None None None.

(** [{ ...body, bust }]. *)
Definition withBust (body : t) (b : option Q) : t :=
  mk (product_handle body) (product_title body) (unit body) (height body)
     (weight body) b (waist body) (hip body) (bra body) (activity body)
     (modesty body) (tummy_control body) (style_preference body).

(** [{ ...body, tummy_control }]. *)
Definition withTummy (body : t) (flag : option bool) : t :=
  mk (product_handle body) (product_title body) (unit body) (height body)
     (weight body) (bust body) (waist body) (hip body) (bra body)
     (activity body) (modesty body) flag (style_preference body).
End Body.

(** The row handed to [supabase.from("size_quiz_responses").insert]. *)
Module QuizResponse.
Record t : Type := mk {
  product_handle : option string;
  product_title : option string;
  height_cm : option Q;
  weight_kg : option Q;
  bust_cm : option Q;
  waist_cm : option Q;
  hip_cm : option Q;
  bra_band : option Q;
  bra_cup : option string;
  unit_system : string;
  activity : option string;
  modesty : option string;
  tummy_control : option bool;
  style_preference : option string;
  recommended_size : string;
  recommended_style : string;
  fit_notes : string
}.
End QuizResponse.

(** What an awaited call does: it yields a value, or it throws.  The
    string of [Thrown] is what [String(e?.message || e)] makes of the
    thrown value. *)
Inductive Outcome (A : Type) : Type :=
| Returned (a : A)
| Thrown (message : string).
Arguments Returned {A} a.
Arguments Thrown {A} message.

Definition bind {A B : Type} (m : Outcome A) (k : A -> Outcome B) : Outcome B :=
  match m with
  | Returned a => k a
  | Thrown e => Thrown e
  end.

Notation "x <- m ;; k" := (bind m (fun x => k))
  (at level 61, m at next level, right associativity).

(** [try { ... } catch (e) { handler }]. *)
Definition try_catch {A : Type} (block : Outcome A) (handler : string -> A) : A :=
  match block with
  | Returned a => a
  | Thrown e => handler e
  end.

(** The value an insert resolves to: [{ error }], which the handler
    never reads. *)
Record InsertResult : Type := mkInsertResult { error : option string }.

(** The analytics collaborator: what the awaited insert of a row does. *)
Definition Sink : Type := QuizResponse.t -> Outcome InsertResult.

(** [process.env]: the two variables of the collaborator. *)
Record Env : Type := mkEnv {
  NEXT_PUBLIC_SUPABASE_URL : option string;
  SUPABASE_SERVICE_ROLE : option string
}.

(** [NextResponse.json(...)]: the recommendation (status 200), or
    [{ ok: false, error }] with a status. *)
Inductive Response : Type :=
| Recommendation (size coverage fitNotes : string)
| Failure (status : Z) (error : string).

(** ** Normalisation of the measurements *)

Record Normalized : Type := mkNormalized {
  height_cm : option Q;
  weight_kg : option Q;
  bust_cm : option Q;
  waist_cm : option Q;
  hip_cm : option Q
}.

(** [v ? (unit === "imperial" ? conv(v) : same(v)) : undefined]. *)
Definition normField (unit : string) (conv same : Q -> Q) (v : option Q) : option Q :=
  if Js.truthy_num v then
    match v with
    | Some x => Some (if String.eqb unit "imperial" then conv x else same x)
    | None => None
    end
  else None.

Definition normalize (unit : string) (body : Body.t) : Normalized :=
  {| height_cm := normField unit (fun x => Js.round (inToCm x)) Js.round (Body.height body);
     weight_kg := normField unit (fun x => Js.round (x * 0.453592)) Js.round (Body.weight body);
     bust_cm := normField unit inToCm (fun x => x) (Body.bust body);
     waist_cm := normField unit inToCm (fun x => x) (Body.waist body);
     hip_cm := normField unit inToCm (fun x => x) (Body.hip body) |}.

(** [byChart || byHW || "M"]. *)
Definition sizeOr (byChart byHW : option string) : string :=
  match Js.or_str (Js.or_str byChart byHW) (Some "M") with
  | Some s => s
  | None => "M"
  end.

(** [hints.length ? ` with ${hints.join(" & ")}` : ""]. *)
Definition hintClause (hints : list string) : string :=
  match hints with
  | [] => ""
  | _ => " with " ++ String.concat " & " hints
  end.

(** The hints pushed by [fitCopy], in push order. *)
Definition hintsOf (t : option bool) (a m : option string) (coverage : string) : list string :=
  (if Js.truthy_bool t then ["tummy-control panels"] else [])
  ++ (if Js.str_is a "swim_class" then ["secure shoulder coverage"] else [])
  ++ (if Js.str_is m "high" || String.eqb coverage "burkini" then ["full coverage"] else []).

(** ** [src/app/size/recommend/route.ts] *)

Module App.

Definition pickFromChart (bust_cm waist_cm hip_cm : option Q) : option string :=
  if negb (Js.truthy_num bust_cm) && negb (Js.truthy_num waist_cm)
     && negb (Js.truthy_num hip_cm)
  then None
  else labelOrNull (chartLoop bust_cm waist_cm hip_cm SIZE_CHART).

Definition fitCopy (size coverage : string) (inputs : Body.t) : string :=
  let hints :=
    hintsOf (Body.tummy_control inputs) (Body.activity inputs) (Body.modesty inputs) coverage in
  let bullet := hintClause hints in
  "We suggest **" ++ size ++ "** in a **" ++ coverage ++ "** style" ++ bullet
  ++ ". For close fit, choose your measured size; for relaxed fit, consider one size up.".

(** [body.unit || "metric"]. *)
Definition unitOf (body : Body.t) : string :=
  match Js.or_str (Body.unit body) (Some "metric") with
  | Some u => u
  | None => "metric"
  end.

Definition normalized (body : Body.t) : Normalized := normalize (unitOf body) body.

(** [bust_est]: the bust the chart lookup is called with. *)
Definition bustEst (body : Body.t) : option Q :=
  let '(bra_band, bra_cup) := parseBra (Body.bra body) in
  estimateBust (bust_cm (normalized body)) bra_band bra_cup.

Definition byChart (body : Body.t) : option string :=
  pickFromChart (bustEst body) (waist_cm (normalized body)) (hip_cm (normalized body)).

Definition byHW (body : Body.t) : option string :=
  sizeByHW (height_cm (normalized body)) (weight_kg (normalized body)).

Definition sizeOf (body : Body.t) : string := sizeOr (byChart body) (byHW body).

Definition coverageOf (body : Body.t) : string :=
  chooseCoverage (Body.activity body) (Body.modesty body)
    (Some (Js.truthy_bool (Body.tummy_control body))) (Body.style_preference body).

Definition notesOf (body : Body.t) : string :=
  fitCopy (sizeOf body) (coverageOf body) body.

End App.

(** ** [src/app/api/size/recommend/route.ts] *)

Module Api.

Definition pickFromChart (bustCm waistCm hipCm : option Q) : option string :=
  match bustCm, waistCm, hipCm with
  | None, None, None => None
  | _, _, _ => labelOrNull (chartLoop bustCm waistCm hipCm SIZE_CHART)
  end.

(** The [opts] argument of [fitCopy]: [{ t, a, m }]. *)
Record Opts : Type := mkOpts { t : option bool; a : option string; m : option string }.

Definition fitCopy (size coverage : string) (opts : Opts) : string :=
  let hints := hintsOf (t opts) (a opts) (m opts) coverage in
  let extra := hintClause hints in
  "We suggest **" ++ size ++ "** in a **" ++ coverage ++ "** style" ++ extra
  ++ ". For close fit choose your measured size; for relaxed fit, consider one size up.".

(** [body.unit === "imperial" ? "imperial" : "metric"]. *)
Definition unitOf (body : Body.t) : string :=
  if Js.str_is (Body.unit body) "imperial" then "imperial" else "metric".

Definition normalized (body : Body.t) : Normalized := normalize (unitOf body) body.

(** [bust_est]: the bust the chart lookup is called with. *)
Definition bustEst (body : Body.t) : option Q :=
  let '(bra_band, bra_cup) := parseBra (Body.bra body) in
  estimateBust (bust_cm (normalized body)) bra_band bra_cup.

Definition byChart (body : Body.t) : option string :=
  pickFromChart (bustEst body) (waist_cm (normalized body)) (hip_cm (normalized body)).

Definition byHW (body : Body.t) : option string :=
  sizeByHW (height_cm (normalized body)) (weight_kg (normalized body)).

Definition sizeOf (body : Body.t) : string := sizeOr (byChart body) (byHW body).

Definition coverageOf (body : Body.t) : string :=
  chooseCoverage (Body.activity body) (Body.modesty body)
    (Some (Js.truthy_bool (Body.tummy_control body))) (Body.style_preference body).

Definition notesOf (body : Body.t) : string :=
  fitCopy (sizeOf body) (coverageOf body)
    (mkOpts (Some (Js.truthy_bool (Body.tummy_control body)))
            (Body.activity body) (Body.modesty body)).

(** [process.env.NEXT_PUBLIC_SUPABASE_URL && process.env.SUPABASE_SERVICE_ROLE]. *)
Definition configured (env : Env) : bool :=
  Js.truthy_str (NEXT_PUBLIC_SUPABASE_URL env) && Js.truthy_str (SUPABASE_SERVICE_ROLE env).

End Api.

(** * The selection rule, in the words of the specification *)

(** Distance of one axis: 0 if absent, [low - value] below the range,
    [value - high] above it, [|value - midpoint| * 0.1] inside. *)
Definition specAxisDist (val : option Q) (r : Range) : Q :=
  match val with
  | None => 0
  | Some v =>
      if Qlt_le_dec v (fst r) then fst r - v
      else if Qlt_le_dec (snd r) v then v - snd r
      else Qabs (v - (fst r + snd r) / 2) * (1 # 10)
  end.

Definition specDist (b w h : option Q) (s : SizeRow) : Q :=
  specAxisDist b (bust s) + specAxisDist w (waist s) + specAxisDist h (hip s).

(** A measurement counts when it is present and inside the inclusive
    range. *)
Definition specCounts (val : option Q) (r : Range) : bool :=
  match val with
  | None => false
  | Some v => Qle_bool (fst r) v && Qle_bool v (snd r)
  end.

Definition specScore (b w h : option Q) (s : SizeRow) : nat :=
  List.length (filter (fun p => specCounts (fst p) (snd p))
                 [(b, bust s); (w, waist s); (h, hip s)]).

(** Row [r], at position [i] of the chart, is the row selected: no row
    scores higher; among the rows of equal score none is nearer; among
    those of equal score and equal distance none comes earlier. *)
Definition Selects (score : SizeRow -> nat) (dist : SizeRow -> Q)
    (chart : list SizeRow) (i : nat) (r : SizeRow) : Prop :=
  nth_error chart i = Some r /\
  forall j r', nth_error chart j = Some r' ->
    (score r' <= score r)%nat /\
    (score r' = score r -> dist r <= dist r') /\
    (score r' = score r -> dist r' == dist r -> (i <= j)%nat).

(** A measurement that is absent, or present with the value zero. *)
Definition AbsentOrZero (v : option Q) : Prop :=
  v = None \/ exists x, v = Some x /\ x == 0.

(** All three measurements falsy (absent or zero) / all three absent. *)
Definition allFalsy (b w h : option Q) : bool :=
  negb (Js.truthy_num b) && negb (Js.truthy_num w) && negb (Js.truthy_num h).

Definition allAbsent (b w h : option Q) : bool :=
  match b, w, h with
  | None, None, None => true
  | _, _, _ => false
  end.

(** The BMI thresholds of the specification. *)
Definition specBmiLabel (bmi : Q) : string :=
  if Qlt_le_dec bmi 21 then "S"
  else if Qlt_le_dec bmi 24 then "M"
  else if Qlt_le_dec bmi 27 then "L"
  else if Qlt_le_dec bmi 31 then "XL"
  else "XXL".

Definition specBmi (height_cm weight_kg : Q) : Q :=
  weight_kg / ((height_cm / 100) * (height_cm / 100)).

Definition bodyBra (bra : string) : Body.t :=
  Body.mk None None None None None None None None (Some bra) None None None None.

(** ** The coverage cascade as an ordered rule list *)

Record CoverageRule : Type := mkRule {
  applies : option string -> option string -> option bool -> option string -> bool;
  result : string
}.

Definition isOneOf (v : option string) (lits : list string) : bool :=
  existsb (Js.str_is v) lits.

(** Rules 1 to 7 of the specification, top to bottom; rule 8 is the
    default. *)
Definition coverageRules : list CoverageRule :=
  [ mkRule (fun _ _ _ p => Js.str_is p "burkini") "burkini";
    mkRule (fun _ _ _ p => Js.str_is p "swimdress") "knee length";
    mkRule (fun _ _ _ p => Js.str_is p "rashguard") "one-piece + rash guard";
    mkRule (fun _ m _ _ => Js.str_is m "high") "burkini";
    mkRule (fun a m _ _ => isOneOf a ["swim_class"; "aqua_fitness"] && Js.str_is m "medium")
           "knee length";
    mkRule (fun a _ _ _ => isOneOf a ["swim_class"; "aqua_fitness"]) "one-piece";
    mkRule (fun _ _ t _ => Js.truthy_bool t) "knee length" ].

Definition coverageDefault : string := "knee length".

(** The first rule that applies wins. *)
Fixpoint firstMatch (rules : list CoverageRule) (a m : option string) (t : option bool)
    (p : option string) : string :=
  match rules with
  | [] => coverageDefault
  | r :: rest => if applies r a m t p then result r else firstMatch rest a m t p
  end.

(** ** The advice text of the specification *)

Definition hintOrder : list string :=
  [ "tummy-control panels"; "secure shoulder coverage"; "full coverage" ].

Definition adviceHead (size coverage : string) : string :=
  "We suggest **" ++ size ++ "** in a **" ++ coverage ++ "** style".

(** The closing sentence as the specification quotes it, and as
    [src/app/size/recommend/route.ts] has it. *)
Definition adviceTail : string :=
  ". For close fit choose your measured size; for relaxed fit, consider one size up.".

Definition adviceTailApp : string :=
  ". For close fit, choose your measured size; for relaxed fit, consider one size up.".

Definition specClause (hints : list string) : string :=
  match hints with
  | [] => ""
  | _ => " with " ++ String.concat " & " hints
  end.

(** ** The bra pattern of the specification *)

(** [s] is two digits followed by one or more letters: [band] is the
    number the digits spell, [cup] the letters. *)
Definition BraPattern (s : string) (band : Z) (cup : string) : Prop :=
  exists d1 d2 : ascii,
    s = String d1 (String d2 cup) /\
    isDigit d1 = true /\ isDigit d2 = true /\
    cup <> "" /\ str_forallb isUpper cup = true /\
    band = (10 * digitVal d1 + digitVal d2)%Z.

(** The bra string after stripping whitespace and uppercasing. *)
Definition cleanBra (bra : string) : string := toUpperCase (stripSpaces bra).

(** The cup increments of the specification, in inches. *)
Definition specCupIncrement (cup : string) : Q :=
  if String.eqb cup "A" then 2.5
  else if String.eqb cup "B" then 5
  else if String.eqb cup "C" then 7.5
  else if String.eqb cup "D" then 10
  else if String.eqb cup "DD" then 12.5
  else if String.eqb cup "E" then 12.5
  else if String.eqb cup "F" then 15
  else 7.5.

(** * The inch-based route ([src/unnamed/part_000], lines 1-159) *)

(** The payload of the inch-based handler: the explicit fields of the
    current form, beside the older fields of [Body.t]. *)
Module InchBody.
Record t : Type := mk {
  bust_in : option Q;
  waist_in : option Q;
  hip_in : option Q;
  height_cm : option Q;
  weight_kg : option Q;
  legacy : Body.t
}.

(** [{ ...body, bra }]. *)
Definition withBra (body : t) (bra : option string) : t :=
  mk (bust_in body) (waist_in body) (hip_in body) (height_cm body) (weight_kg body)
     (Body.mk (Body.product_handle (legacy body)) (Body.product_title (legacy body))
        (Body.unit (legacy body)) (Body.height (legacy body)) (Body.weight (legacy body))
        (Body.bust (legacy body)) (Body.waist (legacy body)) (Body.hip (legacy body))
        bra (Body.activity (legacy body)) (Body.modesty (legacy body))
        (Body.tummy_control (legacy body)) (Body.style_preference (legacy body))).
End InchBody.

(** The client handle [createClient(url, key)] builds, named by its
    credentials. *)
Record SupabaseClient : Type := mkClient { client_url : string; client_key : string }.

Module Inch.

(** Megaska size chart, in inches. *)
Definition SIZE_CHART : list SizeRow :=
  [ mkRow "S"   (32, 34) (28, 30) (34, 36);
    mkRow "M"   (34, 36) (30, 32) (36, 38);
    mkRow "L"   (36, 38) (32, 34) (38, 40);
    mkRow "XL"  (38, 40) (34, 36) (40, 42);
    mkRow "XXL" (40, 42) (36, 38) (42, 44) ].

Definition pickFromChart (bustIn waistIn hipIn : option Q) : option string :=
  match bustIn, waistIn, hipIn with
  | None, None, None => None
  | _, _, _ => labelOrNull (chartLoop bustIn waistIn hipIn SIZE_CHART)
  end.

(** [getSB]: the module-level handle [_sb] is threaded as state; the
    result is the handle or null, or what [createClient] throws. *)
Definition getSB (env : Env) (createClient : string -> string -> Outcome SupabaseClient)
    (_sb : option SupabaseClient) : Outcome (option SupabaseClient) * option SupabaseClient :=
  match NEXT_PUBLIC_SUPABASE_URL env, SUPABASE_SERVICE_ROLE env with
  | Some url, Some key =>
      if negb (Js.truthy_str (Some url)) || negb (Js.truthy_str (Some key))
      then (Returned None, _sb)
      else
        match _sb with
        | Some c => (Returned (Some c), _sb)
        | None =>
            match createClient url key with
            | Returned c => (Returned (Some c), Some c)
            | Thrown e => (Thrown e, None)
            end
        end
  | _, _ => (Returned None, _sb)
  end.

(** [body.unit === "imperial"]: the only test made of the unit. *)
Definition imperial (body : InchBody.t) : bool :=
  Js.str_is (Body.unit (InchBody.legacy body)) "imperial".

(** [explicit != null ? explicit
     : (legacy != null ? (unit === "imperial" ? conv(legacy) : same(legacy)) : undefined)]. *)
Definition resolve (imp : bool) (conv same : Q -> Q) (explicit legacy : option Q) : option Q :=
  match explicit with
  | Some x => Some x
  | None =>
      match legacy with
      | Some y => Some (if imp then conv y else same y)
      | None => None
      end
  end.

Definition finalBustIn (body : InchBody.t) : option Q :=
  resolve (imperial body) (fun x => x) cmToIn
    (InchBody.bust_in body) (Body.bust (InchBody.legacy body)).

Definition finalWaistIn (body : InchBody.t) : option Q :=
  resolve (imperial body) (fun x => x) cmToIn
    (InchBody.waist_in body) (Body.waist (InchBody.legacy body)).

Definition finalHipIn (body : InchBody.t) : option Q :=
  resolve (imperial body) (fun x => x) cmToIn
    (InchBody.hip_in body) (Body.hip (InchBody.legacy body)).

Definition finalHeightCm (body : InchBody.t) : option Q :=
  resolve (imperial body) (fun x => Js.round (x * 2.54)) Js.round
    (InchBody.height_cm body) (Body.height (InchBody.legacy body)).

Definition finalWeightKg (body : InchBody.t) : option Q :=
  resolve (imperial body) lbToKg (fun x => x)
    (InchBody.weight_kg body) (Body.weight (InchBody.legacy body)).

Definition byChart (body : InchBody.t) : option string :=
  pickFromChart (finalBustIn body) (finalWaistIn body) (finalHipIn body).

Definition byHW (body : InchBody.t) : option string :=
  sizeByHW (finalHeightCm body) (finalWeightKg body).

Definition sizeOf (body : InchBody.t) : string := sizeOr (byChart body) (byHW body).

Definition coverageOf (body : InchBody.t) : string :=
  chooseCoverage (Body.activity (InchBody.legacy body)) (Body.modesty (InchBody.legacy body))
    (Some (Js.truthy_bool (Body.tummy_control (InchBody.legacy body))))
    (Body.style_preference (InchBody.legacy body)).

Definition notesOf (body : InchBody.t) : string :=
  Api.fitCopy (sizeOf body) (coverageOf body)
    (Api.mkOpts (Some (Js.truthy_bool (Body.tummy_control (InchBody.legacy body))))
       (Body.activity (InchBody.legacy body)) (Body.modesty (InchBody.legacy body))).

(** [v != null ? Math.round(v * 2.54) : null]. *)
Definition loggedCm (v : option Q) : option Q :=
  match v with
  | Some x => Some (Js.round (x * 2.54))
  | None => None
  end.

Definition rowFor (body : InchBody.t) : QuizResponse.t :=
  let '(bra_band, bra_cup) := parseBra (Body.bra (InchBody.legacy body)) in
  {| QuizResponse.product_handle := Js.or_str (Body.product_handle (InchBody.legacy body)) None;
     QuizResponse.product_title := Js.or_str (Body.product_title (InchBody.legacy body)) None;
     QuizResponse.height_cm := finalHeightCm body;
     QuizResponse.weight_kg := finalWeightKg body;
     QuizResponse.bust_cm := loggedCm (finalBustIn body);
     QuizResponse.waist_cm := loggedCm (finalWaistIn body);
     QuizResponse.hip_cm := loggedCm (finalHipIn body);
     QuizResponse.bra_band := bra_band;
     QuizResponse.bra_cup := bra_cup;
     QuizResponse.unit_system := "mixed:in+kg";
     QuizResponse.activity := Body.activity (InchBody.legacy body);
     QuizResponse.modesty := Body.modesty (InchBody.legacy body);
     QuizResponse.tummy_control := Body.tummy_control (InchBody.legacy body);
     QuizResponse.style_preference := Body.style_preference (InchBody.legacy body);
     QuizResponse.recommended_size := sizeOf body;
     QuizResponse.recommended_style := coverageOf body;
     QuizResponse.fit_notes := notesOf body |}.

(** [debug: { bustIn, waistIn, hipIn, heightCm, weightKg }]. *)
Record Debug : Type := mkDebug {
  bustIn : option Q;
  waistIn : option Q;
  hipIn : option Q;
  heightCm : option Q;
  weightKg : option Q
}.

Inductive Response : Type :=
| Recommendation (size coverage fitNotes : string) (debug : Debug)
| Failure (status : Z) (error : string).

Definition debugOf (body : InchBody.t) : Debug :=
  mkDebug (finalBustIn body) (finalWaistIn body) (finalHipIn body)
    (finalHeightCm body) (finalWeightKg body).

(** The handler.  [insert] is what the awaited insert through a given
    handle does; the second component is [_sb] after the call. *)
Definition POST (env : Env) (createClient : string -> string -> Outcome SupabaseClient)
    (insert : SupabaseClient -> Sink) (_sb : option SupabaseClient)
    (req : Outcome InchBody.t) : Response * option SupabaseClient :=
  match req with
  | Thrown e => (Failure 400 e, _sb)
  | Returned body =>
      let '(sb, _sb') := getSB env createClient _sb in
      (try_catch
         (client <- sb ;;
          _ <- match client with
               | Some c => insert c (rowFor body)
               | None => Returned (mkInsertResult None)
               end ;;
          Returned (Recommendation (sizeOf body) (coverageOf body) (notesOf body)
                      (debugOf body)))
         (fun e => Failure 400 e),
       _sb')
  end.

End Inch.

(** ** Orders and shapes used to state properties *)

(** The position of a size label in the chart order. *)
Definition sizeRank (l : string) : nat :=
  if String.eqb l "S" then 0
  else if String.eqb l "M" then 1
  else if String.eqb l "L" then 2
  else if String.eqb l "XL" then 3
  else 4.

Definition sizeLabels : list string := ["S"; "M"; "L"; "XL"; "XXL"].

Definition coverageStyles : list string :=
  ["burkini"; "knee length"; "one-piece"; "one-piece + rash guard"].

(** [{ ...body, bra }]. *)
Definition bodyWithBra (body : Body.t) (bra : option string) : Body.t :=
  Body.mk (Body.product_handle body) (Body.product_title body) (Body.unit body)
    (Body.height body) (Body.weight body) (Body.bust body) (Body.waist body)
    (Body.hip body) bra (Body.activity body) (Body.modesty body)
    (Body.tummy_control body) (Body.style_preference body).

(** Every present measurement lies inside the row's inclusive range. *)
Definition FitsRow (b w h : option Q) (s : SizeRow) : Prop :=
  (forall x, b = Some x -> fst (bust s) <= x <= snd (bust s)) /\
  (forall x, w = Some x -> fst (waist s) <= x <= snd (waist s)) /\
  (forall x, h = Some x -> fst (hip s) <= x <= snd (hip s)).

(** The label a bust alone gets from the centimetre chart, and from the
    inch chart, as thresholds. *)
Definition bustOnlyCm (x : Q) : string :=
  if Qlt_le_dec 86.5 x then
    if Qlt_le_dec 94.5 x then
      if Qlt_le_dec 101.5 x then
        if Qlt_le_dec 108.5 x then "XXL" else "XL"
      else "L"
    else "M"
  else "S".

(** How many of the three measurements are present. *)
Definition presentCount (b w h : option Q) : nat :=
  match b with Some _ => 1 | None => 0 end
  + match w with Some _ => 1 | None => 0 end
  + match h with Some _ => 1 | None => 0 end.

(** An imperial request restated in metric units: lengths times 2.54,
    pounds times 0.453592, the rest unchanged. *)
Definition toMetric (body : Body.t) : Body.t :=
  Body.mk (Body.product_handle body) (Body.product_title body) (Some "metric")
    (option_map inToCm (Body.height body))
    (option_map (fun x => x * 0.453592) (Body.weight body))
    (option_map inToCm (Body.bust body)) (option_map inToCm (Body.waist body))
    (option_map inToCm (Body.hip body)) (Body.bra body) (Body.activity body)
    (Body.modesty body) (Body.tummy_control body) (Body.style_preference body).

(** * The value of a double

    What the primitive operations on doubles compute is specified, by the
    library, on [spec_float]: a NaN, a signed zero, a signed infinity or
    [(-1)^s * m * 2^e]. *)

(** [2^e] for an integer [e]. *)
Definition twoPow (e : Z) : Q := 2 ^ e.

(** The magnitude and the value of a finite double; 0 for the others. *)
Definition SFmag (x : spec_float) : Q :=
  match x with
  | S754_finite _ m e => inject_Z (Zpos m) * twoPow e
  | _ => 0
  end.

Definition sgn (s : bool) : Q := if s then -1 else 1.

Definition SFval (x : spec_float) : Q :=
  match x with
  | S754_finite s m e => sgn s * (inject_Z (Zpos m) * twoPow e)
  | _ => 0
  end.

(** A zero or a finite non-zero double: neither NaN nor an infinity. *)
Definition SFfinite (x : spec_float) : bool :=
  match x with
  | S754_zero _ | S754_finite _ _ _ => true
  | _ => false
  end.

(** A double that is not NaN, not negative and not [-0]. *)
Definition SFnonneg (R : spec_float) : Prop :=
  match R with
  | S754_nan => False
  | S754_infinity s => s = false
  | S754_finite s _ _ => s = false
  | S754_zero s => s = false
  end.

(** The sign of a finite non-zero double is [s]. *)
Definition signed (R : spec_float) (s : bool) : Prop :=
  match R with
  | S754_finite s' _ _ => s' = s
  | _ => True
  end.

(** The result of rounding, from the mantissa and the exponent the two
    shifts of [binary_round_aux] end with. *)
Definition rounded (s : bool) (m e : Z) : spec_float :=
  match m with
  | Z0 => S754_zero s
  | Zpos p => if (e <=? emax - prec)%Z then S754_finite s p e else S754_infinity s
  | Zneg _ => S754_nan
  end.

(** By how many bits [shr_fexp] shifts a mantissa [m] of exponent [e]. *)
Definition shift1 (m e : Z) : Z := Z.max 0 (fexp prec emax (Zdigits2 m + e) - e).

(** The relative precision of a normal double, [2^-52], and the least
    positive double, [2^-1074]. *)
Definition eps : Q := 1 # 4503599627370496.
Definition eta : Q := twoPow (-1074).

(** What the shape of a rounded result says of the magnitude [T] it was
    rounded from. *)
Definition Approx (R : spec_float) (s : bool) (T : Q) : Prop :=
  match R with
  | S754_zero s' => s' = s /\ T <= 2 * eta
  | S754_finite s' m e => s' = s /\ Qabs (SFmag R - T) <= SFmag R * eps + eta
  | S754_infinity s' => s' = s /\ twoPow 970 <= T
  | S754_nan => False
  end.

(** A finite result of sign [s] (or a zero) whose magnitude is near [T]. *)
Definition Near (R : spec_float) (s : bool) (T : Q) : Prop :=
  SFfinite R = true /\ SFval R == sgn s * SFmag R /\
  Qabs (SFmag R - T) <= SFmag R * eps + 2 * eta.

(** The same of a primitive double. *)
Definition nonneg (x : float) : Prop := SFnonneg (Prim2SF x).

(** * The engine over IEEE 754 doubles

    A JavaScript number is a binary64 double.  This part restates the
    numeric functions of the two centimetre routes with [float] in place
    of [Q], operation for operation, so that every sum, product and
    quotient is rounded as the engine rounds it and the comparisons are
    those of doubles (false as soon as an operand is NaN).  The string
    functions, the coverage cascade and the advice text are those above. *)

Module F64.

Local Open Scope float_scope.

(** [!!x] for an optional number: [undefined], [0], [-0] and [NaN] are
    falsy. *)
Definition truthy_num (v : option float) : bool :=
  match v with
  | Some x => negb (x =? 0) && negb (PrimFloat.is_nan x)
  | None => false
  end.

(** The double of an integer of magnitude below 2^53. *)
Definition ofZ (n : Z) : float :=
  if (n <? 0)%Z then - of_uint63 (Uint63.of_Z (- n)) else of_uint63 (Uint63.of_Z n).

(** [Math.round]: NaN, the infinities, the zeros and the integral doubles
    are returned as they are; any other [x] gives the integer
    [floor(x + 1/2)], computed exactly, a result of zero keeping the sign
    of [x]. *)
Definition round (x : float) : float :=
  match Prim2SF x with
  | S754_finite s m e =>
      if (0 <=? e)%Z then x
      else
        let d := (2 ^ (- e))%Z in
        let n := ((2 * (if s then - Z.pos m else Z.pos m) + d) / (2 * d))%Z in
        if (n =? 0)%Z then (if s then neg_zero else zero) else ofZ n
  | _ => x
  end.

(** [Math.pow(x, 2)]: the library returns [x * x] for the exponent 2. *)
Definition pow2 (x : float) : float := x * x.

(** ** The size chart *)

Definition Range : Type := (float * float)%type.

Record SizeRow : Type := mkRow {
  label : string;
  bust : Range;
  waist : Range;
  hip : Range
}.

Definition SIZE_CHART : list SizeRow :=
  [ mkRow "S"   (80, 86)   (64, 70)  (86, 94);
    mkRow "M"   (87, 94)   (71, 78)  (95, 101);
    mkRow "L"   (95, 101)  (79, 86)  (102, 108);
    mkRow "XL"  (102, 108) (87, 94)  (109, 115);
    mkRow "XXL" (109, 116) (95, 104) (116, 124) ].

(** ** Unit conversion *)

Definition inToCm (inches : float) : float := inches * 2.54.
Definition cmToIn (n : float) : float := n / 2.54.
Definition lbToKg (n : float) : float := n * 0.453592.

(** ** Height / weight heuristic *)

Definition sizeByHW (height_cm weight_kg : option float) : option string :=
  if negb (truthy_num height_cm) || negb (truthy_num weight_kg) then None
  else
    match height_cm, weight_kg with
    | Some h, Some w =>
        let bmi := w / pow2 (h / 100) in
        if bmi <? 21 then Some "S"
        else if bmi <? 24 then Some "M"
        else if bmi <? 27 then Some "L"
        else if bmi <? 31 then Some "XL"
        else Some "XXL"
    | _, _ => None
    end.

(** ** Chart lookup: the scoring loop *)

Record Cand : Type := mkCand {
  c_label : string;
  c_score : nat;
  c_dist : float
}.

Definition mid (a b : float) : float := (a + b) / 2.

(** [clampDist] of [App], called [dist] in [Api]. *)
Definition clampDist (val : option float) (lo hi : float) : float :=
  match val with
  | None => 0
  | Some v =>
      if v <? lo then lo - v
      else if hi <? v then v - hi
      else abs (v - mid lo hi) * 0.1
  end.

(** [v != null && v >= r[0] && v <= r[1]]. *)
Definition inRange (val : option float) (r : Range) : bool :=
  match val with
  | None => false
  | Some v => (fst r <=? v) && (v <=? snd r)
  end.

Definition rowScore (b w h : option float) (s : SizeRow) : nat :=
  incr (inRange h (hip s)) (incr (inRange w (waist s)) (incr (inRange b (bust s)) 0%nat)).

(** [App]: [let dist = 0], then three [dist += clampDist(...)]. *)
Definition rowDistApp (b w h : option float) (s : SizeRow) : float :=
  0 + clampDist b (fst (bust s)) (snd (bust s))
    + clampDist w (fst (waist s)) (snd (waist s))
    + clampDist h (fst (hip s)) (snd (hip s)).

(** [Api]: [dist(bustCm, s.bust) + dist(waistCm, s.waist) + dist(hipCm, s.hip)]. *)
Definition rowDistApi (b w h : option float) (s : SizeRow) : float :=
  clampDist b (fst (bust s)) (snd (bust s))
    + clampDist w (fst (waist s)) (snd (waist s))
    + clampDist h (fst (hip s)) (snd (hip s)).

Definition candOf (score : SizeRow -> nat) (dist : SizeRow -> float) (s : SizeRow) : Cand :=
  mkCand (label s) (score s) (dist s).

(** [!best || cand.score > best.score ||
     (cand.score === best.score && cand.dist < best.dist)]. *)
Definition replaces (best : option Cand) (cand : Cand) : bool :=
  match best with
  | None => true
  | Some bst =>
      Nat.ltb (c_score bst) (c_score cand)
      || (Nat.eqb (c_score cand) (c_score bst) && (c_dist cand <? c_dist bst))
  end.

(** One iteration of [for (const s of SIZE_CHART)]. *)
Definition chartStep (score : SizeRow -> nat) (dist : SizeRow -> float)
    (best : option Cand) (s : SizeRow) : option Cand :=
  let cand := candOf score dist s in
  if replaces best cand then Some cand else best.

Definition chartLoop (score : SizeRow -> nat) (dist : SizeRow -> float)
    (chart : list SizeRow) : option Cand :=
  fold_left (chartStep score dist) chart None.

(** [best?.label || null]. *)
Definition labelOrNull (best : option Cand) : option string :=
  match best with
  | Some bst => if Js.truthy_str (Some (c_label bst)) then Some (c_label bst) else None
  | None => None
  end.

(** ** Bra string *)

Definition parseBra (bra : option string) : option float * option string :=
  match bra with
  | Some s =>
      if negb (Js.truthy_str bra) then (None, None)
      else
        match matchBra (toUpperCase (stripSpaces s)) with
        | None => (None, None)
        | Some (m1, m2) => (Some (ofZ (parseInt10 m1)), Some m2)
        end
  | None => (None, None)
  end.

(** [{ A:2.5, B:5, C:7.5, D:10, DD:12.5, E:12.5, F:15 }]. *)
Definition cupMap : list (string * float) :=
  [ ("A", 2.5); ("B", 5); ("C", 7.5); ("D", 10); ("DD", 12.5); ("E", 12.5); ("F", 15) ].

Fixpoint lookup (key : string) (m : list (string * float)) : option float :=
  match m with
  | [] => None
  | (k, v) :: rest => if String.eqb k key then Some v else lookup key rest
  end.

(** [cupMap[bra_cup] || 7.5]. *)
Definition cupIncrement (bra_cup : string) : float :=
  let v := lookup bra_cup cupMap in
  if truthy_num v then match v with Some x => x | None => 7.5 end else 7.5.

(** [bust_est]: the measured bust, else
    [bra_band * 2.54 + (cupMap[bra_cup] || 7.5) * 2.54]. *)
Definition estimateBust (bust_cm bra_band : option float) (bra_cup : option string)
    : option float :=
  if negb (truthy_num bust_cm) && truthy_num bra_band && Js.truthy_str bra_cup
  then
    match bra_band, bra_cup with
    | Some band, Some cup => Some (band * 2.54 + cupIncrement cup * 2.54)
    | _, _ => bust_cm
    end
  else bust_cm.

(** ** Request, analytics row and normalisation *)

Module Body.
Record t : Type := mk {
  product_handle : option string;
  product_title : option string;
  unit : option string;
  height : option float;
  weight : option float;
  bust : option float;
  waist : option float;
  hip : option float;
  bra : option string;
  activity : option string;
  modesty : option string;
  tummy_control : option bool;
  style_preference : option string
}.

(** The empty payload [{}]. *)
Definition empty : t :=
  mk None None None None None None None None None None None None None.

(** [{ ...body, height, weight }]. *)
Definition withHW (body : t) (h w : option float) : t :=
  mk (product_handle body) (product_title body) (unit body) h w
     (bust body) (waist body) (hip body) (bra body) (activity body)
     (modesty body) (tummy_control body) (style_preference body).


(** [{ ...body, tummy_control }]. *)
Definition withTummy (body : t) (flag : option bool) : t :=
  mk (product_handle body) (product_title body) (unit body) (height body)
     (weight body) (bust body) (waist body) (hip body) (bra body)
     (activity body) (modesty body) flag (style_preference body).
End Body.

(** The row handed to [supabase.from("size_quiz_responses").insert]. *)
Module QuizResponse.
Record t : Type := mk {
  product_handle : option string;
  product_title : option string;
  height_cm : option float;
  weight_kg : option float;
  bust_cm : option float;
  waist_cm : option float;
  hip_cm : option float;
  bra_band : option float;
  bra_cup : option string;
  unit_system : string;
  activity : option string;
  modesty : option string;
  tummy_control : option bool;
  style_preference : option string;
  recommended_size : string;
  recommended_style : string;
  fit_notes : string
}.
End QuizResponse.

(** An awaited call with a row: it yields a value, or it throws. *)
Definition Sink : Type := QuizResponse.t -> Outcome InsertResult.

(** The two collaborators of a route module.  [createClient] is called
    with the two environment variables as they are ([undefined] when
    unset) and returns a client or throws.  The awaited insert of a row
    through a client resolves to [{ error }]: a write that fails is
    reported there, it does not reject. *)
Definition CreateClient : Type := option string -> option string -> Outcome SupabaseClient.
Definition Insert : Type := SupabaseClient -> QuizResponse.t -> InsertResult.

(** What a request to a route gets: nothing from the handler when the
    route module threw while it was loaded, else the handler's response. *)
Inductive Served : Type :=
| LoadFailed (message : string)
| Handled (response : Response).

Record Normalized : Type := mkNormalized {
  height_cm : option float;
  weight_kg : option float;
  bust_cm : option float;
  waist_cm : option float;
  hip_cm : option float
}.

(** [v ? (unit === "imperial" ? conv(v) : same(v)) : undefined]. *)
Definition normField (unit : string) (conv same : float -> float) (v : option float)
    : option float :=
  if truthy_num v then
    match v with
    | Some x => Some (if String.eqb unit "imperial" then conv x else same x)
    | None => None
    end
  else None.

Definition normalize (unit : string) (body : Body.t) : Normalized :=
  {| height_cm := normField unit (fun x => round (inToCm x)) round (Body.height body);
     weight_kg := normField unit (fun x => round (x * 0.453592)) round (Body.weight body);
     bust_cm := normField unit inToCm (fun x => x) (Body.bust body);
     waist_cm := normField unit inToCm (fun x => x) (Body.waist body);
     hip_cm := normField unit inToCm (fun x => x) (Body.hip body) |}.

(** The row written for a request, from the values the handler holds. *)
Definition rowOf (body : Body.t) (unit : string) (n : Normalized)
    (bust_est bra_band : option float) (bra_cup : option string)
    (size coverage notes : string) : QuizResponse.t :=
  {| QuizResponse.product_handle := Js.or_str (Body.product_handle body) None;
     QuizResponse.product_title := Js.or_str (Body.product_title body) None;
     QuizResponse.height_cm := height_cm n;
     QuizResponse.weight_kg := weight_kg n;
     QuizResponse.bust_cm := bust_est;
     QuizResponse.waist_cm := waist_cm n;
     QuizResponse.hip_cm := hip_cm n;
     QuizResponse.bra_band := bra_band;
     QuizResponse.bra_cup := bra_cup;
     QuizResponse.unit_system := unit;
     QuizResponse.activity := Body.activity body;
     QuizResponse.modesty := Body.modesty body;
     QuizResponse.tummy_control := Body.tummy_control body;
     QuizResponse.style_preference := Body.style_preference body;
     QuizResponse.recommended_size := size;
     QuizResponse.recommended_style := coverage;
     QuizResponse.fit_notes := notes |}.

End F64.

(** ** [src/app/size/recommend/route.ts] over doubles *)

Module App64.
Import F64.

(** [const supabase = createClient(process.env.NEXT_PUBLIC_SUPABASE_URL!,
    process.env.SUPABASE_SERVICE_ROLE!)], evaluated when the module is
    loaded. *)
Definition supabase (env : Env) (createClient : CreateClient) : Outcome SupabaseClient :=
  createClient (NEXT_PUBLIC_SUPABASE_URL env) (SUPABASE_SERVICE_ROLE env).

Definition pickFromChart (bust_cm waist_cm hip_cm : option float) : option string :=
  if negb (truthy_num bust_cm) && negb (truthy_num waist_cm) && negb (truthy_num hip_cm)
  then None
  else labelOrNull
         (chartLoop (rowScore bust_cm waist_cm hip_cm) (rowDistApp bust_cm waist_cm hip_cm)
            SIZE_CHART).

Definition fitCopy (size coverage : string) (inputs : Body.t) : string :=
  let hints :=
    hintsOf (Body.tummy_control inputs) (Body.activity inputs) (Body.modesty inputs) coverage in
  let bullet := hintClause hints in
  "We suggest **" ++ size ++ "** in a **" ++ coverage ++ "** style" ++ bullet
  ++ ". For close fit, choose your measured size; for relaxed fit, consider one size up.".

(** [body.unit || "metric"]. *)
Definition unitOf (body : Body.t) : string :=
  match Js.or_str (Body.unit body) (Some "metric") with
  | Some u => u
  | None => "metric"
  end.

Definition normalized (body : Body.t) : Normalized := normalize (unitOf body) body.

(** [bust_est]: the bust the chart lookup is called with. *)
Definition bustEst (body : Body.t) : option float :=
  let '(bra_band, bra_cup) := parseBra (Body.bra body) in
  estimateBust (bust_cm (normalized body)) bra_band bra_cup.

Definition byChart (body : Body.t) : option string :=
  pickFromChart (bustEst body) (waist_cm (normalized body)) (hip_cm (normalized body)).

Definition byHW (body : Body.t) : option string :=
  sizeByHW (height_cm (normalized body)) (weight_kg (normalized body)).

Definition sizeOf (body : Body.t) : string := sizeOr (byChart body) (byHW body).

Definition coverageOf (body : Body.t) : string :=
  chooseCoverage (Body.activity body) (Body.modesty body)
    (Some (Js.truthy_bool (Body.tummy_control body))) (Body.style_preference body).

Definition notesOf (body : Body.t) : string :=
  fitCopy (sizeOf body) (coverageOf body) body.

Definition rowFor (body : Body.t) : QuizResponse.t :=
  let '(bra_band, bra_cup) := parseBra (Body.bra body) in
  rowOf body (unitOf body) (normalized body) (bustEst body) bra_band bra_cup
    (sizeOf body) (coverageOf body) (notesOf body).

(** The handler: [req.json()], the computation, the awaited insert,
    all inside one [try]; the [catch] answers 400. *)
Definition POST (insert : Sink) (req : Outcome Body.t) : Response :=
  try_catch
    (body <- req ;;
     _ <- insert (rowFor body) ;;
     Returned (Recommendation (sizeOf body) (coverageOf body) (notesOf body)))
    (fun e => Failure 400 e).

(** A request to the route: the module is loaded, which creates the
    client, and the handler runs with the insert of that client. *)
Definition route (env : Env) (createClient : CreateClient) (insert : Insert)
    (req : Outcome Body.t) : Served :=
  match supabase env createClient with
  | Thrown e => LoadFailed e
  | Returned client => Handled (POST (fun row => Returned (insert client row)) req)
  end.

End App64.

(** ** [src/app/api/size/recommend/route.ts] over doubles *)

Module Api64.
Import F64.

(** The same module-scope [createClient] call as in [App64]. *)
Definition supabase (env : Env) (createClient : CreateClient) : Outcome SupabaseClient :=
  createClient (NEXT_PUBLIC_SUPABASE_URL env) (SUPABASE_SERVICE_ROLE env).

Definition pickFromChart (bustCm waistCm hipCm : option float) : option string :=
  match bustCm, waistCm, hipCm with
  | None, None, None => None
  | _, _, _ =>
      labelOrNull
        (chartLoop (rowScore bustCm waistCm hipCm) (rowDistApi bustCm waistCm hipCm)
           SIZE_CHART)
  end.

(** [body.unit === "imperial" ? "imperial" : "metric"]. *)
Definition unitOf (body : Body.t) : string :=
  if Js.str_is (Body.unit body) "imperial" then "imperial" else "metric".

Definition normalized (body : Body.t) : Normalized := normalize (unitOf body) body.

Definition bustEst (body : Body.t) : option float :=
  let '(bra_band, bra_cup) := parseBra (Body.bra body) in
  estimateBust (bust_cm (normalized body)) bra_band bra_cup.

Definition byChart (body : Body.t) : option string :=
  pickFromChart (bustEst body) (waist_cm (normalized body)) (hip_cm (normalized body)).

Definition byHW (body : Body.t) : option string :=
  sizeByHW (height_cm (normalized body)) (weight_kg (normalized body)).

Definition sizeOf (body : Body.t) : string := sizeOr (byChart body) (byHW body).

Definition coverageOf (body : Body.t) : string :=
  chooseCoverage (Body.activity body) (Body.modesty body)
    (Some (Js.truthy_bool (Body.tummy_control body))) (Body.style_preference body).

(** [fitCopy(size, coverage, { t: !!body.tummy_control, a: body.activity,
    m: body.modesty })]; [fitCopy] works on strings only and is [Api.fitCopy]. *)
Definition notesOf (body : Body.t) : string :=
  Api.fitCopy (sizeOf body) (coverageOf body)
    (Api.mkOpts (Some (Js.truthy_bool (Body.tummy_control body)))
       (Body.activity body) (Body.modesty body)).

Definition rowFor (body : Body.t) : QuizResponse.t :=
  let '(bra_band, bra_cup) := parseBra (Body.bra body) in
  rowOf body (unitOf body) (normalized body) (bustEst body) bra_band bra_cup
    (sizeOf body) (coverageOf body) (notesOf body).

(** [process.env.NEXT_PUBLIC_SUPABASE_URL && process.env.SUPABASE_SERVICE_ROLE]. *)
Definition configured (env : Env) : bool :=
  Js.truthy_str (NEXT_PUBLIC_SUPABASE_URL env) && Js.truthy_str (SUPABASE_SERVICE_ROLE env).

(** As [App64.POST], with the insert run only when both variables are set. *)
Definition POST (env : Env) (insert : Sink) (req : Outcome Body.t) : Response :=
  try_catch
    (body <- req ;;
     _ <- (if configured env then insert (rowFor body)
           else Returned (mkInsertResult None)) ;;
     Returned (Recommendation (sizeOf body) (coverageOf body) (notesOf body)))
    (fun e => Failure 400 e).

Definition route (env : Env) (createClient : CreateClient) (insert : Insert)
    (req : Outcome Body.t) : Served :=
  match supabase env createClient with
  | Thrown e => LoadFailed e
  | Returned client => Handled (POST env (fun row => Returned (insert client row)) req)
  end.

End Api64.

(** ** The chart lookup of [src/unnamed/part_000] over doubles *)

Module Inch64.
Import F64.
Local Open Scope float_scope.

(** Megaska size chart, in inches. *)
Definition SIZE_CHART : list SizeRow :=
  [ mkRow "S"   (32, 34) (28, 30) (34, 36);
    mkRow "M"   (34, 36) (30, 32) (36, 38);
    mkRow "L"   (36, 38) (32, 34) (38, 40);
    mkRow "XL"  (38, 40) (34, 36) (40, 42);
    mkRow "XXL" (40, 42) (36, 38) (42, 44) ].

Definition pickFromChart (bustIn waistIn hipIn : option float) : option string :=
  match bustIn, waistIn, hipIn with
  | None, None, None => None
  | _, _, _ =>
      labelOrNull
        (chartLoop (rowScore bustIn waistIn hipIn) (rowDistApi bustIn waistIn hipIn)
           SIZE_CHART)
  end.

End Inch64.

(** Every character of the string is an ASCII character.  On such strings
    [isSpace] is [\s] and [upcase] is [toUpperCase]; on others JavaScript
    does more (U+00A0 is white space, the sharp s uppercases to SS), and
    the model of [parseBra] says nothing. *)
Definition isAscii (s : string) : bool :=
  str_forallb (fun c => Nat.ltb (nat_of_ascii c) 128) s.

(** * The selection rule over doubles, in the words of the specification *)

Module Spec64.
Import F64.
Local Open Scope float_scope.

(** Distance of one axis: 0 if absent, [low - value] below the range,
    [value - high] above it, [|value - midpoint| * 0.1] inside, each
    operation rounded as a double operation is. *)
Definition specAxisDist (val : option float) (r : Range) : float :=
  match val with
  | None => 0
  | Some v =>
      if v <? fst r then fst r - v
      else if snd r <? v then v - snd r
      else abs (v - (fst r + snd r) / 2) * 0.1
  end.

(** The sum over the three axes, added from left to right. *)
Definition specDist (b w h : option float) (s : SizeRow) : float :=
  specAxisDist b (bust s) + specAxisDist w (waist s) + specAxisDist h (hip s).

(** A measurement counts when it is present and inside the inclusive
    range. *)
Definition specCounts (val : option float) (r : Range) : bool :=
  match val with
  | None => false
  | Some v => (fst r <=? v) && (v <=? snd r)
  end.

Definition specScore (b w h : option float) (s : SizeRow) : nat :=
  List.length (filter (fun p => specCounts (fst p) (snd p))
                 [(b, bust s); (w, waist s); (h, hip s)]).

(** Row [r], at position [i] of the chart, is the row selected: no row
    scores higher; no row of equal score has a distance that compares
    lower; and every earlier row of equal score has a distance that
    compares greater. *)
Definition Selects (score : SizeRow -> nat) (dist : SizeRow -> float)
    (chart : list SizeRow) (i : nat) (r : SizeRow) : Prop :=
  nth_error chart i = Some r /\
  forall j r', nth_error chart j = Some r' ->
    (score r' <= score r)%nat /\
    (score r' = score r -> (dist r' <? dist r) = false) /\
    (score r' = score r -> (j < i)%nat -> (dist r <? dist r') = true).

(** A measurement that is absent, or present with a falsy value: a zero
    or NaN. *)
Definition Falsy (v : option float) : Prop :=
  v = None \/ exists x, v = Some x /\ ((x =? 0) = true \/ PrimFloat.is_nan x = true).

Definition allFalsy (b w h : option float) : bool :=
  negb (truthy_num b) && negb (truthy_num w) && negb (truthy_num h).

Definition allAbsent (b w h : option float) : bool :=
  match b, w, h with
  | None, None, None => true
  | _, _, _ => false
  end.

(** A present measurement that is NaN. *)
Definition isNaN (v : option float) : bool :=
  match v with
  | Some x => PrimFloat.is_nan x
  | None => false
  end.

(** The midpoints of the three ranges of a row are finite. *)
Definition midsFinite (s : SizeRow) : bool :=
  SFfinite (Prim2SF (mid (fst (bust s)) (snd (bust s))))
  && SFfinite (Prim2SF (mid (fst (waist s)) (snd (waist s))))
  && SFfinite (Prim2SF (mid (fst (hip s)) (snd (hip s)))).

(** The distances of a chart are ordered the way numbers are: what is not
    below a distance is above every distance below it.  This holds when
    all of them are numbers and when all of them are NaN. *)
Definition Ordered (dist : SizeRow -> float) (chart : list SizeRow) : Prop :=
  forall r r' r'', In r chart -> In r' chart -> In r'' chart ->
    (dist r <? dist r') = false ->
    (dist r'' <? dist r') = true ->
    (dist r'' <? dist r) = true.

(** Some measurement reaches the chart lookup of [App64.POST]. *)
Definition measured (body : Body.t) : Prop :=
  App64.bustEst body <> None
  \/ waist_cm (App64.normalized body) <> None
  \/ hip_cm (App64.normalized body) <> None.

(** The bra string of the request, if any, is made of ASCII characters. *)
Definition asciiBra (body : Body.t) : bool :=
  match Body.bra body with
  | Some bra => isAscii bra
  | None => true
  end.

(** The band numbers two digits can spell, and the cup increments. *)
Definition bands : list Z := map Z.of_nat (seq 0 100).
Definition increments : list float := [2.5; 5; 7.5; 10; 12.5; 15].

(** Sample payloads. *)
Definition bodyHW (h w : float) : Body.t := Body.withHW Body.empty (Some h) (Some w).

Definition bodyBra (bra : string) : Body.t :=
  Body.mk None None None None None None None None (Some bra) None None None None.


(** ** The size chain of the specification *)

(** The BMI thresholds, compared as doubles. *)
Definition specBmiLabel (bmi : float) : string :=
  if bmi <? 21 then "S"
  else if bmi <? 24 then "M"
  else if bmi <? 27 then "L"
  else if bmi <? 31 then "XL"
  else "XXL".

(** [weight / (height/100)^2], each operation rounded. *)
Definition specBmi (height_cm weight_kg : float) : float :=
  weight_kg / ((height_cm / 100) * (height_cm / 100)).

(** The fallback chain as the specification words it: the chart's label;
    else, with height and weight present, the BMI label; else "M". *)
Definition statedSize (byChart : option string) (height_cm weight_kg : option float)
    : string :=
  match byChart with
  | Some l => l
  | None =>
      match height_cm, weight_kg with
      | Some hh, Some ww => specBmiLabel (specBmi hh ww)
      | _, _ => "M"
      end
  end.

(** The same chain, with the BMI label only for a height and a weight
    that are both present and truthy (not zero, not NaN). *)
Definition specSize (byChart : option string) (height_cm weight_kg : option float)
    : string :=
  match byChart with
  | Some l => l
  | None =>
      match height_cm, weight_kg with
      | Some hh, Some ww =>
          if truthy_num (Some hh) && truthy_num (Some ww)
          then specBmiLabel (specBmi hh ww) else "M"
      | _, _ => "M"
      end
  end.

(** ** Requests with their falsy numbers left out *)




(** ** The bra estimate of the specification *)

(** The cup increments of the specification, in inches. *)
Definition specCupIncrement (cup : string) : float :=
  if String.eqb cup "A" then 2.5
  else if String.eqb cup "B" then 5
  else if String.eqb cup "C" then 7.5
  else if String.eqb cup "D" then 10
  else if String.eqb cup "DD" then 12.5
  else if String.eqb cup "E" then 12.5
  else if String.eqb cup "F" then 15
  else 7.5.

(** [band * 2.54 + cupIncrement * 2.54], each operation rounded. *)
Definition specEstimate (band : Z) (cup : string) : float :=
  ofZ band * 2.54 + specCupIncrement cup * 2.54.

(** ** The client library, as far as the routes depend on it *)





(** The way back from kilograms to pounds.  The routes only ever convert
    pounds to kilograms; the round trip of a weight divides by the factor
    [lbToKg] multiplies by. *)
Definition kgToLb (n : float) : float := n / 0.453592.

(** The value of a finite double lies within [tol] of that of another. *)
Definition within (tol : Q) (y x : float) : Prop :=
  SFfinite (Prim2SF y) = true /\
  (Qabs (SFval (Prim2SF y) - SFval (Prim2SF x)) <= tol)%Q.


End Spec64.

(** * Facts about the exact number model *)

Lemma lt_true (a b : Q) : Js.lt a b = true <-> a < b.
Proof.
  unfold Js.lt. rewrite negb_true_iff. split; intro H.
  - apply Qnot_le_lt. intro Hle. apply Qle_bool_iff in Hle. congruence.
  - destruct (Qle_bool b a) eqn:E; [|reflexivity].
    apply Qle_bool_iff in E. exfalso. apply (Qlt_not_le _ _ H E).
Qed.

Lemma lt_false (a b : Q) : Js.lt a b = false <-> b <= a.
Proof.
  unfold Js.lt. rewrite negb_false_iff. apply Qle_bool_iff.
Qed.

Lemma lt_dec_eq (a b : Q) : Js.lt a b = if Qlt_le_dec a b then true else false.
Proof.
  destruct (Qlt_le_dec a b) as [H|H].
  - now apply lt_true.
  - now apply lt_false.
Qed.

Lemma truthy_num_true (v : option Q) :
  Js.truthy_num v = true <-> exists x, v = Some x /\ ~ x == 0.
Proof.
  destruct v as [x|]; simpl.
  - rewrite negb_true_iff. split.
    + intro H. exists x. split; [reflexivity|]. now apply Qeq_bool_neq.
    + intros (y & Hy & Hn). injection Hy as <-.
      destruct (Qeq_bool x 0) eqn:E; [|reflexivity].
      apply Qeq_bool_iff in E. contradiction.
  - split; [discriminate|]. intros (y & Hy & _). discriminate.
Qed.

Lemma truthy_num_false (v : option Q) :
  Js.truthy_num v = false <-> v = None \/ exists x, v = Some x /\ x == 0.
Proof.
  destruct v as [x|]; simpl.
  - rewrite negb_false_iff, Qeq_bool_iff. split.
    + intro H. right. now exists x.
    + intros [H|(y & Hy & H0)]; [discriminate|]. now injection Hy as <-.
  - split; auto.
Qed.

(** * The chart loop in exact arithmetic *)

Lemma rowScore_spec (b w h : option Q) (s : SizeRow) :
  rowScore b w h s = specScore b w h s.
Proof.
  unfold rowScore, specScore, incr, inRange, specCounts, Js.le. simpl.
  destruct b as [x|], w as [y|], h as [z|]; simpl;
    repeat match goal with
           | |- context [Qle_bool ?p ?q] => destruct (Qle_bool p q); simpl
           end; reflexivity.
Qed.

Lemma clampDist_spec (val : option Q) (r : Range) :
  clampDist val (fst r) (snd r) == specAxisDist val r.
Proof.
  unfold clampDist, specAxisDist, mid. destruct val as [v|]; [|reflexivity].
  rewrite !lt_dec_eq.
  destruct (Qlt_le_dec v (fst r)); [reflexivity|].
  destruct (Qlt_le_dec (snd r) v); reflexivity.
Qed.

Lemma rowDist_spec (b w h : option Q) (s : SizeRow) :
  rowDist b w h s == specDist b w h s.
Proof.
  unfold rowDist, specDist. rewrite !clampDist_spec. ring.
Qed.

Lemma replaces_true (bst cand : Cand) :
  replaces (Some bst) cand = true <->
  (c_score bst < c_score cand)%nat \/
  (c_score cand = c_score bst /\ c_dist cand < c_dist bst).
Proof.
  unfold replaces.
  rewrite orb_true_iff, andb_true_iff, Nat.ltb_lt, Nat.eqb_eq, lt_true. tauto.
Qed.

Lemma replaces_false (bst cand : Cand) :
  replaces (Some bst) cand = false <->
  (c_score cand <= c_score bst)%nat /\
  (c_score cand = c_score bst -> c_dist bst <= c_dist cand).
Proof.
  unfold replaces.
  rewrite orb_false_iff, andb_false_iff, Nat.ltb_ge, Nat.eqb_neq, lt_false.
  destruct (Nat.eq_dec (c_score cand) (c_score bst)); tauto.
Qed.

Lemma chartLoop_snoc (b w h : option Q) (chart : list SizeRow) (s : SizeRow) :
  chartLoop b w h (chart ++ [s]) = chartStep b w h (chartLoop b w h chart) s.
Proof.
  unfold chartLoop. now rewrite fold_left_app.
Qed.

(** The loop keeps, of the rows seen so far, the one the rule selects. *)
Lemma chartLoop_selects (b w h : option Q) (chart : list SizeRow) :
  chart <> [] ->
  exists i r,
    Selects (rowScore b w h) (rowDist b w h) chart i r /\
    chartLoop b w h chart = Some (candOf b w h r).
Proof.
  induction chart as [|s chart IH] using rev_ind; [congruence|]. intros _.
  rewrite chartLoop_snoc.
  destruct chart as [|s0 chart0].
  - exists 0%nat, s. split; [|reflexivity].
    split; [reflexivity|]. intros j r' Hj.
    destruct j as [|j]; simpl in Hj.
    + injection Hj as <-. repeat split; auto with arith. intros _. apply Qle_refl.
    + destruct j; discriminate.
  - destruct IH as (i & r & (Hi & Hbest) & Hloop); [discriminate|].
    set (chart := s0 :: chart0) in *.
    assert (Hlt : (i < List.length chart)%nat)
      by (apply nth_error_Some; congruence).
    rewrite Hloop. unfold chartStep.
    destruct (replaces (Some (candOf b w h r)) (candOf b w h s)) eqn:E.
    + apply replaces_true in E. cbn [candOf c_score c_dist] in E.
      exists (List.length chart), s. split; [|reflexivity]. split.
      * rewrite nth_error_app2, Nat.sub_diag by lia. reflexivity.
      * intros j r' Hj.
        destruct (Nat.lt_ge_cases j (List.length chart)) as [Hjl|Hjl].
        -- rewrite nth_error_app1 in Hj by assumption.
           destruct (Hbest j r' Hj) as (Hs & Hd & _).
           destruct E as [E|[E1 E2]].
           ++ split; [lia|split; intros; exfalso; lia].
           ++ split; [lia|]. split.
              ** intro Heq. apply Qle_trans with (rowDist b w h r).
                 --- now apply Qlt_le_weak.
                 --- apply Hd. lia.
              ** intros Heq Hdd. exfalso.
                 assert (Hle : rowDist b w h r <= rowDist b w h r') by (apply Hd; lia).
                 rewrite Hdd in Hle. apply (Qlt_not_le _ _ E2 Hle).
        -- rewrite nth_error_app2 in Hj by assumption.
           destruct (j - List.length chart)%nat as [|k] eqn:Ek; simpl in Hj.
           ++ injection Hj as <-. repeat split; auto with arith.
              intros _. apply Qle_refl.
           ++ destruct k; discriminate.
    + apply replaces_false in E. cbn [candOf c_score c_dist] in E.
      destruct E as [E1 E2].
      exists i, r. split; [|reflexivity]. split.
      * rewrite nth_error_app1 by assumption. exact Hi.
      * intros j r' Hj.
        destruct (Nat.lt_ge_cases j (List.length chart)) as [Hjl|Hjl].
        -- rewrite nth_error_app1 in Hj by assumption. now apply Hbest.
        -- rewrite nth_error_app2 in Hj by assumption.
           destruct (j - List.length chart)%nat as [|k] eqn:Ek; simpl in Hj.
           ++ injection Hj as <-. repeat split; auto; intros; lia.
           ++ destruct k; discriminate.
Qed.

(** The same, against the score and the distance of the specification. *)
Lemma Selects_spec (b w h : option Q) (chart : list SizeRow) (i : nat) (r : SizeRow) :
  Selects (rowScore b w h) (rowDist b w h) chart i r ->
  Selects (specScore b w h) (specDist b w h) chart i r.
Proof.
  intros [Hi Hbest]. split; [exact Hi|]. intros j r' Hj.
  destruct (Hbest j r' Hj) as (Hs & Hd & He).
  rewrite <- !rowScore_spec, <- !rowDist_spec. auto.
Qed.

Lemma chart_labels_truthy (r : SizeRow) :
  In r SIZE_CHART -> Js.truthy_str (Some (label r)) = true.
Proof.
  simpl. intros [<-|[<-|[<-|[<-|[<-|[]]]]]]; reflexivity.
Qed.

(** The label the loop ends with, over the chart of the route. *)
Lemma chart_lookup (b w h : option Q) :
  exists i r,
    Selects (specScore b w h) (specDist b w h) SIZE_CHART i r /\
    labelOrNull (chartLoop b w h SIZE_CHART) = Some (label r).
Proof.
  destruct (chartLoop_selects b w h SIZE_CHART) as (i & r & Hsel & Hloop);
    [discriminate|].
  exists i, r. split; [now apply Selects_spec|].
  rewrite Hloop. unfold labelOrNull. simpl c_label.
  rewrite chart_labels_truthy; [reflexivity|].
  destruct Hsel as [Hi _]. now apply nth_error_In in Hi.
Qed.

(** ** The guards of the lookup *)

Lemma App_pick_eq (b w h : option Q) :
  App.pickFromChart b w h =
  if allFalsy b w h then None else labelOrNull (chartLoop b w h SIZE_CHART).
Proof. reflexivity. Qed.

Lemma Api_pick_eq (b w h : option Q) :
  Api.pickFromChart b w h =
  if allAbsent b w h then None else labelOrNull (chartLoop b w h SIZE_CHART).
Proof. destruct b, w, h; reflexivity. Qed.

Lemma allAbsent_true (b w h : option Q) :
  allAbsent b w h = true <-> b = None /\ w = None /\ h = None.
Proof.
  destruct b, w, h; simpl; split; try discriminate; try tauto;
    intros (H1 & H2 & H3); discriminate.
Qed.

Lemma allFalsy_true (b w h : option Q) :
  allFalsy b w h = true <-> AbsentOrZero b /\ AbsentOrZero w /\ AbsentOrZero h.
Proof.
  unfold allFalsy, AbsentOrZero.
  rewrite !andb_true_iff, !negb_true_iff, !truthy_num_false. tauto.
Qed.

(** Both lookups end with the label of the selected row, unless their
    guard answers null first. *)
Lemma pick_selected (b w h : option Q) :
  exists i r,
    Selects (specScore b w h) (specDist b w h) SIZE_CHART i r /\
    App.pickFromChart b w h = (if allFalsy b w h then None else Some (label r)) /\
    Api.pickFromChart b w h = (if allAbsent b w h then None else Some (label r)).
Proof.
  destruct (chart_lookup b w h) as (i & r & Hsel & Hlab).
  exists i, r. now rewrite App_pick_eq, Api_pick_eq, Hlab.
Qed.

(** ** No measurement reaching the lookup is zero *)

Lemma normField_None (unit : string) (conv same : Q -> Q) :
  normField unit conv same None = None.
Proof. reflexivity. Qed.

Lemma normField_zero (unit : string) (conv same : Q -> Q) (x : Q) :
  x == 0 -> normField unit conv same (Some x) = None.
Proof.
  intro H. unfold normField. simpl. apply Qeq_eq_bool in H. now rewrite H.
Qed.

Lemma normField_nonzero (unit : string) (conv same : Q -> Q) (x : Q) :
  ~ x == 0 ->
  normField unit conv same (Some x)
  = Some (if String.eqb unit "imperial" then conv x else same x).
Proof.
  intro H. unfold normField. simpl.
  destruct (Qeq_bool x 0) eqn:E; [|reflexivity].
  apply Qeq_bool_iff in E. contradiction.
Qed.

Lemma inToCm_nonzero (x : Q) : ~ x == 0 -> ~ inToCm x == 0.
Proof. unfold inToCm. intros H H0. apply H. lra. Qed.

Lemma measure_nonzero (unit : string) (v : option Q) (y : Q) :
  normField unit inToCm (fun x => x) v = Some y -> ~ y == 0.
Proof.
  destruct v as [x|]; [|discriminate].
  destruct (Qeq_dec x 0) as [H0|H0].
  - now rewrite normField_zero.
  - rewrite normField_nonzero by assumption.
    intro H. injection H as <-.
    destruct (String.eqb unit "imperial"); [now apply inToCm_nonzero|assumption].
Qed.

Lemma parseInt10_nonneg (s : string) : (0 <= parseInt10 s)%Z.
Proof.
  unfold parseInt10.
  assert (H : forall l acc, (0 <= acc)%Z ->
            (0 <= fold_left (fun a c => 10 * a + digitVal c) l acc)%Z).
  { induction l as [|c l IH]; intros acc Hacc; cbn [fold_left]; [assumption|].
    apply IH. pose proof (Nat2Z.is_nonneg (nat_of_ascii c - 48)).
    unfold digitVal. lia. }
  apply H. lia.
Qed.

Lemma parseBra_band_nonneg (bra : option string) (band : Q) (cup : option string) :
  parseBra bra = (Some band, cup) -> 0 <= band.
Proof.
  unfold parseBra. destruct bra as [s|]; [|discriminate].
  destruct (negb (Js.truthy_str (Some s))); [discriminate|].
  destruct (matchBra _) as [[m1 m2]|]; [|discriminate].
  intro H. injection H as <- _.
  change 0 with (inject_Z 0). rewrite <- Zle_Qle. apply parseInt10_nonneg.
Qed.

Lemma cupIncrement_pos (cup : string) : 0 < cupIncrement cup.
Proof.
  unfold cupIncrement, cupMap, lookup.
  repeat match goal with
         | |- context [String.eqb ?k cup] => destruct (String.eqb k cup)
         end; reflexivity.
Qed.

Lemma estimateBust_nonzero (bust_cm band : option Q) (cup : option string) (y : Q) :
  (forall x, bust_cm = Some x -> ~ x == 0) ->
  (forall x, band = Some x -> 0 <= x) ->
  estimateBust bust_cm band cup = Some y -> ~ y == 0.
Proof.
  intros Hb Hband. unfold estimateBust.
  destruct (negb (Js.truthy_num bust_cm) && Js.truthy_num band && Js.truthy_str cup) eqn:E.
  - apply andb_true_iff in E. destruct E as [E _].
    apply andb_true_iff in E. destruct E as [_ E].
    apply truthy_num_true in E. destruct E as (x & -> & Hx).
    destruct cup as [c|]; [|now apply Hb].
    intro H. injection H as <-.
    pose proof (Hband x eq_refl). pose proof (cupIncrement_pos c). lra.
  - now apply Hb.
Qed.

Lemma App_bustEst_nonzero (body : Body.t) (y : Q) :
  App.bustEst body = Some y -> ~ y == 0.
Proof.
  unfold App.bustEst.
  destruct (parseBra (Body.bra body)) as [band cup] eqn:E.
  apply estimateBust_nonzero.
  - intros x. apply measure_nonzero.
  - intros x ->. now apply parseBra_band_nonneg in E.
Qed.

Lemma sizeOr_chart (l : string) (byHW : option string) :
  Js.truthy_str (Some l) = true -> sizeOr (Some l) byHW = l.
Proof.
  destruct l; [discriminate|reflexivity].
Qed.

(** ** The height / weight labels *)


(** * Coverage cascade (C3) *)

Lemma chooseCoverage_firstMatch (a m : option string) (t : option bool) (p : option string) :
  chooseCoverage a m t p = firstMatch coverageRules a m t p.
Proof.
  unfold chooseCoverage, firstMatch, coverageRules, isOneOf, coverageDefault.
  cbn [applies result existsb].
  destruct (Js.str_is p "burkini"); [reflexivity|].
  destruct (Js.str_is p "swimdress"); [reflexivity|].
  destruct (Js.str_is p "rashguard"); [reflexivity|].
  destruct (Js.str_is m "high"); [reflexivity|].
  rewrite orb_false_r.
  destruct (Js.str_is a "swim_class" || Js.str_is a "aqua_fitness"); cbn [andb];
    [destruct (Js.str_is m "medium"); reflexivity|].
  destruct (Js.truthy_bool t); reflexivity.
Qed.

Lemma chooseCoverage_other_pref (a m : option string) (t : option bool) (p : option string) :
  isOneOf p ["burkini"; "swimdress"; "rashguard"] = false ->
  chooseCoverage a m t p = chooseCoverage a m t None.
Proof.
  unfold isOneOf. cbn [existsb]. rewrite orb_false_r. intro H.
  apply orb_false_iff in H. destruct H as [H1 H].
  apply orb_false_iff in H. destruct H as [H2 H3].
  unfold chooseCoverage. rewrite H1, H2, H3. reflexivity.
Qed.

(** C3 (amended).  [chooseCoverage] is its rule list evaluated top to
    bottom, first match winning, and a style preference of "burkini",
    "swimdress" or "rashguard" always overrides modesty and activity: for
    every activity, modesty and tummy-control value "burkini" yields
    "burkini" (also with modesty "low" and activity "beach"), "swimdress"
    yields "knee length", "rashguard" yields "one-piece + rash guard".  No
    rule names any other preference: with "onepiece", as with none, the
    modesty and activity rules decide. *)
Theorem coverage_preference_first (a m : option string) (t : option bool) :
  (forall p, chooseCoverage a m t p = firstMatch coverageRules a m t p) /\
  chooseCoverage a m t (Some "burkini") = "burkini" /\
  chooseCoverage a m t (Some "swimdress") = "knee length" /\
  chooseCoverage a m t (Some "rashguard") = "one-piece + rash guard" /\
  chooseCoverage (Some "beach") (Some "low") t (Some "burkini") = "burkini" /\
  (forall p, isOneOf p ["burkini"; "swimdress"; "rashguard"] = false ->
     chooseCoverage a m t p = chooseCoverage a m t None) /\
  chooseCoverage a m t (Some "onepiece") = chooseCoverage a m t None.
Proof.
  split; [intro p; apply chooseCoverage_firstMatch|].
  do 4 (split; [reflexivity|]).
  split; [intro p; apply chooseCoverage_other_pref|].
  now apply chooseCoverage_other_pref.
Qed.

(** [coverage_preference_first] at the preference "bikini", which no rule
    names. *)
Lemma coverage_preference_first_witness :
  chooseCoverage (Some "beach") (Some "medium") (Some true) (Some "bikini")
  = chooseCoverage (Some "beach") (Some "medium") (Some true) None.
Proof.
  destruct (coverage_preference_first (Some "beach") (Some "medium") (Some true))
    as (_ & _ & _ & _ & _ & H & _).
  apply H. reflexivity.
Defined.

(** C3, as stated, fails: "onepiece" is an explicit style preference, and
    it overrides neither modesty nor activity; the coverage is "burkini",
    "one-piece" or "knee length" as modesty and activity say. *)
Lemma onepiece_preference_does_not_override :
  chooseCoverage (Some "beach") (Some "high") None (Some "onepiece") = "burkini"
  /\ chooseCoverage (Some "swim_class") (Some "low") None (Some "onepiece") = "one-piece"
  /\ chooseCoverage (Some "beach") (Some "low") None (Some "onepiece") = "knee length".
Proof. repeat split. Qed.

Lemma chooseCoverage_tummy (a m : option string) (t t' : option bool) (p : option string) :
  chooseCoverage a m t p = chooseCoverage a m t' p.
Proof.
  unfold chooseCoverage.
  destruct (Js.truthy_bool t), (Js.truthy_bool t'); reflexivity.
Qed.

(** * Advice text (C7) *)

Lemma str_is_true (v : option string) (lit : string) :
  Js.str_is v lit = true <-> v = Some lit.
Proof.
  destruct v as [s|]; simpl.
  - rewrite String.eqb_eq. split; [now intros ->|now intros [= ->]].
  - split; discriminate.
Qed.

Lemma append_assoc (s1 s2 s3 : string) : ((s1 ++ s2) ++ s3 = s1 ++ (s2 ++ s3))%string.
Proof.
  induction s1 as [|c s1 IH]; simpl; [reflexivity|]. now rewrite IH.
Qed.

Lemma hintClause_spec (hints : list string) : hintClause hints = specClause hints.
Proof. reflexivity. Qed.

(** The hints are those of [hintOrder] that apply, in that order. *)
Lemma hintsOf_spec (t : option bool) (a m : option string) (coverage : string) :
  let hints := hintsOf t a m coverage in
  (In "tummy-control panels" hints <-> Js.truthy_bool t = true) /\
  (In "secure shoulder coverage" hints <-> a = Some "swim_class") /\
  (In "full coverage" hints <-> (m = Some "high" \/ coverage = "burkini")) /\
  hints = filter (fun x => existsb (String.eqb x) hints) hintOrder.
Proof.
  cbn zeta. unfold hintsOf.
  rewrite <- (str_is_true a "swim_class"), <- (str_is_true m "high"),
    <- (String.eqb_eq coverage "burkini"), <- orb_true_iff.
  destruct (Js.truthy_bool t), (Js.str_is a "swim_class"),
    (Js.str_is m "high" || (coverage =? "burkini")%string);
    cbn; repeat split; intros; try reflexivity; try discriminate;
    repeat match goal with
           | H : _ \/ _ |- _ => destruct H
           | H : False |- _ => destruct H
           | H : _ = _ |- _ => discriminate H
           end; auto 6.
Qed.

(** C7 (amended).  [fitCopy] produces "We suggest **{size}** in a
    **{coverage}** style{clause}" followed by the closing sentence, which is
    ". For close fit choose your measured size; for relaxed fit, consider
    one size up." in [src/app/api/size/recommend/route.ts] and reads "For
    close fit, choose ..." (with a comma) in
    [src/app/size/recommend/route.ts].  The clause is " with " and the
    applicable hints joined by " & ", in the fixed order tummy-control
    panels (iff tummy control is requested), secure shoulder coverage (iff
    the activity is "swim_class"), full coverage (iff modesty is "high" or
    the coverage is "burkini"); it is empty when no hint applies.  Tummy
    control, "swim_class" and "high" give all three phrases in that order. *)
Theorem fitCopy_template (size coverage : string) (t : option bool) (a m : option string)
    (body : Body.t) :
  let hints := hintsOf t a m coverage in
  ((In "tummy-control panels" hints <-> Js.truthy_bool t = true) /\
   (In "secure shoulder coverage" hints <-> a = Some "swim_class") /\
   (In "full coverage" hints <-> (m = Some "high" \/ coverage = "burkini")) /\
   hints = filter (fun x => existsb (String.eqb x) hints) hintOrder) /\
  Api.fitCopy size coverage (Api.mkOpts t a m)
  = adviceHead size coverage ++ specClause hints ++ adviceTail /\
  App.fitCopy size coverage body
  = adviceHead size coverage
    ++ specClause (hintsOf (Body.tummy_control body) (Body.activity body)
                           (Body.modesty body) coverage)
    ++ adviceTailApp /\
  specClause (hintsOf (Some true) (Some "swim_class") (Some "high") coverage)
  = " with tummy-control panels & secure shoulder coverage & full coverage".
Proof.
  cbn zeta. split; [apply hintsOf_spec|].
  unfold Api.fitCopy, App.fitCopy, adviceHead. cbn [Api.t Api.a Api.m].
  rewrite !hintClause_spec.
  repeat split.
  - now rewrite !append_assoc.
  - now rewrite !append_assoc.
Qed.

(** C7, as stated, fails in [src/app/size/recommend/route.ts]: the text for
    size "M", coverage "knee length" and no hint is not the quoted
    template; it has a comma after "For close fit". *)
Lemma fitCopy_app_has_comma :
  App.fitCopy "M" "knee length" Body.empty
  <> "We suggest **M** in a **knee length** style. For close fit choose your measured size; for relaxed fit, consider one size up."
  /\ App.fitCopy "M" "knee length" Body.empty
  = "We suggest **M** in a **knee length** style. For close fit, choose your measured size; for relaxed fit, consider one size up.".
Proof.
  split; [|reflexivity].
  intro H. apply String.eqb_eq in H. vm_compute in H. discriminate.
Qed.

(** * The bra pattern *)

Lemma matchBra_pattern (s : string) (band : Z) (cup : string) :
  BraPattern s band cup ->
  exists m1, matchBra s = Some (m1, cup) /\ parseInt10 m1 = band.
Proof.
  intros (d1 & d2 & -> & H1 & H2 & Hne & Hup & ->).
  exists (String d1 (String d2 EmptyString)). split.
  - unfold matchBra. rewrite H1, H2, Hup.
    destruct (String.eqb_spec cup EmptyString) as [E|E]; [contradiction|reflexivity].
  - unfold parseInt10. cbn [list_ascii_of_string fold_left]. lia.
Qed.

Lemma matchBra_Some (s m1 m2 : string) :
  matchBra s = Some (m1, m2) -> BraPattern s (parseInt10 m1) m2.
Proof.
  unfold matchBra. destruct s as [|d1 [|d2 rest]]; try discriminate.
  destruct (isDigit d1) eqn:H1; [|discriminate].
  destruct (isDigit d2) eqn:H2; [|discriminate].
  destruct (String.eqb_spec rest EmptyString) as [E|E]; [discriminate|].
  destruct (str_forallb isUpper rest) eqn:Hup; [|discriminate].
  cbn [andb negb]. intro H. injection H as <- <-.
  exists d1, d2. repeat split; auto.
Qed.

Lemma parseBra_pattern (bra : string) (band : Z) (cup : string) :
  BraPattern (cleanBra bra) band cup ->
  parseBra (Some bra) = (Some (inject_Z band), Some cup).
Proof.
  intro Hp. destruct (matchBra_pattern _ _ _ Hp) as (m1 & Hm & Hband).
  unfold parseBra. destruct bra as [|c bra].
  - destruct Hp as (d1 & d2 & Hs & _). discriminate Hs.
  - cbn [Js.truthy_str negb]. unfold cleanBra in Hm. now rewrite Hm, Hband.
Qed.

Lemma cupIncrement_spec (cup : string) : cupIncrement cup = specCupIncrement cup.
Proof.
  unfold cupIncrement, specCupIncrement, cupMap, lookup.
  rewrite !(String.eqb_sym cup).
  repeat match goal with
         | |- context [String.eqb ?k cup] => destruct (String.eqb k cup)
         end; reflexivity.
Qed.

Lemma truthy_band (band : Z) : band <> 0%Z -> Js.truthy_num (Some (inject_Z band)) = true.
Proof.
  intro H. apply truthy_num_true. exists (inject_Z band). split; [reflexivity|].
  intro E. apply H. apply (proj1 (inject_Z_injective band 0%Z)). exact E.
Qed.

Lemma truthy_cup (s : string) (band : Z) (cup : string) :
  BraPattern s band cup -> Js.truthy_str (Some cup) = true.
Proof.
  intros (_ & _ & _ & _ & _ & Hne & _). destruct cup; [congruence|reflexivity].
Qed.

(** * Further properties of the engine, in exact arithmetic *)

(** ** The height / weight heuristic is monotone *)








(** ** What a handler can answer *)

Lemma chartLoop_row (b w h : option Q) (chart : list SizeRow) :
  chart <> [] ->
  exists r, In r chart /\ chartLoop b w h chart = Some (candOf b w h r).
Proof.
  intro Hne. destruct (chartLoop_selects b w h chart Hne) as (i & r & [Hi _] & Hloop).
  exists r. split; [now apply nth_error_In in Hi|exact Hloop].
Qed.

Lemma inch_labels_truthy (r : SizeRow) :
  In r Inch.SIZE_CHART -> Js.truthy_str (Some (label r)) = true.
Proof.
  simpl. intros [<-|[<-|[<-|[<-|[<-|[]]]]]]; reflexivity.
Qed.

Lemma Inch_pick_eq (b w h : option Q) :
  exists r, In r Inch.SIZE_CHART /\
    Inch.pickFromChart b w h = if allAbsent b w h then None else Some (label r).
Proof.
  destruct (chartLoop_row b w h Inch.SIZE_CHART) as (r & Hin & Hloop); [discriminate|].
  exists r. split; [exact Hin|].
  assert (E : labelOrNull (chartLoop b w h Inch.SIZE_CHART) = Some (label r)).
  { rewrite Hloop. unfold labelOrNull. cbn [c_label candOf].
    now rewrite inch_labels_truthy. }
  unfold Inch.pickFromChart. rewrite E. destruct b, w, h; reflexivity.
Qed.

Lemma chart_labels_known (r : SizeRow) :
  In r SIZE_CHART \/ In r Inch.SIZE_CHART -> In (label r) sizeLabels.
Proof.
  simpl. intros [H|H];
    repeat (destruct H as [<-|H]; [cbn; tauto|]); destruct H.
Qed.

Lemma sizeByHW_label (height_cm weight_kg : option Q) (l : string) :
  sizeByHW height_cm weight_kg = Some l -> In l sizeLabels.
Proof.
  unfold sizeByHW.
  destruct (negb (Js.truthy_num height_cm) || negb (Js.truthy_num weight_kg));
    [discriminate|].
  destruct height_cm as [h|], weight_kg as [w|]; try discriminate.
  cbv zeta.
  repeat match goal with
         | |- context [Js.lt ?p ?q] => destruct (Js.lt p q)
         end; intro H; injection H as <-; cbn; tauto.
Qed.

Lemma sizeOr_label (byChart byHW : option string) :
  (forall l, byChart = Some l -> In l sizeLabels) ->
  (forall l, byHW = Some l -> In l sizeLabels) ->
  In (sizeOr byChart byHW) sizeLabels.
Proof.
  intros Hc Hh. unfold sizeOr, Js.or_str.
  destruct byChart as [[|c l]|]; cbn [Js.truthy_str].
  - destruct byHW as [[|c l]|]; cbn [Js.truthy_str]; try (cbn; tauto).
    now apply Hh.
  - now apply Hc.
  - destruct byHW as [[|c l]|]; cbn [Js.truthy_str]; try (cbn; tauto).
    now apply Hh.
Qed.

Lemma chooseCoverage_style (a m : option string) (t : option bool) (p : option string) :
  In (chooseCoverage a m t p) coverageStyles.
Proof.
  unfold chooseCoverage.
  repeat match goal with
         | |- context [if ?c then _ else _] => destruct c
         end; cbn; tauto.
Qed.

(** Whatever the request, each of the three handlers answers one of the
    five size labels and one of the four coverage styles: never an empty
    or other string. *)
Theorem recommendation_range (body : Body.t) (ibody : InchBody.t) :
  (In (App.sizeOf body) sizeLabels /\ In (App.coverageOf body) coverageStyles) /\
  (In (Api.sizeOf body) sizeLabels /\ In (Api.coverageOf body) coverageStyles) /\
  (In (Inch.sizeOf ibody) sizeLabels /\ In (Inch.coverageOf ibody) coverageStyles).
Proof.
  repeat split; try apply chooseCoverage_style; apply sizeOr_label;
    try (intro l; apply sizeByHW_label).
  - intros l. unfold App.byChart.
    destruct (pick_selected (App.bustEst body) (waist_cm (App.normalized body))
                (hip_cm (App.normalized body))) as (i & r & [Hi _] & -> & _).
    destruct (allFalsy _ _ _); [discriminate|]. intro H. injection H as <-.
    apply chart_labels_known. left. now apply nth_error_In in Hi.
  - intros l. unfold Api.byChart.
    destruct (pick_selected (Api.bustEst body) (waist_cm (Api.normalized body))
                (hip_cm (Api.normalized body))) as (i & r & [Hi _] & _ & ->).
    destruct (allAbsent _ _ _); [discriminate|]. intro H. injection H as <-.
    apply chart_labels_known. left. now apply nth_error_In in Hi.
  - intros l. unfold Inch.byChart.
    destruct (Inch_pick_eq (Inch.finalBustIn ibody) (Inch.finalWaistIn ibody)
                (Inch.finalHipIn ibody)) as (r & Hin & ->).
    destruct (allAbsent _ _ _); [discriminate|]. intro H. injection H as <-.
    apply chart_labels_known. now right.
Qed.

(** ** The two centimetre handlers agree *)

Lemma unit_test_agrees (body : Body.t) :
  String.eqb (App.unitOf body) "imperial" = String.eqb (Api.unitOf body) "imperial".
Proof.
  unfold App.unitOf, Api.unitOf, Js.or_str, Js.str_is.
  destruct (Body.unit body) as [[|c u]|]; cbn [Js.truthy_str]; try reflexivity.
  destruct (String.eqb (String c u) "imperial"); reflexivity.
Qed.

Lemma normalized_agrees (body : Body.t) : App.normalized body = Api.normalized body.
Proof.
  unfold App.normalized, Api.normalized, normalize, normField.
  now rewrite unit_test_agrees.
Qed.

Lemma pick_agrees (b w h : option Q) :
  (forall x, b = Some x -> ~ x == 0) ->
  (forall x, w = Some x -> ~ x == 0) ->
  (forall x, h = Some x -> ~ x == 0) ->
  App.pickFromChart b w h = Api.pickFromChart b w h.
Proof.
  intros Hb Hw Hh.
  destruct (pick_selected b w h) as (i & r & _ & -> & ->).
  destruct (allFalsy b w h) eqn:E.
  - apply allFalsy_true in E. destruct E as (Eb & Ew & Eh).
    assert (A : forall v, (forall x, v = Some x -> ~ x == 0) -> AbsentOrZero v -> v = None).
    { intros v Hv [Hn|(x & Hx & H0)]; [exact Hn|]. exfalso. exact (Hv x Hx H0). }
    rewrite (A b Hb Eb), (A w Hw Ew), (A h Hh Eh). reflexivity.
  - destruct b, w, h; try reflexivity. discriminate E.
Qed.

Lemma truthy_bool_idem (t : option bool) :
  Js.truthy_bool (Some (Js.truthy_bool t)) = Js.truthy_bool t.
Proof. reflexivity. Qed.

Lemma bustEst_agrees (body : Body.t) : App.bustEst body = Api.bustEst body.
Proof. unfold App.bustEst, Api.bustEst. now rewrite normalized_agrees. Qed.

Lemma sizeOf_agrees (body : Body.t) : App.sizeOf body = Api.sizeOf body.
Proof.
  unfold App.sizeOf, Api.sizeOf, App.byHW, Api.byHW, App.byChart, Api.byChart.
  rewrite <- bustEst_agrees, <- normalized_agrees. f_equal.
  apply pick_agrees.
  - intros x. apply App_bustEst_nonzero.
  - intros x. apply measure_nonzero.
  - intros x. apply measure_nonzero.
Qed.

(** For every request the two centimetre handlers recommend the same size
    and the same coverage, and their advice texts are the same up to the
    closing sentence. *)
Theorem handlers_agree (body : Body.t) :
  App.sizeOf body = Api.sizeOf body /\
  App.coverageOf body = Api.coverageOf body /\
  exists text : string,
    App.notesOf body = text ++ adviceTailApp /\ Api.notesOf body = text ++ adviceTail.
Proof.
  pose proof (sizeOf_agrees body) as Hs.
  split; [exact Hs|]. split; [reflexivity|].
  exists (adviceHead (Api.sizeOf body) (Api.coverageOf body)
          ++ specClause (hintsOf (Body.tummy_control body) (Body.activity body)
                           (Body.modesty body) (Api.coverageOf body))).
  unfold App.notesOf, Api.notesOf, App.fitCopy, Api.fitCopy, adviceHead.
  cbn [Api.t Api.a Api.m]. rewrite !hintClause_spec, Hs.
  change (App.coverageOf body) with (Api.coverageOf body).
  unfold hintsOf at 3. rewrite truthy_bool_idem. fold (hintsOf (Body.tummy_control body)
    (Body.activity body) (Body.modesty body) (Api.coverageOf body)).
  split; now rewrite !append_assoc.
Qed.

(** ** A bust alone: the lookup as thresholds *)

Lemma Qle_bool_false (a b : Q) : Qle_bool a b = false -> b < a.
Proof.
  intro H. apply Qnot_le_lt. intro Hle. apply Qle_bool_iff in Hle. congruence.
Qed.

Ltac chart_red :=
  cbn [c_label c_score c_dist label bust waist hip fst snd
       Nat.ltb Nat.leb Nat.eqb andb orb negb].

Ltac abs_lra :=
  repeat match goal with
         | H : context [Qabs ?t] |- _ =>
             destruct (Qlt_le_dec 0 t);
             [rewrite (Qabs_pos t) in H by lra | rewrite (Qabs_neg t) in H by lra]
         end;
  lra.

(** Split on the next comparison of the loop and drop the side the
    bounds gathered so far exclude. *)
Ltac decide_le :=
  match goal with
  | |- context [Qle_bool ?a ?b] =>
      let E := fresh "E" in
      destruct (Qle_bool a b) eqn:E;
      [apply Qle_bool_iff in E | apply Qle_bool_false in E];
      try (exfalso; abs_lra)
  end.

Ltac eval_mid :=
  repeat match goal with
         | |- context [mid ?a ?b] =>
             let v := eval vm_compute in (mid a b) in change (mid a b) with v
         end.

Ltac run_chart :=
  cbn [fold_left];
  unfold chartStep, candOf, rowScore, rowDist, inRange, clampDist, replaces, incr,
    Js.lt, Js.le, labelOrNull, Js.truthy_str;
  cbv zeta; chart_red; eval_mid;
  repeat (decide_le; chart_red).

Ltac decide_thresholds :=
  repeat match goal with
         | |- context [Qlt_le_dec ?p ?q] => destruct (Qlt_le_dec p q); try (exfalso; lra)
         end.

Lemma Api_bust_only (x : Q) : Api.pickFromChart (Some x) None None = Some (bustOnlyCm x).
Proof.
  unfold Api.pickFromChart, chartLoop, SIZE_CHART. run_chart.
  all: unfold bustOnlyCm; decide_thresholds; reflexivity.
Qed.

Lemma App_bust_only (x : Q) :
  App.pickFromChart (Some x) None None = if Qeq_bool x 0 then None else Some (bustOnlyCm x).
Proof.
  destruct (pick_selected (Some x) None None) as (i & r & _ & Happ & Hapi).
  rewrite Api_bust_only in Hapi. cbn [allAbsent] in Hapi. rewrite <- Hapi in Happ.
  rewrite Happ. unfold allFalsy. cbn [Js.truthy_num negb andb].
  rewrite negb_involutive, !andb_true_r. reflexivity.
Qed.

Lemma bustOnlyCm_monotone (x y : Q) :
  x <= y -> (sizeRank (bustOnlyCm x) <= sizeRank (bustOnlyCm y))%nat.
Proof.
  intro H. unfold bustOnlyCm. decide_thresholds; cbn; lia.
Qed.

(** ** A row that fits is the row chosen *)

Lemma rowScore_le_present (b w h : option Q) (s : SizeRow) :
  (rowScore b w h s <= presentCount b w h)%nat.
Proof.
  unfold rowScore, presentCount, incr, inRange.
  destruct b, w, h;
    repeat match goal with
           | |- context [if ?c then _ else _] => destruct c
           end; cbn; lia.
Qed.

Lemma rowScore_fits (b w h : option Q) (s : SizeRow) :
  rowScore b w h s = presentCount b w h <-> FitsRow b w h s.
Proof.
  unfold rowScore, presentCount, incr, inRange, FitsRow, Js.le.
  assert (A : forall lo hi x : Q,
             (Qle_bool lo x && Qle_bool x hi = true) <-> lo <= x <= hi).
  { intros. now rewrite andb_true_iff, !Qle_bool_iff. }
  split.
  - intro H.
    destruct b as [x|], w as [y|], h as [z|];
      repeat match type of H with
             | context [if ?c then _ else _] => destruct c eqn:?
             end; cbn in H; try (exfalso; lia);
      (split; [|split]); intros q Hq; try discriminate Hq;
      injection Hq as <-; apply A; assumption.
  - intros (Hb & Hw & Hh).
    assert (Eb : forall x, b = Some x -> Qle_bool (fst (bust s)) x && Qle_bool x (snd (bust s)) = true)
      by (intros x E; apply A; now apply Hb).
    assert (Ew : forall x, w = Some x -> Qle_bool (fst (waist s)) x && Qle_bool x (snd (waist s)) = true)
      by (intros x E; apply A; now apply Hw).
    assert (Eh : forall x, h = Some x -> Qle_bool (fst (hip s)) x && Qle_bool x (snd (hip s)) = true)
      by (intros x E; apply A; now apply Hh).
    destruct b, w, h;
      rewrite ?(Eb _ eq_refl), ?(Ew _ eq_refl), ?(Eh _ eq_refl); reflexivity.
Qed.

(** The rows of the centimetre chart have disjoint ranges on every axis. *)
Lemma fits_one_row (b w h : option Q) (r r' : SizeRow) :
  In r SIZE_CHART -> In r' SIZE_CHART ->
  FitsRow b w h r -> FitsRow b w h r' ->
  allAbsent b w h = false -> r = r'.
Proof.
  intros Hr Hr' (Hb & Hw & Hh) (Hb' & Hw' & Hh') Hp.
  simpl in Hr, Hr'.
  destruct Hr as [<-|[<-|[<-|[<-|[<-|[]]]]]];
    destruct Hr' as [<-|[<-|[<-|[<-|[<-|[]]]]]];
    try reflexivity; exfalso;
    cbn [bust waist hip fst snd] in *;
    (destruct b as [x|];
       [pose proof (Hb x eq_refl); pose proof (Hb' x eq_refl); lra
       |destruct w as [y|];
          [pose proof (Hw y eq_refl); pose proof (Hw' y eq_refl); lra
          |destruct h as [z|];
             [pose proof (Hh z eq_refl); pose proof (Hh' z eq_refl); lra
             |discriminate]]]).
Qed.

Lemma fits_not_falsy (b w h : option Q) (r : SizeRow) :
  In r SIZE_CHART -> FitsRow b w h r -> allAbsent b w h = false ->
  allFalsy b w h = false.
Proof.
  intros Hr (Hb & Hw & Hh) Hp.
  destruct (allFalsy b w h) eqn:E; [|reflexivity]. exfalso.
  apply allFalsy_true in E. destruct E as (Eb & Ew & Eh).
  assert (P : forall (v : option Q) (lo hi : Q),
             0 < lo -> (forall x, v = Some x -> lo <= x <= hi) ->
             AbsentOrZero v -> v = None).
  { intros v lo hi Hlo Hv [Hn|(x & Hx & H0)]; [exact Hn|].
    pose proof (Hv x Hx). exfalso. lra. }
  assert (Lb : 0 < fst (bust r) /\ 0 < fst (waist r) /\ 0 < fst (hip r)).
  { simpl in Hr.
    destruct Hr as [<-|[<-|[<-|[<-|[<-|[]]]]]]; cbn; repeat split; reflexivity. }
  destruct Lb as (L1 & L2 & L3).
  rewrite (P b _ _ L1 Hb Eb), (P w _ _ L2 Hw Ew), (P h _ _ L3 Hh Eh) in Hp.
  discriminate.
Qed.

(** When every measurement given lies inside the ranges of one row of the
    centimetre chart, and at least one is given, both lookups return that
    row's label. *)
Theorem fitting_row_is_chosen (b w h : option Q) (r : SizeRow) :
  In r SIZE_CHART ->
  FitsRow b w h r ->
  allAbsent b w h = false ->
  App.pickFromChart b w h = Some (label r) /\ Api.pickFromChart b w h = Some (label r).
Proof.
  intros Hr Hfit Hp.
  destruct (chartLoop_selects b w h SIZE_CHART) as (i & r' & [Hi Hbest] & Hloop);
    [discriminate|].
  assert (Hr' : In r' SIZE_CHART) by (now apply nth_error_In in Hi).
  destruct (In_nth_error _ _ Hr) as (j & Hj).
  destruct (Hbest j r Hj) as (Hs & _).
  apply rowScore_fits in Hfit as Hsc.
  pose proof (rowScore_le_present b w h r') as Hle.
  assert (Hfit' : FitsRow b w h r') by (apply rowScore_fits; lia).
  assert (E : r = r') by (now apply (fits_one_row b w h)).
  subst r'.
  assert (Hlab : labelOrNull (chartLoop b w h SIZE_CHART) = Some (label r)).
  { rewrite Hloop. unfold labelOrNull. cbn [c_label candOf].
    now rewrite chart_labels_truthy. }
  rewrite App_pick_eq, Api_pick_eq, Hlab, Hp, (fits_not_falsy b w h r Hr Hfit Hp).
  split; reflexivity.
Qed.

Lemma fitting_row_is_chosen_witness :
  App.pickFromChart (Some 96) None (Some 103) = Some "L"
  /\ Api.pickFromChart (Some 96) None (Some 103) = Some "L".
Proof.
  apply (fitting_row_is_chosen (Some 96) None (Some 103)
           (mkRow "L" (95, 101) (79, 86) (102, 108))).
  - simpl. tauto.
  - unfold FitsRow. cbn [bust waist hip fst snd].
    split; [|split]; intros q Hq; try discriminate Hq;
      injection Hq as <-; split; discriminate.
  - reflexivity.
Defined.

(** ** The bra string *)

Lemma digitVal_range (c : ascii) : isDigit c = true -> (0 <= digitVal c <= 9)%Z.
Proof.
  unfold isDigit, between, digitVal. cbv zeta.
  rewrite andb_true_iff, !Nat.leb_le. lia.
Qed.

(** [parseBra] yields a band and a cup together or neither; the band is a
    whole number from 0 to 99, the cup a non-empty run of capital
    letters. *)
Theorem parseBra_shape (bra : option string) (band : option Q) (cup : option string) :
  parseBra bra = (band, cup) ->
  (band = None /\ cup = None) \/
  exists (n : Z) (c : string),
    band = Some (inject_Z n) /\ cup = Some c /\
    (0 <= n <= 99)%Z /\ c <> "" /\ str_forallb isUpper c = true.
Proof.
  unfold parseBra. destruct bra as [s|]; [|intros [= <- <-]; now left].
  destruct (negb (Js.truthy_str (Some s))); [intros [= <- <-]; now left|].
  destruct (matchBra (toUpperCase (stripSpaces s))) as [[m1 m2]|] eqn:E;
    [|intros [= <- <-]; now left].
  intros [= <- <-]. right.
  apply matchBra_Some in E.
  destruct E as (d1 & d2 & _ & H1 & H2 & Hne & Hup & Hband).
  exists (parseInt10 m1), m2. repeat split; try assumption;
    apply digitVal_range in H1; apply digitVal_range in H2; lia.
Qed.

Lemma parseBra_shape_witness :
  (Some (inject_Z 34) = None /\ Some "DD" = (None : option string)) \/
  exists (n : Z) (c : string),
    Some (inject_Z 34) = Some (inject_Z n) /\ Some "DD" = Some c /\
    (0 <= n <= 99)%Z /\ c <> "" /\ str_forallb isUpper c = true.
Proof.
  apply (parseBra_shape (Some "34 dd")). reflexivity.
Defined.

Lemma upcase_not_space (c : ascii) : isSpace (upcase c) = isSpace c.
Proof. destruct c as [[] [] [] [] [] [] [] []]; reflexivity. Qed.

Lemma upcase_idem (c : ascii) : upcase (upcase c) = upcase c.
Proof. destruct c as [[] [] [] [] [] [] [] []]; reflexivity. Qed.

Lemma stripSpaces_toUpperCase (s : string) :
  stripSpaces (toUpperCase s) = toUpperCase (stripSpaces s).
Proof.
  unfold stripSpaces, toUpperCase.
  induction s as [|c s IH]; [reflexivity|].
  cbn [str_map str_filter]. rewrite upcase_not_space.
  destruct (negb (isSpace c)); cbn [str_map]; now rewrite IH.
Qed.

Lemma stripSpaces_idem (s : string) : stripSpaces (stripSpaces s) = stripSpaces s.
Proof.
  unfold stripSpaces. induction s as [|c s IH]; [reflexivity|].
  cbn [str_filter]. destruct (negb (isSpace c)) eqn:E; [|exact IH].
  cbn [str_filter]. now rewrite E, IH.
Qed.

Lemma toUpperCase_idem (s : string) : toUpperCase (toUpperCase s) = toUpperCase s.
Proof.
  unfold toUpperCase. induction s as [|c s IH]; [reflexivity|].
  cbn [str_map]. now rewrite upcase_idem, IH.
Qed.

Lemma cleanBra_idem (s : string) : cleanBra (cleanBra s) = cleanBra s.
Proof.
  unfold cleanBra.
  now rewrite stripSpaces_toUpperCase, stripSpaces_idem, toUpperCase_idem.
Qed.

Lemma parseBra_by_clean (s : string) :
  parseBra (Some s)
  = match matchBra (cleanBra s) with
    | None => (None, None)
    | Some (m1, m2) => (Some (inject_Z (parseInt10 m1)), Some m2)
    end.
Proof.
  unfold parseBra, cleanBra. destruct s as [|c s]; reflexivity.
Qed.

(** [parseBra] reads a bra string up to whitespace and letter case: two
    strings with the same stripped, uppercased form parse alike, and that
    form parses as the string itself. *)
Theorem parseBra_ignores_case_and_spaces (s s' : string) :
  parseBra (Some (cleanBra s)) = parseBra (Some s) /\
  (cleanBra s = cleanBra s' -> parseBra (Some s) = parseBra (Some s')).
Proof.
  rewrite !parseBra_by_clean, cleanBra_idem. split; [reflexivity|].
  now intros ->.
Qed.

Lemma parseBra_ignores_case_and_spaces_witness :
  parseBra (Some " 36 c") = parseBra (Some "36C").
Proof.
  apply (proj2 (parseBra_ignores_case_and_spaces " 36 c" "36C")). reflexivity.
Defined.

(** ** Bust and bra in the handlers *)

Lemma estimateBust_measured (bust_cm band : option Q) (cup : option string) :
  Js.truthy_num bust_cm = true -> estimateBust bust_cm band cup = bust_cm.
Proof. intro H. unfold estimateBust. now rewrite H. Qed.

Lemma bust_cm_truthy (unit : string) (body : Body.t) :
  Js.truthy_num (Body.bust body) = true ->
  Js.truthy_num (bust_cm (normalize unit body)) = true.
Proof.
  intro H. apply truthy_num_true in H. destruct H as (x & Hx & Hnz).
  cbn [bust_cm normalize]. rewrite Hx, normField_nonzero by assumption.
  apply truthy_num_true. eexists. split; [reflexivity|].
  destruct (String.eqb unit "imperial"); [now apply inToCm_nonzero|assumption].
Qed.

(** A measured bust (present and not zero) takes precedence: the size the
    centimetre handlers give is then the same whatever the bra string is.
    In the inch-based handler the bra string never reaches the size. *)
Theorem bra_used_only_without_bust (body : Body.t) (ibody : InchBody.t)
    (bra bra' : option string) :
  (Js.truthy_num (Body.bust body) = true ->
   App.sizeOf (bodyWithBra body bra) = App.sizeOf (bodyWithBra body bra') /\
   Api.sizeOf (bodyWithBra body bra) = Api.sizeOf (bodyWithBra body bra')) /\
  Inch.sizeOf (InchBody.withBra ibody bra) = Inch.sizeOf ibody.
Proof.
  split; [|reflexivity].
  intro H.
  assert (E : forall b, App.sizeOf (bodyWithBra body b) = App.sizeOf body).
  { intro b. unfold App.sizeOf, App.byChart, App.byHW, App.bustEst.
    change (App.normalized (bodyWithBra body b)) with (App.normalized body).
    destruct (parseBra (Body.bra (bodyWithBra body b))) as [band cup].
    destruct (parseBra (Body.bra body)) as [band0 cup0].
    now rewrite !estimateBust_measured by (now apply bust_cm_truthy). }
  split.
  - now rewrite !E.
  - now rewrite <- !sizeOf_agrees, !E.
Qed.

Lemma bra_used_only_without_bust_witness :
  App.sizeOf (bodyWithBra (Body.withBust Body.empty (Some 90)) (Some "36C"))
  = App.sizeOf (bodyWithBra (Body.withBust Body.empty (Some 90)) None)
  /\ Api.sizeOf (bodyWithBra (Body.withBust Body.empty (Some 90)) (Some "36C"))
     = Api.sizeOf (bodyWithBra (Body.withBust Body.empty (Some 90)) None).
Proof.
  apply (proj1 (bra_used_only_without_bust (Body.withBust Body.empty (Some 90))
                  (InchBody.mk None None None None None Body.empty) (Some "36C") None)).
  reflexivity.
Defined.

Lemma bustOnlyCm_truthy (x : Q) : Js.truthy_str (Some (bustOnlyCm x)) = true.
Proof. unfold bustOnlyCm. decide_thresholds; reflexivity. Qed.

Lemma pattern_band_nonneg (s : string) (band : Z) (cup : string) :
  BraPattern s band cup -> (0 <= band)%Z.
Proof.
  intros (d1 & d2 & _ & H1 & H2 & _ & _ & ->).
  apply digitVal_range in H1. apply digitVal_range in H2. lia.
Qed.

Lemma estimate_increases (band band' : Z) (inc : Q) :
  (band <= band')%Z -> inject_Z band * 2.54 + inc * 2.54 <= inject_Z band' * 2.54 + inc * 2.54.
Proof.
  intro H. rewrite Zle_Qle in H. lra.
Qed.

(** A request that carries a bra string and no bust, waist or hip is sized
    by the bust thresholds applied to the estimate band * 2.54 + cup
    increment * 2.54, whatever height and weight say; with the cup fixed, a
    larger band never gives a smaller size. *)
Theorem bra_only_size (body : Body.t) (bra : string) (band band' : Z) (cup : string) :
  Body.bra body = Some bra ->
  Body.bust body = None -> Body.waist body = None -> Body.hip body = None ->
  BraPattern (cleanBra bra) band cup ->
  band <> 0%Z ->
  App.sizeOf body = bustOnlyCm (inject_Z band * 2.54 + specCupIncrement cup * 2.54) /\
  Api.sizeOf body = bustOnlyCm (inject_Z band * 2.54 + specCupIncrement cup * 2.54) /\
  ((band <= band')%Z ->
   (sizeRank (bustOnlyCm (inject_Z band * 2.54 + specCupIncrement cup * 2.54))
    <= sizeRank (bustOnlyCm (inject_Z band' * 2.54 + specCupIncrement cup * 2.54)))%nat).
Proof.
  intros Hbra Hb Hw Hh Hp Hband.
  set (est := inject_Z band * 2.54 + specCupIncrement cup * 2.54).
  assert (Hest : App.bustEst body = Some est).
  { unfold App.bustEst, App.normalized. cbn [bust_cm normalize].
    rewrite Hbra, (parseBra_pattern _ _ _ Hp), Hb, normField_None.
    unfold estimateBust.
    rewrite (truthy_band band Hband), (truthy_cup _ _ _ Hp).
    cbn [Js.truthy_num negb andb]. rewrite cupIncrement_spec. reflexivity. }
  assert (Hnz : Qeq_bool est 0 = false).
  { destruct (Qeq_bool est 0) eqn:E; [|reflexivity].
    apply Qeq_bool_iff in E. exfalso.
    pose proof (pattern_band_nonneg _ _ _ Hp) as H0. rewrite Zle_Qle in H0.
    pose proof (cupIncrement_pos cup) as H1. rewrite cupIncrement_spec in H1.
    unfold est in E. change (inject_Z 0) with 0 in H0. lra. }
  assert (Hs : App.sizeOf body = bustOnlyCm est).
  { unfold App.sizeOf, App.byChart, App.normalized. rewrite Hest.
    cbn [waist_cm hip_cm normalize]. rewrite Hw, Hh, !normField_None.
    rewrite App_bust_only, Hnz. apply sizeOr_chart, bustOnlyCm_truthy. }
  split; [exact Hs|]. split; [now rewrite <- sizeOf_agrees|].
  intro Hle. apply bustOnlyCm_monotone. now apply estimate_increases.
Qed.

Lemma bra_only_size_witness :
  App.sizeOf (bodyBra "34B") = bustOnlyCm (inject_Z 34 * 2.54 + specCupIncrement "B" * 2.54)
  /\ (sizeRank (bustOnlyCm (inject_Z 34 * 2.54 + specCupIncrement "B" * 2.54))
      <= sizeRank (bustOnlyCm (inject_Z 38 * 2.54 + specCupIncrement "B" * 2.54)))%nat.
Proof.
  destruct (bra_only_size (bodyBra "34B") "34B" 34 38 "B") as (H1 & _ & H2);
    try reflexivity.
  - exists "3"%char, "4"%char. repeat split. discriminate.
  - discriminate.
  - split; [exact H1|apply H2; discriminate].
Defined.

(** ** Where each coverage comes from *)

Ltac str_facts :=
  repeat match goal with
         | H : Js.str_is ?v ?l = true |- _ => apply str_is_true in H
         | H : Js.str_is ?v ?l = false |- _ =>
             assert (v <> Some l)
               by (let X := fresh in intro X; apply str_is_true in X; congruence);
             clear H
         end.

Ltac coverage_case :=
  cbn [orb andb]; str_facts;
  intuition (try discriminate; try congruence).

(** "one-piece" is answered exactly when no preference rule applies, the
    activity is "swim_class" or "aqua_fitness" and modesty is neither
    "high" nor "medium"; "burkini" exactly when it is the preference, or no
    preference rule applies and modesty is "high".  So with modesty "high"
    the answer is never "one-piece". *)
Theorem coverage_origins (a m : option string) (t : option bool) (p : option string) :
  (chooseCoverage a m t p = "one-piece" <->
   isOneOf p ["burkini"; "swimdress"; "rashguard"] = false /\
   (a = Some "swim_class" \/ a = Some "aqua_fitness") /\
   m <> Some "high" /\ m <> Some "medium") /\
  (chooseCoverage a m t p = "burkini" <->
   p = Some "burkini" \/
   (isOneOf p ["burkini"; "swimdress"; "rashguard"] = false /\ m = Some "high")) /\
  (m = Some "high" -> chooseCoverage a m t p <> "one-piece").
Proof.
  unfold chooseCoverage, isOneOf. cbn [existsb].
  destruct (Js.str_is p "burkini") eqn:P1; [coverage_case|].
  destruct (Js.str_is p "swimdress") eqn:P2; [coverage_case|].
  destruct (Js.str_is p "rashguard") eqn:P3; [coverage_case|].
  destruct (Js.str_is m "high") eqn:M1; [coverage_case|].
  destruct (Js.str_is a "swim_class") eqn:A1, (Js.str_is a "aqua_fitness") eqn:A2,
    (Js.str_is m "medium") eqn:M2, (Js.truthy_bool t); coverage_case.
Qed.

Lemma coverage_origins_witness :
  chooseCoverage (Some "swim_class") (Some "high") None (Some "onepiece") <> "one-piece".
Proof.
  apply (proj2 (proj2 (coverage_origins (Some "swim_class") (Some "high") None
                         (Some "onepiece")))).
  reflexivity.
Defined.

(** ** The inch-based handler *)

Lemma resolve_None (imp : bool) (conv same : Q -> Q) (explicit legacy : option Q) :
  Inch.resolve imp conv same explicit legacy = None <-> explicit = None /\ legacy = None.
Proof.
  unfold Inch.resolve. destruct explicit, legacy; split; try discriminate; try tauto;
    intros [H1 H2]; discriminate.
Qed.

(** In the inch-based handler the chart lookup gives no label exactly when
    bust, waist and hip are absent both as explicit and as older fields; a
    measurement given as zero counts as given.  In every other case the
    size is the label of a chart row, whatever height and weight are. *)
Theorem inch_lookup_total (body : InchBody.t) :
  (Inch.byChart body = None <->
   (InchBody.bust_in body = None /\ Body.bust (InchBody.legacy body) = None) /\
   (InchBody.waist_in body = None /\ Body.waist (InchBody.legacy body) = None) /\
   (InchBody.hip_in body = None /\ Body.hip (InchBody.legacy body) = None)) /\
  (Inch.byChart body <> None ->
   exists r, In r Inch.SIZE_CHART /\ Inch.byChart body = Some (label r)
             /\ Inch.sizeOf body = label r).
Proof.
  unfold Inch.sizeOf, Inch.byChart.
  destruct (Inch_pick_eq (Inch.finalBustIn body) (Inch.finalWaistIn body)
              (Inch.finalHipIn body)) as (r & Hin & ->).
  assert (A : allAbsent (Inch.finalBustIn body) (Inch.finalWaistIn body)
                (Inch.finalHipIn body) = true <->
              (InchBody.bust_in body = None /\ Body.bust (InchBody.legacy body) = None) /\
              (InchBody.waist_in body = None /\ Body.waist (InchBody.legacy body) = None) /\
              (InchBody.hip_in body = None /\ Body.hip (InchBody.legacy body) = None)).
  { rewrite allAbsent_true. unfold Inch.finalBustIn, Inch.finalWaistIn, Inch.finalHipIn.
    rewrite !resolve_None. tauto. }
  destruct (allAbsent _ _ _).
  - split; [tauto|congruence].
  - split.
    + split; [discriminate|]. intro H. apply A in H. discriminate H.
    + intros _. exists r. repeat split; try assumption.
      apply sizeOr_chart. now apply inch_labels_truthy.
Qed.

Lemma inch_lookup_total_witness :
  exists r, In r Inch.SIZE_CHART
    /\ Inch.byChart (InchBody.mk (Some 0) None None (Some 165) (Some 90) Body.empty)
       = Some (label r)
    /\ Inch.sizeOf (InchBody.mk (Some 0) None None (Some 165) (Some 90) Body.empty)
       = label r.
Proof.
  apply (proj2 (inch_lookup_total
                  (InchBody.mk (Some 0) None None (Some 165) (Some 90) Body.empty))).
  vm_compute. discriminate.
Defined.

(** ** The lazily created client *)

Lemma getSB_unconfigured (env : Env) (createClient : string -> string -> Outcome SupabaseClient)
    (st : option SupabaseClient) :
  Api.configured env = false -> Inch.getSB env createClient st = (Returned None, st).
Proof.
  unfold Api.configured, Inch.getSB.
  destruct (NEXT_PUBLIC_SUPABASE_URL env) as [url|], (SUPABASE_SERVICE_ROLE env) as [key|];
    try reflexivity.
  intro H. apply andb_false_iff in H.
  destruct H as [H|H]; rewrite H; cbn [negb orb]; [reflexivity|].
  now rewrite orb_true_r.
Qed.

Lemma getSB_configured (env : Env) (createClient : string -> string -> Outcome SupabaseClient)
    (st : option SupabaseClient) :
  Api.configured env = true ->
  exists url key,
    NEXT_PUBLIC_SUPABASE_URL env = Some url /\ SUPABASE_SERVICE_ROLE env = Some key /\
    Inch.getSB env createClient st
    = match st with
      | Some c => (Returned (Some c), st)
      | None =>
          match createClient url key with
          | Returned c => (Returned (Some c), Some c)
          | Thrown e => (Thrown e, None)
          end
      end.
Proof.
  unfold Api.configured, Inch.getSB.
  destruct (NEXT_PUBLIC_SUPABASE_URL env) as [url|]; [|discriminate].
  destruct (SUPABASE_SERVICE_ROLE env) as [key|];
    [|cbn [Js.truthy_str]; rewrite andb_false_r; discriminate].
  intro H. apply andb_true_iff in H. destruct H as [H1 H2].
  exists url, key. rewrite H1, H2. cbn [negb orb]. auto.
Qed.

(** [getSB] answers null whenever either environment variable is unset or
    empty, even with a handle already made; otherwise it answers the handle
    it holds, and makes one from the current credentials only when it holds
    none.  So the handle of the first successful call is the one every later
    call returns, whatever the credentials have become; and when
    [createClient] throws nothing is kept, so the next call tries again. *)
Theorem getSB_keeps_first_client (env env' : Env)
    (createClient createClient' : string -> string -> Outcome SupabaseClient)
    (st : option SupabaseClient) (url key e : string) (c : SupabaseClient) :
  (Api.configured env = false -> Inch.getSB env createClient st = (Returned None, st)) /\
  (Api.configured env = true ->
   Inch.getSB env createClient (Some c) = (Returned (Some c), Some c)) /\
  (Api.configured env = true -> Api.configured env' = true ->
   NEXT_PUBLIC_SUPABASE_URL env = Some url -> SUPABASE_SERVICE_ROLE env = Some key ->
   createClient url key = Returned c ->
   Inch.getSB env createClient None = (Returned (Some c), Some c) /\
   Inch.getSB env' createClient' (snd (Inch.getSB env createClient None))
   = (Returned (Some c), Some c)) /\
  (Api.configured env = true ->
   NEXT_PUBLIC_SUPABASE_URL env = Some url -> SUPABASE_SERVICE_ROLE env = Some key ->
   createClient url key = Thrown e ->
   Inch.getSB env createClient None = (Thrown e, None)).
Proof.
  split; [apply getSB_unconfigured|].
  split.
  { intro H. destruct (getSB_configured env createClient (Some c) H) as (u & k & _ & _ & E).
    exact E. }
  split.
  - intros H H' Hu Hk Hc.
    destruct (getSB_configured env createClient None H) as (u & k & Eu & Ek & E).
    assert (u = url) by congruence. assert (k = key) by congruence. subst u k.
    rewrite Hc in E. rewrite E. split; [reflexivity|]. cbn [snd].
    destruct (getSB_configured env' createClient' (Some c) H') as (u' & k' & _ & _ & E').
    exact E'.
  - intros H Hu Hk Hc.
    destruct (getSB_configured env createClient None H) as (u & k & Eu & Ek & E).
    assert (u = url) by congruence. assert (k = key) by congruence. subst u k.
    now rewrite Hc in E.
Qed.

Lemma getSB_keeps_first_client_witness :
  Inch.getSB (mkEnv (Some "https://b.example") (Some "k2"))
    (fun _ _ => Thrown "unused")
    (snd (Inch.getSB (mkEnv (Some "https://a.example") (Some "k1"))
            (fun u k => Returned (mkClient u k)) None))
  = (Returned (Some (mkClient "https://a.example" "k1")),
     Some (mkClient "https://a.example" "k1")).
Proof.
  destruct (getSB_keeps_first_client
              (mkEnv (Some "https://a.example") (Some "k1"))
              (mkEnv (Some "https://b.example") (Some "k2"))
              (fun u k => Returned (mkClient u k)) (fun _ _ => Thrown "unused")
              None "https://a.example" "k1" "" (mkClient "https://a.example" "k1"))
    as (_ & _ & H & _).
  apply H; reflexivity.
Defined.

(** ** What the inch-based handler answers *)

Lemma Inch_POST_eq (env : Env) (createClient : string -> string -> Outcome SupabaseClient)
    (insert : SupabaseClient -> Sink) (st : option SupabaseClient) (body : InchBody.t) :
  Inch.POST env createClient insert st (Returned body)
  = (match fst (Inch.getSB env createClient st) with
     | Thrown e => Inch.Failure 400 e
     | Returned None =>
         Inch.Recommendation (Inch.sizeOf body) (Inch.coverageOf body)
           (Inch.notesOf body) (Inch.debugOf body)
     | Returned (Some c) =>
         match insert c (Inch.rowFor body) with
         | Returned _ =>
             Inch.Recommendation (Inch.sizeOf body) (Inch.coverageOf body)
               (Inch.notesOf body) (Inch.debugOf body)
         | Thrown e => Inch.Failure 400 e
         end
     end,
     snd (Inch.getSB env createClient st)).
Proof.
  unfold Inch.POST, try_catch, bind.
  destruct (Inch.getSB env createClient st) as [[[c|]|e] st']; cbn [fst snd];
    try reflexivity.
  now destruct (insert c (Inch.rowFor body)).
Qed.

(** The inch-based handler answers the recommendation, with the resolved
    measurements as debug data, whenever logging is not configured (nothing
    is created or written) and whenever the insert returns, be it through
    the handle the module holds or through the one this request creates;
    it answers status 400 when the body does not parse, when the insert
    throws, and when creating the client throws, in which case no handle
    is kept.  A handle this request creates is kept whatever its insert
    does. *)
Theorem inch_post_outcomes (env : Env)
    (createClient : string -> string -> Outcome SupabaseClient)
    (insert : SupabaseClient -> Sink) (st : option SupabaseClient) (body : InchBody.t)
    (c : SupabaseClient) (r : InsertResult) (url key e : string) :
  (Inch.POST env createClient insert st (Thrown e) = (Inch.Failure 400 e, st)) /\
  (Api.configured env = false ->
   Inch.POST env createClient insert st (Returned body)
   = (Inch.Recommendation (Inch.sizeOf body) (Inch.coverageOf body) (Inch.notesOf body)
        (Inch.debugOf body), st)) /\
  (Api.configured env = true -> insert c (Inch.rowFor body) = Returned r ->
   Inch.POST env createClient insert (Some c) (Returned body)
   = (Inch.Recommendation (Inch.sizeOf body) (Inch.coverageOf body) (Inch.notesOf body)
        (Inch.debugOf body), Some c)) /\
  (Api.configured env = true -> insert c (Inch.rowFor body) = Thrown e ->
   Inch.POST env createClient insert (Some c) (Returned body)
   = (Inch.Failure 400 e, Some c)) /\
  (Api.configured env = true ->
   NEXT_PUBLIC_SUPABASE_URL env = Some url -> SUPABASE_SERVICE_ROLE env = Some key ->
   createClient url key = Thrown e ->
   Inch.POST env createClient insert None (Returned body) = (Inch.Failure 400 e, None)) /\
  (Api.configured env = true ->
   NEXT_PUBLIC_SUPABASE_URL env = Some url -> SUPABASE_SERVICE_ROLE env = Some key ->
   createClient url key = Returned c -> insert c (Inch.rowFor body) = Returned r ->
   Inch.POST env createClient insert None (Returned body)
   = (Inch.Recommendation (Inch.sizeOf body) (Inch.coverageOf body) (Inch.notesOf body)
        (Inch.debugOf body), Some c)) /\
  (Api.configured env = true ->
   NEXT_PUBLIC_SUPABASE_URL env = Some url -> SUPABASE_SERVICE_ROLE env = Some key ->
   createClient url key = Returned c -> insert c (Inch.rowFor body) = Thrown e ->
   Inch.POST env createClient insert None (Returned body) = (Inch.Failure 400 e, Some c)).
Proof.
  split; [reflexivity|].
  rewrite !Inch_POST_eq.
  split; [intro H; now rewrite getSB_unconfigured|].
  split.
  { intros H Hi.
    destruct (getSB_configured env createClient (Some c) H) as (u & k & _ & _ & ->).
    cbn [fst snd]. now rewrite Hi. }
  split.
  { intros H Hi.
    destruct (getSB_configured env createClient (Some c) H) as (u & k & _ & _ & ->).
    cbn [fst snd]. now rewrite Hi. }
  assert (G : Api.configured env = true ->
              NEXT_PUBLIC_SUPABASE_URL env = Some url -> SUPABASE_SERVICE_ROLE env = Some key ->
              Inch.getSB env createClient None
              = match createClient url key with
                | Returned c' => (Returned (Some c'), Some c')
                | Thrown e' => (Thrown e', None)
                end).
  { intros H Hu Hk.
    destruct (getSB_configured env createClient None H) as (u & k & Eu & Ek & ->).
    assert (u = url) by congruence. assert (k = key) by congruence. now subst u k. }
  split; [|split].
  - intros H Hu Hk Hc. rewrite (G H Hu Hk), Hc. reflexivity.
  - intros H Hu Hk Hc Hi. rewrite (G H Hu Hk), Hc. cbn [fst snd]. now rewrite Hi.
  - intros H Hu Hk Hc Hi. rewrite (G H Hu Hk), Hc. cbn [fst snd]. now rewrite Hi.
Qed.

Lemma inch_post_outcomes_witness :
  Inch.POST (mkEnv None None) (fun _ _ => Thrown "unused") (fun _ _ => Thrown "unused")
    None (Returned (InchBody.mk (Some 35) None None None None Body.empty))
  = (Inch.Recommendation "M" "knee length"
       (Inch.notesOf (InchBody.mk (Some 35) None None None None Body.empty))
       (Inch.debugOf (InchBody.mk (Some 35) None None None None Body.empty)), None)
  /\ Inch.POST (mkEnv (Some "https://a.example") (Some "k1"))
       (fun _ _ => Thrown "Invalid URL") (fun _ _ => Thrown "unused")
       None (Returned (InchBody.mk (Some 35) None None None None Body.empty))
     = (Inch.Failure 400 "Invalid URL", None)
  /\ Inch.POST (mkEnv (Some "https://a.example") (Some "k1"))
       (fun u k => Returned (mkClient u k)) (fun _ _ => Returned (mkInsertResult None))
       None (Returned (InchBody.mk (Some 35) None None None None Body.empty))
     = (Inch.Recommendation "M" "knee length"
          (Inch.notesOf (InchBody.mk (Some 35) None None None None Body.empty))
          (Inch.debugOf (InchBody.mk (Some 35) None None None None Body.empty)),
        Some (mkClient "https://a.example" "k1")).
Proof.
  destruct (inch_post_outcomes (mkEnv None None) (fun _ _ => Thrown "unused")
              (fun _ _ => Thrown "unused") None
              (InchBody.mk (Some 35) None None None None Body.empty)
              (mkClient "" "") (mkInsertResult None) "" "" "")
    as (_ & H1 & _).
  destruct (inch_post_outcomes (mkEnv (Some "https://a.example") (Some "k1"))
              (fun _ _ => Thrown "Invalid URL") (fun _ _ => Thrown "unused") None
              (InchBody.mk (Some 35) None None None None Body.empty)
              (mkClient "" "") (mkInsertResult None) "https://a.example" "k1"
              "Invalid URL")
    as (_ & _ & _ & _ & H2 & _).
  destruct (inch_post_outcomes (mkEnv (Some "https://a.example") (Some "k1"))
              (fun u k => Returned (mkClient u k))
              (fun _ _ => Returned (mkInsertResult None)) None
              (InchBody.mk (Some 35) None None None None Body.empty)
              (mkClient "https://a.example" "k1") (mkInsertResult None)
              "https://a.example" "k1" "")
    as (_ & _ & _ & _ & _ & H3 & _).
  split; [apply H1; reflexivity|]. split; [apply H2; reflexivity|apply H3; reflexivity].
Defined.

(** ** Units *)

Lemma scaled_zero_test (x k : Q) : ~ k == 0 -> Qeq_bool (x * k) 0 = Qeq_bool x 0.
Proof.
  intro Hk. destruct (Qeq_bool x 0) eqn:E.
  - apply Qeq_bool_iff in E. apply Qeq_eq_bool. rewrite E. ring.
  - apply Qeq_bool_neq in E. destruct (Qeq_bool (x * k) 0) eqn:E'; [|reflexivity].
    apply Qeq_bool_iff in E'. exfalso.
    apply Qmult_integral in E'. tauto.
Qed.

Lemma normField_restated (c1 c2 same conv : Q -> Q) (k : Q) (v : option Q) :
  ~ k == 0 ->
  (forall x, conv x = same (x * k)) ->
  normField "metric" c1 same (option_map (fun x => x * k) v)
  = normField "imperial" conv c2 v.
Proof.
  intros Hk Hc. destruct v as [x|]; [|reflexivity].
  unfold normField. cbn [option_map Js.truthy_num].
  rewrite (scaled_zero_test x k Hk), Hc. reflexivity.
Qed.

(** Units are handled consistently: an imperial request and the same
    request restated in metric units (inches times 2.54, pounds times
    0.453592) normalise alike in both centimetre handlers, and so get the
    same size. *)
Theorem imperial_as_metric (body : Body.t) :
  Body.unit body = Some "imperial" ->
  App.normalized (toMetric body) = App.normalized body /\
  Api.normalized (toMetric body) = Api.normalized body /\
  App.sizeOf (toMetric body) = App.sizeOf body /\
  Api.sizeOf (toMetric body) = Api.sizeOf body.
Proof.
  intro Hu.
  assert (Hk : ~ 2.54 == 0) by discriminate.
  assert (Hp : ~ 0.453592 == 0) by discriminate.
  assert (E : App.normalized (toMetric body) = App.normalized body).
  { unfold App.normalized, App.unitOf, normalize. rewrite Hu.
    cbn [toMetric Body.unit Body.height Body.weight Body.bust Body.waist Body.hip
         Js.or_str Js.truthy_str].
    f_equal.
    - now apply (normField_restated _ _ _ _ 2.54).
    - now apply (normField_restated _ _ _ _ 0.453592).
    - now apply (normField_restated _ _ _ _ 2.54).
    - now apply (normField_restated _ _ _ _ 2.54).
    - now apply (normField_restated _ _ _ _ 2.54). }
  assert (E' : Api.normalized (toMetric body) = Api.normalized body)
    by (now rewrite <- !normalized_agrees).
  assert (Es : App.sizeOf (toMetric body) = App.sizeOf body).
  { unfold App.sizeOf, App.byChart, App.byHW, App.bustEst. rewrite E. reflexivity. }
  repeat split; try assumption. now rewrite <- !sizeOf_agrees.
Qed.

Lemma imperial_as_metric_witness :
  App.sizeOf (toMetric (Body.mk None None (Some "imperial") (Some 65) (Some 150)
                          (Some 36) None None None None None None None))
  = App.sizeOf (Body.mk None None (Some "imperial") (Some 65) (Some 150)
                  (Some 36) None None None None None None None).
Proof.
  apply (imperial_as_metric (Body.mk None None (Some "imperial") (Some 65) (Some 150)
                               (Some 36) None None None None None None None)).
  reflexivity.
Defined.

(** ** Coverage and advice together *)

Lemma coverage_burkini_iff (a m : option string) (t : option bool) (p : option string) :
  chooseCoverage a m t p = "burkini" \/ m = Some "high"
  <-> p = Some "burkini" \/ m = Some "high".
Proof.
  unfold chooseCoverage.
  destruct (Js.str_is p "burkini") eqn:P1; [coverage_case|].
  destruct (Js.str_is p "swimdress") eqn:P2; [coverage_case|].
  destruct (Js.str_is p "rashguard") eqn:P3; [coverage_case|].
  destruct (Js.str_is m "high") eqn:M1; [coverage_case|].
  destruct (Js.str_is a "swim_class") eqn:A1, (Js.str_is a "aqua_fitness") eqn:A2,
    (Js.str_is m "medium") eqn:M2, (Js.truthy_bool t); coverage_case.
Qed.

(** In a handler's advice the hint "full coverage" appears exactly when
    modesty is "high" or the style preference is "burkini": the coverage
    rule and the hint rule together reduce to that test.  The hints of the
    two centimetre handlers are the same. *)
Theorem full_coverage_hint (body : Body.t) :
  (In "full coverage"
      (hintsOf (Body.tummy_control body) (Body.activity body) (Body.modesty body)
         (App.coverageOf body))
   <-> Body.modesty body = Some "high" \/ Body.style_preference body = Some "burkini") /\
  hintsOf (Some (Js.truthy_bool (Body.tummy_control body))) (Body.activity body)
    (Body.modesty body) (Api.coverageOf body)
  = hintsOf (Body.tummy_control body) (Body.activity body) (Body.modesty body)
      (App.coverageOf body).
Proof.
  split; [|reflexivity].
  destruct (hintsOf_spec (Body.tummy_control body) (Body.activity body)
              (Body.modesty body) (App.coverageOf body)) as (_ & _ & H & _).
  rewrite H. unfold App.coverageOf.
  pose proof (coverage_burkini_iff (Body.activity body) (Body.modesty body)
                (Some (Js.truthy_bool (Body.tummy_control body)))
                (Body.style_preference body)).
  tauto.
Qed.

(** * Rounding of doubles

    The library specifies each operation on doubles by a function on
    [spec_float]: the exact result, an integer mantissa with an exponent,
    is rounded to nearest even by [binary_round_aux].  This part bounds
    the error of that rounding for the products and quotients the unit
    conversions make, and gives the signs of the sums, differences and
    products the chart distances are made of. *)

Section Rounding.
Local Open Scope Z_scope.

(** Case analysis on the comparisons of mantissas and exponents. *)
Ltac cmp_cases :=
  repeat match goal with
  | H : context [Pos.compare_cont Eq ?a ?b] |- _ =>
      change (Pos.compare_cont Eq a b) with (Pos.compare a b) in H
  | |- context [Pos.compare_cont Eq ?a ?b] =>
      change (Pos.compare_cont Eq a b) with (Pos.compare a b)
  end;
  repeat match goal with
  | H : context [Z.compare ?a ?b] |- _ => destruct (Z.compare_spec a b); simpl in H
  | H : context [Pos.compare ?a ?b] |- _ => destruct (Pos.compare_spec a b); simpl in H
  | |- context [Z.compare ?a ?b] => destruct (Z.compare_spec a b); simpl
  | |- context [Pos.compare ?a ?b] => destruct (Pos.compare_spec a b); simpl
  end;
  subst; try discriminate; try reflexivity; try lia.

(** What is below [b] is below what is not below [b]. *)
Lemma SFcompare_lt_le_trans (c b a : spec_float) (x : comparison) :
  SFcompare c b = Some Lt -> SFcompare a b = Some x -> x <> Lt ->
  SFcompare c a = Some Lt.
Proof.
  destruct c as [sc|sc| |sc mc ec], b as [sb|sb| |sb mb eb], a as [sa|sa| |sa ma ea];
    simpl; intros H1 H2 H3;
    try discriminate;
    repeat match goal with s : bool |- _ => destruct s end; simpl in *;
    try discriminate; try reflexivity;
    try (injection H2 as <-; congruence);
    try (injection H1 as H1); try (injection H2 as H2);
    try (f_equal); cmp_cases; try congruence.
Qed.

(** ** The shifts of [binary_round_aux] *)

(** A right shift by [n] bits divides the mantissa by [2^n] and adds [n]
    to the exponent. *)
Lemma shr_1_m (mrs : shr_record) : 0 <= shr_m mrs -> shr_m (shr_1 mrs) = shr_m mrs / 2.
Proof.
  destruct mrs as [m r s]; simpl; intros H.
  destruct m as [|p|p]; [reflexivity| |lia].
  destruct p as [p|p|]; simpl.
  - rewrite Pos2Z.inj_xI. apply Z.div_unique with 1; lia.
  - rewrite Pos2Z.inj_xO. apply Z.div_unique with 0; lia.
  - reflexivity.
Qed.

Lemma iter_shr_1_m (p : positive) : forall mrs, 0 <= shr_m mrs ->
  shr_m (iter_pos shr_1 p mrs) = shr_m mrs / 2 ^ Zpos p.
Proof.
  induction p as [p IH|p IH|]; intros mrs H; simpl iter_pos.
  - assert (H1 : 0 <= shr_m (shr_1 mrs)) by (rewrite shr_1_m by assumption; apply Z.div_pos; lia).
    assert (H2 : 0 <= shr_m (iter_pos shr_1 p (shr_1 mrs)))
      by (rewrite IH by assumption; apply Z.div_pos; [assumption|apply Z.pow_pos_nonneg; lia]).
    rewrite IH by assumption. rewrite IH by assumption. rewrite shr_1_m by assumption.
    rewrite !Z.div_div by (try apply Z.pow_pos_nonneg; lia).
    f_equal. assert (E : Z.pos p~1 = 1 + Z.pos p + Z.pos p) by lia.
    rewrite E, !Z.pow_add_r by lia. rewrite Z.pow_1_r. ring.
  - assert (H2 : 0 <= shr_m (iter_pos shr_1 p mrs))
      by (rewrite IH by assumption; apply Z.div_pos; [assumption|apply Z.pow_pos_nonneg; lia]).
    rewrite IH by assumption. rewrite IH by assumption.
    rewrite !Z.div_div by (try apply Z.pow_pos_nonneg; lia).
    f_equal. assert (E : Z.pos p~0 = Z.pos p + Z.pos p) by lia.
    rewrite E, !Z.pow_add_r by lia. ring.
  - rewrite shr_1_m by assumption. reflexivity.
Qed.

Lemma shr_spec (mrs : shr_record) (e n : Z) : 0 <= shr_m mrs ->
  shr_m (fst (shr mrs e n)) = shr_m mrs / 2 ^ Z.max 0 n /\
  snd (shr mrs e n) = e + Z.max 0 n.
Proof.
  intros H. destruct n as [|p|p]; simpl.
  - rewrite Z.div_1_r. split; [reflexivity|lia].
  - rewrite iter_shr_1_m by assumption. split; reflexivity.
  - rewrite Z.div_1_r. split; [reflexivity|lia].
Qed.

Lemma shr_m_of_loc (m : Z) (l : location) : shr_m (shr_record_of_loc m l) = m.
Proof. destruct l as [|[ | | ]]; reflexivity. Qed.

Lemma shr_fexp_spec (m e : Z) (l : location) : 0 <= m ->
  shr_m (fst (shr_fexp prec emax m e l))
    = m / 2 ^ Z.max 0 (fexp prec emax (Zdigits2 m + e) - e) /\
  snd (shr_fexp prec emax m e l) = e + Z.max 0 (fexp prec emax (Zdigits2 m + e) - e).
Proof.
  intros H. unfold shr_fexp.
  pose proof (shr_spec (shr_record_of_loc m l) e (fexp prec emax (Zdigits2 m + e) - e)) as S.
  rewrite shr_m_of_loc in S. apply S. assumption.
Qed.

(** Rounding to nearest even keeps the truncated mantissa or adds one. *)
Lemma round_nearest_even_range (m : Z) (l : location) :
  m <= round_nearest_even m l <= m + 1.
Proof.
  destruct l as [|[ | | ]]; simpl; try lia.
  destruct (Z.even m); lia.
Qed.

(** [binary_round_aux] shifts, rounds and shifts again, the rounding
    having possibly added a digit: the result is [rounded] from a mantissa
    [m1] that is the first quotient or one more. *)
Lemma binary_round_aux_spec (s : bool) (mx ex : Z) (lx : location) : 0 <= mx ->
  exists m1 : Z,
    mx / 2 ^ shift1 mx ex <= m1 <= mx / 2 ^ shift1 mx ex + 1 /\
    binary_round_aux prec emax s mx ex lx
    = rounded s (m1 / 2 ^ shift1 m1 (ex + shift1 mx ex))
        (ex + shift1 mx ex + shift1 m1 (ex + shift1 mx ex)).
Proof.
  intros H. unfold binary_round_aux.
  destruct (shr_fexp_spec mx ex lx H) as [A B].
  destruct (shr_fexp prec emax mx ex lx) as [mrs' e'] eqn:E1. simpl in A, B.
  set (m1 := round_nearest_even (shr_m mrs') (loc_of_shr_record mrs')).
  pose proof (round_nearest_even_range (shr_m mrs') (loc_of_shr_record mrs')) as R.
  fold m1 in R.
  assert (H1 : 0 <= m1).
  { rewrite A in R. assert (0 <= mx / 2 ^ Z.max 0 (fexp prec emax (Zdigits2 mx + ex) - ex)).
    { apply Z.div_pos; [assumption|apply Z.pow_pos_nonneg; lia]. } lia. }
  destruct (shr_fexp_spec m1 e' loc_Exact H1) as [C D].
  destruct (shr_fexp prec emax m1 e' loc_Exact) as [mrs'' e''] eqn:E2. simpl in C, D.
  exists m1. unfold shift1. rewrite <- A. split; [exact R|].
  rewrite <- B. rewrite <- C, <- D. unfold rounded. reflexivity.
Qed.

(** ** The number of binary digits *)

Lemma digits2_pos_bounds (p : positive) :
  2 ^ (Zpos (digits2_pos p) - 1) <= Zpos p < 2 ^ Zpos (digits2_pos p).
Proof.
  induction p as [p IH|p IH|]; simpl digits2_pos.
  - rewrite Pos2Z.inj_succ. assert (E : Z.pos p~1 = 2 * Z.pos p + 1) by lia. rewrite E.
    replace (Z.succ (Z.pos (digits2_pos p)) - 1) with (Z.succ (Z.pos (digits2_pos p) - 1)) by lia.
    rewrite !Z.pow_succ_r by lia. lia.
  - rewrite Pos2Z.inj_succ. assert (E : Z.pos p~0 = 2 * Z.pos p) by lia. rewrite E.
    replace (Z.succ (Z.pos (digits2_pos p)) - 1) with (Z.succ (Z.pos (digits2_pos p) - 1)) by lia.
    rewrite !Z.pow_succ_r by lia. lia.
  - simpl. lia.
Qed.

Lemma twoPow_lt_exp (a b x : Z) : 0 <= a -> 2 ^ a <= x -> x < 2 ^ b -> a < b.
Proof.
  intros Ha H1 H2. destruct (Z_lt_le_dec a b) as [L|L]; [assumption|].
  exfalso. destruct (Z_lt_le_dec b 0) as [N|N].
  - rewrite Z.pow_neg_r in H2 by assumption. pose proof (Z.pow_pos_nonneg 2 a). lia.
  - pose proof (Z.pow_le_mono_r 2 b a). lia.
Qed.

Lemma Zdigits2_bounds (m : Z) : 0 < m -> 2 ^ (Zdigits2 m - 1) <= m < 2 ^ Zdigits2 m.
Proof.
  destruct m as [|p|p]; try lia. intros _. apply digits2_pos_bounds.
Qed.

Lemma Zdigits2_pos (m : Z) : 0 < m -> 0 < Zdigits2 m.
Proof. destruct m as [|p|p]; simpl; lia. Qed.

(** The exponent a number of [x] digits is rounded at. *)
Lemma fexp_eq (x : Z) : fexp prec emax x = Z.max (x - 53) (-1074).
Proof. reflexivity. Qed.

(** ** The mantissa after the two shifts

    Bounds on the mantissa [m2] and on the exponent the rounding of
    [mx * 2^ex] ends with. *)

Section Round.
Variables (mx ex m1 : Z).
Hypothesis Hmx : 0 <= mx.
Let n := shift1 mx ex.
Hypothesis Hm1 : mx / 2 ^ n <= m1 <= mx / 2 ^ n + 1.
Let n2 := shift1 m1 (ex + n).
Let m2 := m1 / 2 ^ n2.

Lemma round_n_nonneg : 0 <= n /\ 0 <= n2.
Proof. unfold n, n2, shift1. lia. Qed.

Lemma round_m1_nonneg : 0 <= m1.
Proof.
  pose proof round_n_nonneg as [A _].
  assert (0 <= mx / 2 ^ n) by (apply Z.div_pos; [assumption|apply Z.pow_pos_nonneg; lia]).
  lia.
Qed.

Lemma round_m2_nonneg : 0 <= m2.
Proof.
  pose proof round_n_nonneg as [_ A]. pose proof round_m1_nonneg.
  apply Z.div_pos; [assumption|apply Z.pow_pos_nonneg; lia].
Qed.

Lemma round_upper : m2 * 2 ^ (n + n2) <= mx + 2 ^ n.
Proof.
  pose proof round_n_nonneg as [A B]. pose proof round_m1_nonneg as C.
  assert (P1 : 0 < 2 ^ n) by (apply Z.pow_pos_nonneg; lia).
  assert (P2 : 0 < 2 ^ n2) by (apply Z.pow_pos_nonneg; lia).
  rewrite Z.pow_add_r by assumption.
  pose proof (Z.mul_div_le m1 (2 ^ n2) P2) as D. fold m2 in D.
  pose proof (Z.mul_div_le mx (2 ^ n) P1) as E.
  nia.
Qed.

Lemma round_lower : mx + 1 <= (m2 + 1) * 2 ^ (n + n2).
Proof.
  pose proof round_n_nonneg as [A B]. pose proof round_m1_nonneg as C.
  assert (P1 : 0 < 2 ^ n) by (apply Z.pow_pos_nonneg; lia).
  assert (P2 : 0 < 2 ^ n2) by (apply Z.pow_pos_nonneg; lia).
  rewrite Z.pow_add_r by assumption.
  pose proof (Z.mul_succ_div_gt m1 (2 ^ n2) P2) as D. fold m2 in D.
  pose proof (Z.mul_succ_div_gt mx (2 ^ n) P1) as E.
  nia.
Qed.

Lemma round_e1 : ex + n = Z.max ex (fexp prec emax (Zdigits2 mx + ex)).
Proof. unfold n, shift1. lia. Qed.

Lemma round_zero_emin : m2 = 0 -> 0 < mx -> ex + n + n2 = -1074.
Proof.
  intros Z P. pose proof round_n_nonneg as [A B]. pose proof round_m1_nonneg as C.
  assert (P2 : 0 < 2 ^ n2) by (apply Z.pow_pos_nonneg; lia).
  assert (S1 : m1 < 2 ^ n2).
  { unfold m2 in Z. apply Z.div_small_iff in Z; lia. }
  destruct (Z.eq_dec m1 0) as [E0|N0].
  - assert (S0 : mx < 2 ^ n).
    { assert (P1 : 0 < 2 ^ n) by (apply Z.pow_pos_nonneg; lia).
      assert (Q : mx / 2 ^ n = 0).
      { assert (0 <= mx / 2 ^ n) by (apply Z.div_pos; lia). lia. }
      apply Z.div_small_iff in Q; lia. }
    pose proof (Zdigits2_bounds mx P) as [D1 D2]. pose proof (Zdigits2_pos mx P) as D0.
    assert (L : Zdigits2 mx - 1 < n) by (apply (twoPow_lt_exp _ _ mx); lia).
    assert (N2 : n2 = Z.max 0 (fexp prec emax (Zdigits2 0 + (ex + n)) - (ex + n))).
    { unfold n2, shift1. rewrite E0. reflexivity. }
    simpl Zdigits2 in N2. rewrite fexp_eq in N2.
    unfold n, shift1 in *. rewrite fexp_eq in *. lia.
  - assert (P1 : 0 < m1) by lia.
    pose proof (Zdigits2_bounds m1 P1) as [D1 D2]. pose proof (Zdigits2_pos m1 P1) as D0.
    assert (L : Zdigits2 m1 - 1 < n2) by (apply (twoPow_lt_exp _ _ m1); lia).
    unfold n2, shift1 in *. rewrite fexp_eq in *. lia.
Qed.

End Round.

(** ** Powers of two as rationals *)

Lemma twoPow_add (a b : Z) : (twoPow (a + b) == twoPow a * twoPow b)%Q.
Proof. unfold twoPow. apply Qpower_plus. discriminate. Qed.

Lemma twoPow_pos (a : Z) : (0 < twoPow a)%Q.
Proof. unfold twoPow. apply Qpower_0_lt. reflexivity. Qed.

Lemma twoPow_le (a b : Z) : a <= b -> (twoPow a <= twoPow b)%Q.
Proof. intros H. unfold twoPow. apply Qpower_le_compat_l; [assumption|discriminate]. Qed.

Lemma twoPow_Z (k : Z) : 0 <= k -> (inject_Z (2 ^ k) == twoPow k)%Q.
Proof. intros H. unfold twoPow. apply Zpower_Qpower. assumption. Qed.

Lemma twoPow_double (a : Z) : (twoPow (a + 1) == 2 * twoPow a)%Q.
Proof. rewrite twoPow_add. change (twoPow 1) with 2%Q. ring. Qed.

(** ** The error of one rounding *)

(** The rounding of [mx * 2^ex] lies within one unit in the last place of
    it; a zero comes only from zero or from below the least double, an
    infinity only from [2^971] on. *)
Lemma rounded_value (s : bool) (mx ex m1 : Z) :
  0 <= mx ->
  mx / 2 ^ shift1 mx ex <= m1 <= mx / 2 ^ shift1 mx ex + 1 ->
  let R := rounded s (m1 / 2 ^ shift1 m1 (ex + shift1 mx ex))
             (ex + shift1 mx ex + shift1 m1 (ex + shift1 mx ex)) in
  match R with
  | S754_zero s' => s' = s /\ (mx = 0 \/ ((inject_Z mx + 1) * twoPow ex <= twoPow (-1074))%Q)
  | S754_finite s' m e =>
      s' = s /\
      (SFmag R - twoPow e <= inject_Z mx * twoPow ex)%Q /\
      ((inject_Z mx + 1) * twoPow ex <= SFmag R + twoPow e)%Q
  | S754_infinity s' => s' = s /\ (twoPow 972 <= 2 * (inject_Z mx + 1) * twoPow ex)%Q
  | S754_nan => False
  end.
Proof.
  intros Hmx Hm1.
  pose proof (round_n_nonneg mx ex m1) as [N1 N2].
  pose proof (round_m2_nonneg mx ex m1 Hmx Hm1) as M2.
  pose proof (round_upper mx ex m1 Hmx Hm1) as U.
  pose proof (round_lower mx ex m1 Hmx Hm1) as L.
  pose proof (round_zero_emin mx ex m1 Hmx Hm1) as Z0.
  pose proof (round_e1 mx ex m1) as E1.
  set (n := shift1 mx ex) in *. set (n2 := shift1 m1 (ex + n)) in *.
  set (m2 := m1 / 2 ^ n2) in *.
  assert (Pk : (inject_Z (2 ^ (n + n2)) == twoPow (n + n2))%Q) by (apply twoPow_Z; lia).
  assert (Pn : (inject_Z (2 ^ n) == twoPow n)%Q) by (apply twoPow_Z; lia).
  assert (Le : (twoPow n <= twoPow (n + n2))%Q) by (apply twoPow_le; lia).
  assert (Ee : (twoPow (ex + n + n2) == twoPow ex * twoPow (n + n2))%Q).
  { replace (ex + n + n2) with (ex + (n + n2)) by lia. apply twoPow_add. }
  pose proof (twoPow_pos ex) as Pex. pose proof (twoPow_pos (n + n2)) as Pk0.
  rewrite Zle_Qle in U, L. rewrite inject_Z_plus, inject_Z_mult in U, L.
  rewrite inject_Z_plus in L. rewrite Pk in U, L. rewrite Pn in U.
  change (inject_Z 1) with 1%Q in L.
  intros R. unfold R, rounded. destruct m2 as [|p|p] eqn:Em2.
  - split; [reflexivity|]. destruct (Z.eq_dec mx 0) as [E0|NE]; [left; assumption|right].
    assert (Em : ex + n + n2 = -1074) by (apply Z0; [reflexivity|lia]).
    rewrite Em in Ee. rewrite Ee.
    change (inject_Z 0) with 0%Q in L.
    apply Qle_trans with ((0 + 1) * twoPow (n + n2) * twoPow ex)%Q.
    + apply Qmult_le_compat_r; [exact L|apply Qlt_le_weak, Pex].
    + apply Qle_lteq. right. ring.
  - destruct (ex + n + n2 <=? emax - prec) eqn:Eb.
    + split; [reflexivity|]. unfold SFmag. rewrite Ee.
      set (V := inject_Z (Z.pos p)) in *. set (X := inject_Z mx) in *.
      set (P := twoPow (n + n2)) in *. set (E := twoPow ex) in *.
      assert (A1 : ((V * P) * E <= (X + twoPow n) * E)%Q)
        by (apply Qmult_le_compat_r; [exact U|apply Qlt_le_weak, Pex]).
      assert (A2 : ((X + 1) * E <= ((V + 1) * P) * E)%Q)
        by (apply Qmult_le_compat_r; [exact L|apply Qlt_le_weak, Pex]).
      assert (A3 : (twoPow n * E <= P * E)%Q)
        by (apply Qmult_le_compat_r; [exact Le|apply Qlt_le_weak, Pex]).
      split; lra.
    + split; [reflexivity|]. apply Z.leb_gt in Eb. change (emax - prec) with 971 in Eb.
      assert (G : (twoPow 972 <= twoPow (ex + n + n2))%Q) by (apply twoPow_le; lia).
      assert (V1 : (1 <= inject_Z (Z.pos p))%Q) by (rewrite <- (Zle_Qle 1); lia).
      set (V := inject_Z (Z.pos p)) in *. set (X := inject_Z mx) in *.
      set (P := twoPow (n + n2)) in *. set (E := twoPow ex) in *.
      assert (A0 : (1 * P * E <= V * P * E)%Q).
      { apply Qmult_le_compat_r; [|apply Qlt_le_weak, Pex].
        apply Qmult_le_compat_r; [exact V1|apply Qlt_le_weak, Pk0]. }
      assert (A1 : ((V * P) * E <= (X + twoPow n) * E)%Q)
        by (apply Qmult_le_compat_r; [exact U|apply Qlt_le_weak, Pex]).
      rewrite Ee in G.
      destruct (Z.eq_dec n2 0) as [Z2|NZ2].
      * (* no second shift: the exponent is that of the first stage *)
        assert (Q1 : (twoPow (ex + n) <= (X + 1) * E)%Q).
        { rewrite fexp_eq in E1.
          destruct (Z.eq_dec mx 0) as [E0|NE].
          - assert (M : ex + n = ex).
            { assert (D0 : Zdigits2 mx = 0) by (rewrite E0; reflexivity). lia. }
            rewrite M. fold E. assert (0 <= X)%Q by (unfold X; rewrite <- (Zle_Qle 0); lia).
            assert (0 <= X * E)%Q by (apply Qmult_le_0_compat; [assumption|apply Qlt_le_weak, Pex]).
            lra.
          - assert (P0 : 0 < mx) by lia.
            pose proof (Zdigits2_bounds mx P0) as [D1 _]. pose proof (Zdigits2_pos mx P0) as D0.
            assert (Q2 : (twoPow (Zdigits2 mx - 1) <= X)%Q).
            { rewrite <- twoPow_Z by lia. unfold X. rewrite <- Zle_Qle. exact D1. }
            assert (Q3 : (twoPow (Zdigits2 mx - 1) * E <= X * E)%Q)
              by (apply Qmult_le_compat_r; [exact Q2|apply Qlt_le_weak, Pex]).
            assert (Q4 : (twoPow (Zdigits2 mx - 1 + ex) == twoPow (Zdigits2 mx - 1) * E)%Q)
              by apply twoPow_add.
            assert (Q5 : (1 * E <= X * E)%Q).
            { apply Qmult_le_compat_r; [|apply Qlt_le_weak, Pex].
              unfold X. rewrite <- (Zle_Qle 1). lia. }
            assert (M : ex + n = ex \/ ex + n = Zdigits2 mx + ex - 53) by lia.
            destruct M as [M|M]; rewrite M.
            + fold E. lra.
            + assert (Q6 : (twoPow (Zdigits2 mx + ex - 53) <= twoPow (Zdigits2 mx - 1 + ex))%Q)
                by (apply twoPow_le; lia).
              lra. }
        assert (Q7 : (twoPow (ex + n) == E * P)%Q).
        { unfold P. rewrite Z2. rewrite Z.add_0_r. rewrite twoPow_add. reflexivity. }
        pose proof (twoPow_pos (ex + n)). lra.
      * assert (Q1 : (2 * twoPow n <= P)%Q).
        { rewrite <- twoPow_double. apply twoPow_le. lia. }
        assert (A3 : (2 * twoPow n * E <= P * E)%Q)
          by (apply Qmult_le_compat_r; [exact Q1|apply Qlt_le_weak, Pex]).
        lra.
  - lia.
Qed.

(** The exponent and the mantissa of a double: at most 53 bits, exactly
    53 unless the exponent is the least one. *)
Lemma valid_finite (s : bool) (m : positive) (e : Z) :
  valid_binary (S754_finite s m e) = true ->
  -1074 <= e <= 971 /\ Zpos m < 2 ^ 53 /\ (e = -1074 \/ 2 ^ 52 <= Zpos m).
Proof.
  unfold SpecFloat.valid_binary, bounded, canonical_mantissa. rewrite fexp_eq.
  intros H. apply andb_prop in H as [H1 H2].
  apply Z.eqb_eq in H1. apply Z.leb_le in H2. change (emax - prec) with 971 in H2.
  pose proof (digits2_pos_bounds m) as [D1 D2].
  assert (D : Zpos (digits2_pos m) <= 53) by lia.
  split; [lia|]. split.
  - apply Z.lt_le_trans with (2 ^ Zpos (digits2_pos m)); [assumption|].
    apply Z.pow_le_mono_r; lia.
  - destruct (Z.eq_dec e (-1074)) as [E|N]; [left; assumption|right].
    assert (E : Zpos (digits2_pos m) = 53) by lia. rewrite E in D1. exact D1.
Qed.

(** The unit in the last place of a double, against its magnitude. *)
Lemma valid_ulp (s : bool) (m : positive) (e : Z) :
  valid_binary (S754_finite s m e) = true ->
  (twoPow e <= SFmag (S754_finite s m e) * eps + eta)%Q.
Proof.
  intros H. destruct (valid_finite s m e H) as (B & _ & [E|N]).
  - rewrite E. unfold SFmag, eta.
    assert (0 <= inject_Z (Z.pos m) * twoPow (-1074) * eps)%Q.
    { apply Qmult_le_0_compat; [|discriminate].
      apply Qmult_le_0_compat; [|apply Qlt_le_weak, twoPow_pos].
      rewrite <- (Zle_Qle 0). lia. }
    lra.
  - unfold SFmag. pose proof (twoPow_pos e) as P. pose proof (twoPow_pos (-1074)) as P'.
    fold eta in P'.
    assert (Q1 : (inject_Z (2 ^ 52) <= inject_Z (Z.pos m))%Q) by (rewrite <- Zle_Qle; exact N).
    assert (Q2 : (inject_Z (2 ^ 52) * twoPow e <= inject_Z (Z.pos m) * twoPow e)%Q)
      by (apply Qmult_le_compat_r; [exact Q1|apply Qlt_le_weak, P]).
    assert (Q3 : (inject_Z (2 ^ 52) * twoPow e * eps == twoPow e)%Q).
    { change (inject_Z (2 ^ 52)) with (4503599627370496 # 1)%Q. unfold eps. field. }
    assert (Q4 : (inject_Z (2 ^ 52) * twoPow e * eps <= inject_Z (Z.pos m) * twoPow e * eps)%Q)
      by (apply Qmult_le_compat_r; [exact Q2|discriminate]).
    lra.
Qed.

Lemma twoPow_972 : (twoPow 972 == 4 * twoPow 970)%Q.
Proof. replace 972 with (970 + 2) by lia. rewrite twoPow_add. change (twoPow 2) with 4%Q. ring. Qed.

Lemma eta_small : (eta <= 1 # 1000000)%Q.
Proof.
  unfold eta. apply Qle_trans with (twoPow (-20)); [apply twoPow_le; lia|].
  vm_compute. discriminate.
Qed.

Lemma eta_pos : (0 < eta)%Q.
Proof. apply twoPow_pos. Qed.

Lemma twoPow_970_big : (1000000000000000000 <= twoPow 970)%Q.
Proof.
  apply Qle_trans with (twoPow 60); [vm_compute; discriminate|apply twoPow_le; lia].
Qed.

(** ** Products and quotients *)

(** The product of two finite non-zero doubles approximates the product
    of their magnitudes, with the sign of the product. *)
Lemma mul_approx (x c : float) (s sc : bool) (m mc : positive) (e ec : Z) :
  Prim2SF x = S754_finite s m e ->
  Prim2SF c = S754_finite sc mc ec ->
  Approx (Prim2SF (x * c)) (xorb s sc) (SFmag (Prim2SF x) * SFmag (Prim2SF c)).
Proof.
  intros Ex Ec. pose proof (Prim2SF_valid (x * c)) as Val.
  rewrite mul_spec in *. rewrite Ex, Ec in *. unfold SF64mul in *. simpl SFmul in *.
  destruct (binary_round_aux_spec (xorb s sc) (Z.pos (m * mc)) (e + ec) loc_Exact)
    as (m1 & Hm1 & Eq); [lia|].
  rewrite Eq in *. clear Eq.
  pose proof (rounded_value (xorb s sc) (Z.pos (m * mc)) (e + ec) m1 ltac:(lia) Hm1) as RV.
  cbv zeta in RV.
  set (R := rounded _ _ _) in *.
  assert (T : (SFmag (S754_finite s m e) * SFmag (S754_finite sc mc ec)
               == inject_Z (Z.pos (m * mc)) * twoPow (e + ec))%Q).
  { unfold SFmag. rewrite twoPow_add. rewrite Pos2Z.inj_mul, inject_Z_mult. ring. }
  pose proof (twoPow_pos (e + ec)) as Pe.
  assert (One : (1 * twoPow (e + ec) <= inject_Z (Z.pos (m * mc)) * twoPow (e + ec))%Q).
  { apply Qmult_le_compat_r; [rewrite <- (Zle_Qle 1); lia|apply Qlt_le_weak, Pe]. }
  pose proof eta_pos as Hp.
  unfold Approx. destruct R as [s'|s'| |s' m' e'].
  - destruct RV as [-> [Z|U]]; [lia|]. split; [reflexivity|]. rewrite T. fold eta in U. lra.
  - destruct RV as [-> U]. split; [reflexivity|]. rewrite T. rewrite twoPow_972 in U. lra.
  - exact RV.
  - destruct RV as (-> & A & B). split; [reflexivity|].
    pose proof (valid_ulp _ _ _ Val) as Ulp. rewrite T.
    apply Qabs_Qle_condition. split; lra.
Qed.

(** The integer quotient [SFdiv_core_binary] computes: it truncates the
    exact quotient, at an exponent that is small against it. *)
Lemma div_core_spec (mx my : positive) (ex ey : Z) :
  Zpos mx < 2 ^ 53 ->
  let Vx := (inject_Z (Zpos mx) * twoPow ex)%Q in
  let Vy := (inject_Z (Zpos my) * twoPow ey)%Q in
  let '(q, e', l) := SFdiv_core_binary prec emax (Zpos mx) ex (Zpos my) ey in
  0 <= q /\
  (inject_Z q * twoPow e' * Vy <= Vx)%Q /\
  (Vx < (inject_Z q + 1) * twoPow e' * Vy)%Q /\
  (twoPow e' * Vy <= 2 * Vx * eps + eta * Vy)%Q.
Proof.
  intros Bx Vx Vy. unfold SFdiv_core_binary.
  set (d1 := Zdigits2 (Z.pos mx)). set (d2 := Zdigits2 (Z.pos my)).
  set (e' := Z.min (fexp prec emax (d1 + ex - (d2 + ey))) (ex - ey)).
  set (s := ex - ey - e').
  assert (S0 : 0 <= s) by (unfold s, e'; lia).
  set (m' := match s with Z.pos _ => Z.shiftl (Z.pos mx) s | Z0 => Z.pos mx | Z.neg _ => 0 end).
  assert (M' : m' = Z.pos mx * 2 ^ s).
  { unfold m'. destruct s as [|p|p] eqn:Es; [simpl; lia| |lia].
    apply Z.shiftl_mul_pow2. lia. }
  pose proof (Z_div_mod m' (Z.pos my) ltac:(lia)) as DM.
  destruct (Z.div_eucl m' (Z.pos my)) as [q r]. destruct DM as [DM R].
  assert (Q0 : 0 <= q) by nia.
  pose proof (twoPow_pos ex) as Pex. pose proof (twoPow_pos ey) as Pey.
  pose proof (twoPow_pos e') as Pe'.
  (* ex = s + ey + e' *)
  assert (Ex : (twoPow ex == twoPow s * (twoPow ey * twoPow e'))%Q).
  { rewrite <- !twoPow_add. replace (s + (ey + e')) with ex by (unfold s; lia). reflexivity. }
  assert (Ps : (inject_Z (2 ^ s) == twoPow s)%Q) by (apply twoPow_Z; assumption).
  assert (VX : (Vx == (inject_Z (Z.pos my) * inject_Z q + inject_Z r) * (twoPow ey * twoPow e'))%Q).
  { unfold Vx. rewrite Ex. rewrite <- Ps.
    rewrite <- inject_Z_mult, <- inject_Z_plus. rewrite <- DM. rewrite M'.
    rewrite inject_Z_mult. ring. }
  assert (PP : (0 < twoPow ey * twoPow e')%Q) by (apply Qmult_lt_0_compat; assumption).
  assert (R0 : (0 <= inject_Z r * (twoPow ey * twoPow e'))%Q).
  { apply Qmult_le_0_compat; [rewrite <- (Zle_Qle 0); lia|apply Qlt_le_weak, PP]. }
  assert (R1 : (inject_Z r * (twoPow ey * twoPow e') < inject_Z (Z.pos my) * (twoPow ey * twoPow e'))%Q).
  { apply Qmult_lt_compat_r; [exact PP|]. rewrite <- Zlt_Qlt. lia. }
  split; [exact Q0|]. split; [|split].
  - unfold Vy. lra.
  - unfold Vy. lra.
  - (* the unit of the quotient is small against the quotient *)
    pose proof (Zdigits2_bounds (Z.pos mx) ltac:(lia)) as [D1 D1'].
    pose proof (Zdigits2_bounds (Z.pos my) ltac:(lia)) as [D2 D2'].
    pose proof (Zdigits2_pos (Z.pos mx) ltac:(lia)) as P1.
    pose proof (Zdigits2_pos (Z.pos my) ltac:(lia)) as P2.
    fold d1 in D1, D1', P1. fold d2 in D2, D2', P2.
    assert (VyP : (0 < Vy)%Q).
    { unfold Vy. apply Qmult_lt_0_compat; [|exact Pey]. rewrite <- (Zlt_Qlt 0). lia. }
    assert (Le : e' <= fexp prec emax (d1 + ex - (d2 + ey))) by (unfold e'; lia).
    rewrite fexp_eq in Le.
    destruct (Z_le_gt_dec e' (-1074)) as [Small|Big].
    + assert (A : (twoPow e' <= eta)%Q) by (apply twoPow_le; assumption).
      assert (A' : (twoPow e' * Vy <= eta * Vy)%Q)
        by (apply Qmult_le_compat_r; [exact A|apply Qlt_le_weak, VyP]).
      assert (0 <= Vx * eps)%Q.
      { apply Qmult_le_0_compat; [|discriminate]. unfold Vx.
        apply Qmult_le_0_compat; [rewrite <- (Zle_Qle 0); lia|apply Qlt_le_weak, Pex]. }
      pose proof eta_pos. lra.
    + assert (Le' : e' <= d1 + ex - (d2 + ey) - 53) by lia.
      (* twoPow e' * my * twoPow ey <= twoPow (e' + d2 + ey) <= twoPow (d1 + ex - 53) *)
      assert (A1 : (inject_Z (Z.pos my) <= twoPow d2)%Q).
      { rewrite <- twoPow_Z by lia. rewrite <- Zle_Qle. lia. }
      assert (A2 : (twoPow (d1 - 1) <= inject_Z (Z.pos mx))%Q).
      { rewrite <- twoPow_Z by lia. rewrite <- Zle_Qle. lia. }
      assert (A3 : (twoPow e' * Vy <= twoPow (e' + d2 + ey))%Q).
      { unfold Vy. rewrite !twoPow_add.
        assert (inject_Z (Z.pos my) * (twoPow e' * twoPow ey) <= twoPow d2 * (twoPow e' * twoPow ey))%Q.
        { apply Qmult_le_compat_r; [exact A1|].
          apply Qlt_le_weak, Qmult_lt_0_compat; assumption. }
        lra. }
      assert (A4 : (twoPow (e' + d2 + ey) <= twoPow (d1 - 1 + ex - 52))%Q) by (apply twoPow_le; lia).
      assert (A5 : (twoPow (d1 - 1 + ex - 52) == twoPow (d1 - 1) * twoPow ex * eps)%Q).
      { replace (d1 - 1 + ex - 52) with (d1 - 1 + ex + -52) by lia. rewrite !twoPow_add.
        change (twoPow (-52)) with (/ 4503599627370496)%Q. unfold eps.
        setoid_replace (1 # 4503599627370496)%Q with (/ 4503599627370496)%Q by reflexivity.
        reflexivity. }
      assert (A6 : (twoPow (d1 - 1) * twoPow ex * eps <= Vx * eps)%Q).
      { apply Qmult_le_compat_r; [|discriminate]. unfold Vx.
        apply Qmult_le_compat_r; [exact A2|apply Qlt_le_weak, Pex]. }
      assert (0 <= Vx * eps)%Q.
      { apply Qmult_le_0_compat; [|discriminate]. unfold Vx.
        apply Qmult_le_0_compat; [rewrite <- (Zle_Qle 0); lia|apply Qlt_le_weak, Pex]. }
      assert (0 <= eta * Vy)%Q.
      { apply Qmult_le_0_compat; [apply Qlt_le_weak, eta_pos|apply Qlt_le_weak, VyP]. }
      lra.
Qed.

Lemma SFmag_pos (s : bool) (m : positive) (e : Z) : (0 < SFmag (S754_finite s m e))%Q.
Proof.
  unfold SFmag. apply Qmult_lt_0_compat; [|apply twoPow_pos]. rewrite <- (Zlt_Qlt 0). lia.
Qed.

(** The quotient of two finite non-zero doubles, likewise. *)
Lemma div_approx (y c : float) (s sc : bool) (m mc : positive) (e ec : Z) :
  Prim2SF y = S754_finite s m e ->
  Prim2SF c = S754_finite sc mc ec ->
  Approx (Prim2SF (y / c)) (xorb s sc) (SFmag (Prim2SF y) / SFmag (Prim2SF c)).
Proof.
  intros Ey Ec. pose proof (Prim2SF_valid (y / c)) as Val.
  pose proof (Prim2SF_valid y) as Vy0. rewrite Ey in Vy0.
  destruct (valid_finite _ _ _ Vy0) as (_ & Bm & _).
  rewrite div_spec in *. rewrite Ey, Ec in *. unfold SF64div in *. simpl SFdiv in *.
  pose proof (div_core_spec m mc e ec Bm) as DC. cbv zeta in DC.
  destruct (SFdiv_core_binary prec emax (Z.pos m) e (Z.pos mc) ec) as [[q e'] l].
  destruct DC as (Q0 & D1 & D2 & D3).
  destruct (binary_round_aux_spec (xorb s sc) q e' l Q0) as (m1 & Hm1 & Eq).
  rewrite Eq in *. clear Eq.
  pose proof (rounded_value (xorb s sc) q e' m1 Q0 Hm1) as RV. cbv zeta in RV.
  set (R := rounded _ _ _) in *.
  pose proof (SFmag_pos s m e) as PX. pose proof (SFmag_pos sc mc ec) as PC.
  set (X := SFmag (S754_finite s m e)) in *. set (C := SFmag (S754_finite sc mc ec)) in *.
  change (inject_Z (Z.pos m) * twoPow e)%Q with X in D1, D2, D3.
  change (inject_Z (Z.pos mc) * twoPow ec)%Q with C in D1, D2, D3.
  set (T := (X / C)%Q).
  assert (L1 : (inject_Z q * twoPow e' <= T)%Q) by (apply Qle_shift_div_l; assumption).
  assert (L2 : (T < (inject_Z q + 1) * twoPow e')%Q) by (apply Qlt_shift_div_r; assumption).
  assert (L3 : (twoPow e' <= 2 * T * eps + eta)%Q).
  { apply (Qmult_le_r _ _ C PC).
    assert (E : ((2 * T * eps + eta) * C == 2 * X * eps + eta * C)%Q).
    { unfold T. field. intros H. rewrite H in PC. discriminate. }
    rewrite E. exact D3. }
  pose proof eta_pos as Hp. pose proof eta_small as Hs. pose proof twoPow_970_big as Hb.
  assert (T0 : (0 < T)%Q) by (unfold T; apply Qlt_shift_div_l; [assumption|lra]).
  unfold Approx. unfold eps in *. destruct R as [s'|s'| |s' m' e2].
  - destruct RV as [-> [Z|U]]; (split; [reflexivity|]).
    + rewrite Z in L2. change (inject_Z 0) with 0%Q in L2. lra.
    + fold eta in U. lra.
  - destruct RV as [-> U]. split; [reflexivity|]. rewrite twoPow_972 in U. lra.
  - exact RV.
  - destruct RV as (-> & A & B). split; [reflexivity|].
    pose proof (valid_ulp _ _ _ Val) as Ulp. unfold eps in Ulp.
    apply Qabs_Qle_condition. split; lra.
Qed.

(** ** Signs *)

(** Rounding a number that is not negative gives none that is. *)
Lemma rounded_nonneg (m e : Z) : 0 <= m -> SFnonneg (rounded false m e).
Proof.
  intros H. unfold rounded. destruct m as [|p|p]; simpl; [reflexivity| |lia].
  destruct (_ <=? _); exact eq_refl.
Qed.

Lemma binary_round_aux_nonneg (mx ex : Z) (lx : location) :
  0 <= mx -> SFnonneg (binary_round_aux prec emax false mx ex lx).
Proof.
  intros H. destruct (binary_round_aux_spec false mx ex lx H) as (m1 & Hm1 & ->).
  apply rounded_nonneg. apply (round_m2_nonneg mx ex m1 H Hm1).
Qed.

Lemma binary_normalize_nonneg (m e : Z) :
  0 <= m -> SFnonneg (binary_normalize prec emax m e false).
Proof.
  intros H. destruct m as [|p|p]; [reflexivity| |lia].
  unfold binary_normalize, binary_round.
  destruct (shl_align p e _) as [mz ez]. apply binary_round_aux_nonneg. lia.
Qed.

(** Aligning a mantissa to a lower exponent multiplies it by a power of
    two. *)
Lemma iter_xO (m d : positive) : Z.pos (Pos.iter xO m d) = Z.pos m * 2 ^ Z.pos d.
Proof.
  induction d as [|d IH] using Pos.peano_ind.
  - simpl. lia.
  - rewrite Pos.iter_succ. rewrite Pos2Z.inj_xO, IH, Pos2Z.inj_succ, Z.pow_succ_r by lia. ring.
Qed.

Lemma shl_align_fst (m : positive) (e ez : Z) :
  ez <= e -> Z.pos (fst (shl_align m e ez)) = Z.pos m * 2 ^ (e - ez).
Proof.
  intros H. unfold shl_align. destruct (ez - e) as [|d|d] eqn:E.
  - replace (e - ez) with 0 by lia. simpl. lia.
  - lia.
  - simpl fst. rewrite iter_xO. f_equal. f_equal. lia.
Qed.

(** Sums, absolute values and products by a positive constant of numbers
    that are not negative are not negative. *)
Lemma SFadd_nonneg (a b : spec_float) :
  SFnonneg a -> SFnonneg b -> SFnonneg (SFadd prec emax a b).
Proof.
  destruct a as [sa|sa| |sa ma ea], b as [sb|sb| |sb mb eb]; simpl;
    intros Ha Hb; subst; try contradiction; try reflexivity.
  apply binary_normalize_nonneg. simpl. lia.
Qed.

Lemma SFabs_nonneg (a : spec_float) : a <> S754_nan -> SFnonneg (SFabs a).
Proof. destruct a; simpl; intros H; try reflexivity. congruence. Qed.

Lemma SFmul_nonneg (a : spec_float) (m : positive) (e : Z) :
  SFnonneg a -> SFnonneg (SFmul prec emax a (S754_finite false m e)).
Proof.
  destruct a as [sa|sa| |sa ma ea]; simpl; intros Ha; subst; try contradiction;
    try reflexivity.
  apply binary_round_aux_nonneg. lia.
Qed.

(** Rounding never gives NaN. *)
Lemma binary_normalize_not_nan (m e : Z) (s : bool) :
  binary_normalize prec emax m e s <> S754_nan.
Proof.
  destruct m as [|p|p]; [discriminate| |]; unfold binary_normalize, binary_round;
    destruct (shl_align p e _) as [mz ez];
    destruct (binary_round_aux_spec false (Z.pos mz) ez loc_Exact ltac:(lia)) as (m1 & Hm1 & E1);
    destruct (binary_round_aux_spec true (Z.pos mz) ez loc_Exact ltac:(lia)) as (m1' & Hm1' & E1').
  - rewrite E1. pose proof (round_m2_nonneg (Z.pos mz) ez m1 ltac:(lia) Hm1) as N.
    unfold rounded. destruct (m1 / _) as [|q|q]; [discriminate| |lia].
    destruct (_ <=? _); discriminate.
  - rewrite E1'. pose proof (round_m2_nonneg (Z.pos mz) ez m1' ltac:(lia) Hm1') as N.
    unfold rounded. destruct (m1' / _) as [|q|q]; [discriminate| |lia].
    destruct (_ <=? _); discriminate.
Qed.

(** Subtracting a finite number never gives NaN. *)
Lemma SFsub_not_nan (a b : spec_float) :
  a <> S754_nan -> SFfinite b = true -> SFsub prec emax a b <> S754_nan.
Proof.
  destruct a as [sa|sa| |sa ma ea], b as [sb|sb| |sb mb eb]; simpl;
    intros Ha Hb; try discriminate; try congruence.
  - destruct sa, sb; discriminate.
  - apply binary_normalize_not_nan.
Qed.

(** The difference of a greater and a smaller number is not negative. *)
Lemma SFsub_lt_nonneg (a b : spec_float) :
  valid_binary a = true -> valid_binary b = true ->
  SFcompare a b = Some Lt -> SFnonneg (SFsub prec emax b a).
Proof.
  destruct a as [sa|sa| |sa ma ea], b as [sb|sb| |sb mb eb]; simpl SFcompare;
    intros Va Vb H; try discriminate;
    try (destruct sa; try discriminate; simpl; reflexivity);
    try (destruct sb; try discriminate; simpl; reflexivity);
    try (destruct sa, sb; try discriminate; simpl; reflexivity).
  - (* finite < finite *)
    destruct (valid_finite _ _ _ Va) as (Ba & Ma & Na).
    destruct (valid_finite _ _ _ Vb) as (Bb & Mb & Nb).
    simpl SFsub. apply binary_normalize_nonneg.
    rewrite !shl_align_fst by lia.
    assert (P1 : 0 < 2 ^ (eb - Z.min eb ea)) by (apply Z.pow_pos_nonneg; lia).
    assert (P2 : 0 < 2 ^ (ea - Z.min eb ea)) by (apply Z.pow_pos_nonneg; lia).
    destruct sa, sb; unfold cond_Zopp; try discriminate.
    + (* both negative *)
      injection H as H.
      destruct (Z.compare_spec ea eb) as [E|E|E]; try discriminate.
      * subst eb. rewrite Z.min_id, Z.sub_diag. change (2 ^ 0) with 1.
        change (Pos.compare_cont Eq ma mb) with (Pos.compare ma mb) in H.
        destruct (Pos.compare_spec ma mb); try discriminate. lia.
      * assert (M : Z.min eb ea = eb) by lia. rewrite M, Z.sub_diag.
        assert (Q1 : 2 ^ 1 <= 2 ^ (ea - eb)) by (apply Z.pow_le_mono_r; lia).
        assert (Q2 : 2 ^ 52 <= Z.pos ma) by lia.
        assert (Q3 : Z.pos ma * 2 ^ 1 <= Z.pos ma * 2 ^ (ea - eb))
          by (apply Z.mul_le_mono_nonneg_l; lia).
        pose proof (eq_refl : 2 ^ 53 = 9007199254740992) as K53.
        pose proof (eq_refl : 2 ^ 52 = 4503599627370496) as K52.
        pose proof (eq_refl : 2 ^ 1 = 2) as K1. pose proof (eq_refl : 2 ^ 0 = 1) as K0.
        lia.
    + (* a negative, b positive *) nia.
    + (* both positive *)
      injection H as H.
      destruct (Z.compare_spec ea eb) as [E|E|E]; try discriminate.
      * subst eb. rewrite Z.min_id, Z.sub_diag. change (2 ^ 0) with 1.
        change (Pos.compare_cont Eq ma mb) with (Pos.compare ma mb) in H.
        destruct (Pos.compare_spec ma mb); try discriminate. lia.
      * assert (M : Z.min eb ea = ea) by lia. rewrite M, Z.sub_diag.
        assert (Q1 : 2 ^ 1 <= 2 ^ (eb - ea)) by (apply Z.pow_le_mono_r; lia).
        assert (Q2 : 2 ^ 52 <= Z.pos mb) by lia.
        assert (Q3 : Z.pos mb * 2 ^ 1 <= Z.pos mb * 2 ^ (eb - ea))
          by (apply Z.mul_le_mono_nonneg_l; lia).
        pose proof (eq_refl : 2 ^ 53 = 9007199254740992) as K53.
        pose proof (eq_refl : 2 ^ 52 = 4503599627370496) as K52.
        pose proof (eq_refl : 2 ^ 1 = 2) as K1. pose proof (eq_refl : 2 ^ 0 = 1) as K0.
        lia.
Qed.

End Rounding.

(** ** Round trips through a factor *)

Section RoundTrips.
Local Open Scope Q_scope.

(** Below [10^18] a rounded result is finite. *)
Lemma approx_near (R : spec_float) (s : bool) (T : Q) :
  Approx R s T -> 0 <= T -> T < 1000000000000000000 -> Near R s T.
Proof.
  intros A T0 TB. pose proof eta_pos. pose proof twoPow_970_big.
  unfold Near. destruct R as [s'|s'| |s' m e]; cbn [Approx SFfinite SFval SFmag] in A |- *.
  - destruct A as [_ A]. split; [reflexivity|]. split; [ring|].
    apply Qabs_Qle_condition. unfold eps. split; lra.
  - destruct A as [_ A]. lra.
  - contradiction.
  - destruct A as [-> A]. split; [reflexivity|]. split; [reflexivity|].
    apply Qabs_Qle_condition in A. apply Qabs_Qle_condition. split; lra.
Qed.

Lemma SFmag_nonneg (R : spec_float) : 0 <= SFmag R.
Proof.
  destruct R as [s|s| |s m e]; simpl; try discriminate.
  apply Qlt_le_weak. apply (SFmag_pos s m e).
Qed.

(** The arithmetic of a product followed by a quotient, and the reverse. *)
Lemma there_and_back (X C V1 T2 V2 : Q) :
  0 <= X <= 1000000000000 -> 1 # 4 <= C <= 4 -> 0 <= V1 -> 0 <= V2 ->
  Qabs (V1 - X * C) <= V1 * eps + 2 * eta ->
  T2 * C == V1 ->
  Qabs (V2 - T2) <= V2 * eps + 2 * eta ->
  Qabs (V2 - X) <= 1 # 200.
Proof.
  intros HX HC HV1 HV2 H1 E H2.
  apply Qabs_Qle_condition in H1. apply Qabs_Qle_condition in H2.
  pose proof eta_pos. pose proof eta_small. unfold eps in *.
  assert (B1 : V1 <= 4100000000000) by nra.
  assert (D : - (4 * (V1 * (1 # 4503599627370496) + 2 * eta)) <= T2 - X
              <= 4 * (V1 * (1 # 4503599627370496) + 2 * eta)) by (split; nra).
  apply Qabs_Qle_condition. split; lra.
Qed.

Lemma back_and_there (X C V1 T1 V2 : Q) :
  0 <= X <= 1000000000000 -> 1 # 4 <= C <= 4 -> 0 <= V1 -> 0 <= V2 ->
  T1 * C == X ->
  Qabs (V1 - T1) <= V1 * eps + 2 * eta ->
  Qabs (V2 - V1 * C) <= V2 * eps + 2 * eta ->
  Qabs (V2 - X) <= 1 # 200.
Proof.
  intros HX HC HV1 HV2 E H1 H2.
  apply Qabs_Qle_condition in H1. apply Qabs_Qle_condition in H2.
  pose proof eta_pos. pose proof eta_small. unfold eps in *.
  assert (B0 : 0 <= T1 <= 4000000000000) by (split; nra).
  assert (B1 : V1 <= 4100000000000) by lra.
  assert (D : - (4 * (V1 * (1 # 4503599627370496) + 2 * eta)) <= V1 * C - X
              <= 4 * (V1 * (1 # 4503599627370496) + 2 * eta)) by (split; nra).
  apply Qabs_Qle_condition. split; lra.
Qed.

(** The sign of a rounded result, and values by sign and magnitude. *)
Lemma approx_signed (R : spec_float) (s : bool) (T : Q) : Approx R s T -> signed R s.
Proof. destruct R; simpl; tauto. Qed.

Lemma signed_val (R : spec_float) (s : bool) : signed R s -> SFval R == sgn s * SFmag R.
Proof. destruct R as [s'|s'| |s' m e]; simpl; intros H; try ring. rewrite H. reflexivity. Qed.

Lemma abs_signed (s : bool) (a b : Q) : Qabs (sgn s * a - sgn s * b) == Qabs (a - b).
Proof.
  destruct s; unfold sgn.
  - setoid_replace (-1 * a - -1 * b) with (- (a - b)) by ring. apply Qabs_opp.
  - setoid_replace (1 * a - 1 * b) with (a - b) by ring. reflexivity.
Qed.

Lemma abs_sgn (s : bool) (a : Q) : 0 <= a -> Qabs (sgn s * a) == a.
Proof.
  intros H. destruct s; unfold sgn.
  - setoid_replace (-1 * a) with (- a) by ring. rewrite Qabs_opp. apply Qabs_pos. exact H.
  - setoid_replace (1 * a) with a by ring. apply Qabs_pos. exact H.
Qed.

(** A finite [x] of magnitude at most [10^12], multiplied by a double [c]
    between 1/4 and 4 and divided by it again (or divided, then
    multiplied), comes back finite and within 0.005 of [x]. *)
Section RoundTrip.
Variables (c : float) (mc : positive) (ec : Z).
Hypothesis Ec : Prim2SF c = S754_finite false mc ec.
Hypothesis Cr : 1 # 4 <= SFmag (Prim2SF c) <= 4.

Lemma mul_div_round_trip (x : float) :
  SFfinite (Prim2SF x) = true ->
  Qabs (SFval (Prim2SF x)) <= 1000000000000 ->
  SFfinite (Prim2SF (x * c / c)) = true /\
  Qabs (SFval (Prim2SF (x * c / c)) - SFval (Prim2SF x)) <= 1 # 200.
Proof.
  intros Fx Bx. pose proof eta_pos as Hp. pose proof eta_small as Hs.
  destruct (Prim2SF x) as [s|s| |s m e] eqn:Ex; try discriminate.
  - assert (Ey : Prim2SF (x * c) = S754_zero (xorb s false))
      by (rewrite mul_spec, Ex, Ec; reflexivity).
    assert (Ez : Prim2SF (x * c / c) = S754_zero (xorb (xorb s false) false))
      by (rewrite div_spec, Ey, Ec; reflexivity).
    rewrite Ez. simpl. split; [reflexivity|]. discriminate.
  - pose proof (mul_approx x c s false m mc e ec Ex Ec) as A1.
    rewrite xorb_false_r in A1. rewrite Ex, Ec in A1. rewrite Ec in Cr.
    pose proof (SFmag_pos s m e) as PX.
    assert (HX : 0 <= SFmag (S754_finite s m e) <= 1000000000000).
    { split; [lra|]. cbn [SFval] in Bx. change (inject_Z (Z.pos m) * twoPow e) with (SFmag (S754_finite s m e)) in Bx.
      rewrite abs_sgn in Bx by lra. exact Bx. }
    set (X := SFmag (S754_finite s m e)) in *. set (C := SFmag (S754_finite false mc ec)) in *.
    assert (T1 : 0 <= X * C < 1000000000000000000) by (split; nra).
    pose proof (approx_signed _ _ _ A1) as S1.
    destruct (approx_near _ _ _ A1 (proj1 T1) (proj2 T1)) as (F1 & _ & N1).
    destruct (Prim2SF (x * c)) as [s1|s1| |s1 m1 e1] eqn:Ey; try discriminate.
    + assert (Ez : Prim2SF (x * c / c) = S754_zero (xorb s1 false))
        by (rewrite div_spec, Ey, Ec; reflexivity).
      rewrite Ez. split; [reflexivity|]. cbn [SFval SFmag] in N1 |- *.
      change (inject_Z (Z.pos m) * twoPow e) with X. setoid_replace (0 - sgn s * X) with (sgn s * (- X)) by ring.
      destruct s; unfold sgn; apply Qabs_Qle_condition in N1; apply Qabs_Qle_condition;
        unfold eps in *; split; nra.
    + simpl in S1. subst s1.
      pose proof (div_approx (x * c) c s false m1 mc e1 ec Ey Ec) as A2.
      rewrite xorb_false_r in A2. rewrite Ey, Ec in A2.
      pose proof (SFmag_pos s m1 e1) as PV. fold C in A2.
      set (V1 := SFmag (S754_finite s m1 e1)) in *.
      assert (B1 : V1 <= 4100000000000).
      { apply Qabs_Qle_condition in N1. unfold eps in *. nra. }
      assert (T2 : 0 <= V1 / C < 1000000000000000000).
      { split; [apply Qle_shift_div_l; lra|apply Qlt_shift_div_r; [lra|nra]]. }
      pose proof (approx_signed _ _ _ A2) as S2.
      destruct (approx_near _ _ _ A2 (proj1 T2) (proj2 T2)) as (F2 & _ & N2).
      split; [exact F2|].
      rewrite (signed_val _ _ S2). cbn [SFval].
      change (inject_Z (Z.pos m) * twoPow e) with X.
      rewrite abs_signed.
      apply (there_and_back X C V1 (V1 / C)); try assumption; try lra.
      * apply SFmag_nonneg.
      * field. lra.
Qed.

Lemma div_mul_round_trip (x : float) :
  SFfinite (Prim2SF x) = true ->
  Qabs (SFval (Prim2SF x)) <= 1000000000000 ->
  SFfinite (Prim2SF (x / c * c)) = true /\
  Qabs (SFval (Prim2SF (x / c * c)) - SFval (Prim2SF x)) <= 1 # 200.
Proof.
  intros Fx Bx. pose proof eta_pos as Hp. pose proof eta_small as Hs.
  destruct (Prim2SF x) as [s|s| |s m e] eqn:Ex; try discriminate.
  - assert (Ey : Prim2SF (x / c) = S754_zero (xorb s false))
      by (rewrite div_spec, Ex, Ec; reflexivity).
    assert (Ez : Prim2SF (x / c * c) = S754_zero (xorb (xorb s false) false))
      by (rewrite mul_spec, Ey, Ec; reflexivity).
    rewrite Ez. simpl. split; [reflexivity|]. discriminate.
  - pose proof (div_approx x c s false m mc e ec Ex Ec) as A1.
    rewrite xorb_false_r in A1. rewrite Ex, Ec in A1. rewrite Ec in Cr.
    pose proof (SFmag_pos s m e) as PX.
    assert (HX : 0 <= SFmag (S754_finite s m e) <= 1000000000000).
    { split; [lra|]. cbn [SFval] in Bx. change (inject_Z (Z.pos m) * twoPow e) with (SFmag (S754_finite s m e)) in Bx.
      rewrite abs_sgn in Bx by lra. exact Bx. }
    set (X := SFmag (S754_finite s m e)) in *. set (C := SFmag (S754_finite false mc ec)) in *.
    assert (T1 : 0 <= X / C < 1000000000000000000).
    { split; [apply Qle_shift_div_l; lra|apply Qlt_shift_div_r; [lra|nra]]. }
    assert (E1 : X / C * C == X) by (field; lra).
    pose proof (approx_signed _ _ _ A1) as S1.
    destruct (approx_near _ _ _ A1 (proj1 T1) (proj2 T1)) as (F1 & _ & N1).
    destruct (Prim2SF (x / c)) as [s1|s1| |s1 m1 e1] eqn:Ey; try discriminate.
    + assert (Ez : Prim2SF (x / c * c) = S754_zero (xorb s1 false))
        by (rewrite mul_spec, Ey, Ec; reflexivity).
      rewrite Ez. split; [reflexivity|]. cbn [SFval SFmag] in N1 |- *.
      change (inject_Z (Z.pos m) * twoPow e) with X. setoid_replace (0 - sgn s * X) with (sgn s * (- X)) by ring.
      set (T := X / C) in *.
      destruct s; unfold sgn; apply Qabs_Qle_condition in N1; apply Qabs_Qle_condition;
        unfold eps in *; split; nra.
    + simpl in S1. subst s1.
      pose proof (mul_approx (x / c) c s false m1 mc e1 ec Ey Ec) as A2.
      rewrite xorb_false_r in A2. rewrite Ey, Ec in A2.
      pose proof (SFmag_pos s m1 e1) as PV. fold C in A2.
      set (V1 := SFmag (S754_finite s m1 e1)) in *.
      set (T := X / C) in *.
      assert (B0 : T <= 4000000000000) by nra.
      assert (B1 : V1 <= 4100000000000).
      { apply Qabs_Qle_condition in N1. unfold eps in *. lra. }
      assert (T2 : 0 <= V1 * C < 1000000000000000000) by (split; nra).
      pose proof (approx_signed _ _ _ A2) as S2.
      destruct (approx_near _ _ _ A2 (proj1 T2) (proj2 T2)) as (F2 & _ & N2).
      split; [exact F2|].
      rewrite (signed_val _ _ S2). cbn [SFval].
      change (inject_Z (Z.pos m) * twoPow e) with X.
      rewrite abs_signed.
      apply (back_and_there X C V1 T); try assumption; try lra.
      apply SFmag_nonneg.
Qed.

End RoundTrip.

End RoundTrips.

(** ** Comparison of doubles *)

(** [SFcompare] is the comparison of the library; it answers [None] when
    an operand is NaN. *)
Lemma SFcompare_antisym (a b : spec_float) (c : comparison) :
  SFcompare a b = Some c -> SFcompare b a = Some (CompOpp c).
Proof.
  destruct a as [sa|sa| |sa ma ea], b as [sb|sb| |sb mb eb]; simpl; intros H;
    try discriminate;
    repeat match goal with s : bool |- _ => destruct s end; simpl in *;
    try (injection H as <-; reflexivity).
  all: injection H as <-; f_equal.
  all: change (Pos.compare_cont Eq mb ma) with (Pos.compare mb ma);
       change (Pos.compare_cont Eq ma mb) with (Pos.compare ma mb).
  all: rewrite (Z.compare_antisym ea eb); destruct (Z.compare ea eb); simpl; try reflexivity.
  all: rewrite (Pos.compare_antisym ma mb); destruct (Pos.compare ma mb); reflexivity.
Qed.

Lemma SFcompare_None (a b : spec_float) :
  SFcompare a b = None <-> a = S754_nan \/ b = S754_nan.
Proof.
  destruct a as [sa|sa| |sa ma ea], b as [sb|sb| |sb mb eb]; simpl;
    split; intros H; try discriminate; try tauto;
    try (destruct H; discriminate); auto.
Qed.

Lemma is_nan_SF (x : float) : PrimFloat.is_nan x = true <-> Prim2SF x = S754_nan.
Proof.
  unfold PrimFloat.is_nan. rewrite negb_true_iff, eqb_spec. unfold SFeqb.
  destruct (SFcompare (Prim2SF x) (Prim2SF x)) as [c|] eqn:E.
  - assert (N : Prim2SF x <> S754_nan).
    { intros N. assert (SFcompare (Prim2SF x) (Prim2SF x) = None) by (apply SFcompare_None; auto).
      congruence. }
    pose proof (SFcompare_antisym _ _ _ E) as A. rewrite E in A. injection A as A.
    destruct c; try discriminate. split; [discriminate|contradiction].
  - apply SFcompare_None in E. split; [tauto|reflexivity].
Qed.

Lemma is_nan_false_SF (x : float) : PrimFloat.is_nan x = false <-> Prim2SF x <> S754_nan.
Proof.
  rewrite <- is_nan_SF. destruct (PrimFloat.is_nan x); split; congruence.
Qed.

(** [x < y] on doubles. *)
Lemma ltb_SF (x y : float) :
  PrimFloat.ltb x y = true <-> SFcompare (Prim2SF x) (Prim2SF y) = Some Lt.
Proof.
  rewrite ltb_spec. unfold SFltb.
  destruct (SFcompare (Prim2SF x) (Prim2SF y)) as [[ | | ]|]; split; congruence.
Qed.

Lemma ltb_irrefl (x : float) : PrimFloat.ltb x x = false.
Proof.
  destruct (PrimFloat.ltb x x) eqn:E; [|reflexivity].
  apply ltb_SF in E. pose proof (SFcompare_antisym _ _ _ E) as A. rewrite E in A. discriminate.
Qed.

Lemma ltb_trans (a b c : float) :
  PrimFloat.ltb a b = true -> PrimFloat.ltb b c = true -> PrimFloat.ltb a c = true.
Proof.
  rewrite !ltb_SF. intros H1 H2.
  pose proof (SFcompare_antisym _ _ _ H2) as A. simpl in A.
  apply (SFcompare_lt_le_trans _ _ _ Gt H1 A). discriminate.
Qed.

Lemma ltb_nan_l (x y : float) : PrimFloat.is_nan x = true -> PrimFloat.ltb x y = false.
Proof.
  intros N. apply is_nan_SF in N. destruct (PrimFloat.ltb x y) eqn:E; [|reflexivity].
  apply ltb_SF in E. rewrite N in E. discriminate.
Qed.

Lemma ltb_nan_r (x y : float) : PrimFloat.is_nan y = true -> PrimFloat.ltb x y = false.
Proof.
  intros N. apply is_nan_SF in N. destruct (PrimFloat.ltb x y) eqn:E; [|reflexivity].
  apply ltb_SF in E. rewrite N in E. destruct (Prim2SF x); discriminate.
Qed.

(** Among numbers, what is not below [b] is above everything below [b]. *)
Lemma ltb_negtrans (a b c : float) :
  PrimFloat.is_nan a = false -> PrimFloat.is_nan b = false ->
  PrimFloat.ltb a b = false -> PrimFloat.ltb c b = true -> PrimFloat.ltb c a = true.
Proof.
  intros Na Nb H1 H2. apply is_nan_false_SF in Na, Nb. apply ltb_SF in H2. apply ltb_SF.
  destruct (SFcompare (Prim2SF a) (Prim2SF b)) as [x|] eqn:E.
  - apply (SFcompare_lt_le_trans _ _ _ x H2 E). intros ->.
    apply ltb_SF in E. congruence.
  - apply SFcompare_None in E. tauto.
Qed.

(** ** Distances are never negative

    The distance of an axis is a difference, or the product of an absolute
    value by a positive constant: never negative, and NaN exactly when
    the value is. *)

Lemma nonneg_not_nan (x : float) : nonneg x -> PrimFloat.is_nan x = false.
Proof.
  unfold nonneg. intros H. apply is_nan_false_SF. intros E. rewrite E in H. exact H.
Qed.

Lemma add_nonneg (x y : float) : nonneg x -> nonneg y -> nonneg (x + y)%float.
Proof. unfold nonneg. rewrite add_spec. apply SFadd_nonneg. Qed.

Lemma add_nan_l (x y : float) :
  PrimFloat.is_nan x = true -> PrimFloat.is_nan (x + y)%float = true.
Proof. rewrite !is_nan_SF, add_spec. intros ->. reflexivity. Qed.

Lemma add_nan_r (x y : float) :
  PrimFloat.is_nan y = true -> PrimFloat.is_nan (x + y)%float = true.
Proof. rewrite !is_nan_SF, add_spec. intros ->. destruct (Prim2SF x); reflexivity. Qed.

(** Adding to [0] changes neither a NaN nor a number that is not negative. *)
Lemma zero_add (x : float) :
  nonneg x \/ PrimFloat.is_nan x = true -> (0 + x)%float = x.
Proof.
  intros H. apply Prim2SF_inj. rewrite add_spec.
  change (Prim2SF 0) with (S754_zero false).
  destruct H as [H|H].
  - unfold nonneg in H. destruct (Prim2SF x) as [s|s| |s m e]; simpl in *; subst; reflexivity.
  - apply is_nan_SF in H. rewrite H. reflexivity.
Qed.

Lemma clampDist_nan (v lo hi : float) :
  PrimFloat.is_nan v = true -> PrimFloat.is_nan (F64.clampDist (Some v) lo hi) = true.
Proof.
  intros N. unfold F64.clampDist.
  rewrite (ltb_nan_l v lo N), (ltb_nan_r hi v N).
  apply is_nan_SF in N. apply is_nan_SF.
  rewrite mul_spec, abs_spec, sub_spec, N. reflexivity.
Qed.

Lemma clampDist_nonneg (v lo hi : float) :
  PrimFloat.is_nan v = false ->
  SFfinite (Prim2SF (F64.mid lo hi)) = true ->
  nonneg (F64.clampDist (Some v) lo hi).
Proof.
  intros N M. unfold F64.clampDist, nonneg.
  destruct (PrimFloat.ltb v lo) eqn:E1.
  - rewrite sub_spec. apply SFsub_lt_nonneg; try apply Prim2SF_valid. now apply ltb_SF.
  - destruct (PrimFloat.ltb hi v) eqn:E2.
    + rewrite sub_spec. apply SFsub_lt_nonneg; try apply Prim2SF_valid. now apply ltb_SF.
    + rewrite mul_spec, abs_spec, sub_spec.
      change (Prim2SF 0.1) with (S754_finite false 7205759403792794 (-56)).
      apply SFmul_nonneg. apply SFabs_nonneg. apply SFsub_not_nan; [|exact M].
      now apply is_nan_false_SF.
Qed.

Lemma clampDist_absent (lo hi : float) : nonneg (F64.clampDist None lo hi).
Proof. reflexivity. Qed.

(** * The chart loop over doubles *)

Lemma rowScore64_spec (b w h : option float) (s : F64.SizeRow) :
  F64.rowScore b w h s = Spec64.specScore b w h s.
Proof.
  unfold F64.rowScore, Spec64.specScore, incr, F64.inRange, Spec64.specCounts. simpl.
  destruct b as [x|], w as [y|], h as [z|]; simpl;
    repeat match goal with
           | |- context [PrimFloat.leb ?p ?q] => destruct (PrimFloat.leb p q); simpl
           end; reflexivity.
Qed.

Lemma clampDist64_spec (val : option float) (r : F64.Range) :
  F64.clampDist val (fst r) (snd r) = Spec64.specAxisDist val r.
Proof. reflexivity. Qed.

Lemma rowDistApi_spec (b w h : option float) (s : F64.SizeRow) :
  F64.rowDistApi b w h s = Spec64.specDist b w h s.
Proof. reflexivity. Qed.

Lemma clampDist_cases (val : option float) (lo hi : float) :
  SFfinite (Prim2SF (F64.mid lo hi)) = true ->
  if Spec64.isNaN val then PrimFloat.is_nan (F64.clampDist val lo hi) = true
  else nonneg (F64.clampDist val lo hi).
Proof.
  intros M. destruct val as [v|]; simpl Spec64.isNaN.
  - destruct (PrimFloat.is_nan v) eqn:E.
    + now apply clampDist_nan.
    + now apply clampDist_nonneg.
  - apply clampDist_absent.
Qed.

(** The distance of a row is NaN when a present measurement is NaN, and
    otherwise a number that is not negative: the same case for every row. *)
Lemma rowDistApi_cases (b w h : option float) (s : F64.SizeRow) :
  Spec64.midsFinite s = true ->
  if Spec64.isNaN b || Spec64.isNaN w || Spec64.isNaN h
  then PrimFloat.is_nan (F64.rowDistApi b w h s) = true
  else nonneg (F64.rowDistApi b w h s).
Proof.
  unfold Spec64.midsFinite. rewrite !andb_true_iff. intros [[M1 M2] M3].
  pose proof (clampDist_cases b _ _ M1) as C1.
  pose proof (clampDist_cases w _ _ M2) as C2.
  pose proof (clampDist_cases h _ _ M3) as C3.
  unfold F64.rowDistApi.
  destruct (Spec64.isNaN b); simpl orb.
  { apply add_nan_l, add_nan_l, C1. }
  destruct (Spec64.isNaN w); simpl orb.
  { apply add_nan_l, add_nan_r, C2. }
  destruct (Spec64.isNaN h).
  { apply add_nan_r, C3. }
  apply add_nonneg; [apply add_nonneg|]; assumption.
Qed.

(** [App] starts its sum from 0, which changes nothing. *)
Lemma rowDistApp_Api (b w h : option float) (s : F64.SizeRow) :
  Spec64.midsFinite s = true -> F64.rowDistApp b w h s = F64.rowDistApi b w h s.
Proof.
  intros M. unfold F64.rowDistApp, F64.rowDistApi. rewrite zero_add; [reflexivity|].
  apply andb_true_iff in M as [M _]. apply andb_true_iff in M as [M _].
  pose proof (clampDist_cases b _ _ M) as C. destruct (Spec64.isNaN b); auto.
Qed.

Lemma replaces64_true (bst cand : F64.Cand) :
  F64.replaces (Some bst) cand = true <->
  (F64.c_score bst < F64.c_score cand)%nat \/
  (F64.c_score cand = F64.c_score bst /\
   PrimFloat.ltb (F64.c_dist cand) (F64.c_dist bst) = true).
Proof.
  unfold F64.replaces.
  rewrite orb_true_iff, andb_true_iff, Nat.ltb_lt, Nat.eqb_eq. tauto.
Qed.

Lemma replaces64_false (bst cand : F64.Cand) :
  F64.replaces (Some bst) cand = false <->
  (F64.c_score cand <= F64.c_score bst)%nat /\
  (F64.c_score cand = F64.c_score bst ->
   PrimFloat.ltb (F64.c_dist cand) (F64.c_dist bst) = false).
Proof.
  unfold F64.replaces.
  rewrite orb_false_iff, andb_false_iff, Nat.ltb_ge, Nat.eqb_neq.
  destruct (Nat.eq_dec (F64.c_score cand) (F64.c_score bst)); intuition congruence.
Qed.

Lemma chartLoop64_snoc (score : F64.SizeRow -> nat) (dist : F64.SizeRow -> float)
    (chart : list F64.SizeRow) (s : F64.SizeRow) :
  F64.chartLoop score dist (chart ++ [s])
  = F64.chartStep score dist (F64.chartLoop score dist chart) s.
Proof. unfold F64.chartLoop. now rewrite fold_left_app. Qed.

Lemma Ordered_app (dist : F64.SizeRow -> float) (chart : list F64.SizeRow) (s : F64.SizeRow) :
  Spec64.Ordered dist (chart ++ [s]) -> Spec64.Ordered dist chart.
Proof.
  intros H r r' r'' I1 I2 I3. apply H; apply in_or_app; left; assumption.
Qed.

(** The loop keeps, of the rows seen so far, the one the rule selects. *)
Lemma chartLoop64_selects (score : F64.SizeRow -> nat) (dist : F64.SizeRow -> float)
    (chart : list F64.SizeRow) :
  chart <> [] -> Spec64.Ordered dist chart ->
  exists i r,
    Spec64.Selects score dist chart i r /\
    F64.chartLoop score dist chart = Some (F64.candOf score dist r).
Proof.
  induction chart as [|s chart IH] using rev_ind; [congruence|]. intros _ Ho.
  rewrite chartLoop64_snoc.
  destruct chart as [|s0 chart0].
  - exists 0%nat, s. split; [|reflexivity].
    split; [reflexivity|]. intros j r' Hj.
    destruct j as [|j]; simpl in Hj.
    + injection Hj as <-. split; [lia|]. split; [intros _; apply ltb_irrefl|intros; lia].
    + destruct j; discriminate.
  - destruct IH as (i & r & (Hi & Hbest) & Hloop); [discriminate|now apply Ordered_app in Ho|].
    set (chart := s0 :: chart0) in *.
    assert (Hlt : (i < List.length chart)%nat) by (apply nth_error_Some; congruence).
    assert (Ir : In r (chart ++ [s])) by (apply in_or_app; left; now apply nth_error_In in Hi).
    assert (Is : In s (chart ++ [s])) by (apply in_or_app; right; now left).
    rewrite Hloop. unfold F64.chartStep.
    destruct (F64.replaces (Some (F64.candOf score dist r)) (F64.candOf score dist s)) eqn:E.
    + apply replaces64_true in E. cbn [F64.candOf F64.c_score F64.c_dist] in E.
      exists (List.length chart), s. split; [|reflexivity]. split.
      * rewrite nth_error_app2, Nat.sub_diag by lia. reflexivity.
      * intros j r' Hj.
        destruct (Nat.lt_ge_cases j (List.length chart)) as [Hjl|Hjl].
        -- rewrite nth_error_app1 in Hj by assumption.
           assert (Ir' : In r' (chart ++ [s]))
             by (apply in_or_app; left; now apply nth_error_In in Hj).
           destruct (Hbest j r' Hj) as (Hs & Hd & _).
           destruct E as [E|[E1 E2]].
           ++ split; [lia|split; intros; exfalso; lia].
           ++ split; [lia|]. split.
              ** intro Heq.
                 destruct (PrimFloat.ltb (dist r') (dist s)) eqn:L; [|reflexivity].
                 rewrite (ltb_trans _ _ _ L E2) in Hd. apply Hd. lia.
              ** intros Heq _. apply (Ho r' r s Ir' Ir Is); [apply Hd; lia|exact E2].
        -- rewrite nth_error_app2 in Hj by assumption.
           destruct (j - List.length chart)%nat as [|k] eqn:Ek; simpl in Hj.
           ++ injection Hj as <-. split; [lia|].
              split; [intros _; apply ltb_irrefl|intros; lia].
           ++ destruct k; discriminate.
    + apply replaces64_false in E. cbn [F64.candOf F64.c_score F64.c_dist] in E.
      destruct E as [E1 E2].
      exists i, r. split; [|reflexivity]. split.
      * rewrite nth_error_app1 by assumption. exact Hi.
      * intros j r' Hj.
        destruct (Nat.lt_ge_cases j (List.length chart)) as [Hjl|Hjl].
        -- rewrite nth_error_app1 in Hj by assumption. now apply Hbest.
        -- rewrite nth_error_app2 in Hj by assumption.
           destruct (j - List.length chart)%nat as [|k] eqn:Ek; simpl in Hj.
           ++ injection Hj as <-. split; [exact E1|]. split; [exact E2|intros; lia].
           ++ destruct k; discriminate.
Qed.

(** The rule selects one row: two selected positions coincide. *)
Lemma Selects64_unique (score : F64.SizeRow -> nat) (dist : F64.SizeRow -> float)
    (chart : list F64.SizeRow) (i j : nat) (r r' : F64.SizeRow) :
  Spec64.Selects score dist chart i r -> Spec64.Selects score dist chart j r' ->
  i = j /\ r = r'.
Proof.
  intros [Hi Hbi] [Hj Hbj].
  destruct (Hbi j r' Hj) as (S1 & D1 & E1).
  destruct (Hbj i r Hi) as (S2 & D2 & E2).
  assert (Hs : score r' = score r) by lia.
  assert (Hij : i = j).
  { destruct (Nat.lt_trichotomy i j) as [L|[L|L]]; [|exact L|]; exfalso.
    - specialize (E2 (eq_sym Hs) L). specialize (D1 Hs). congruence.
    - specialize (E1 Hs L). specialize (D2 (eq_sym Hs)). congruence. }
  split; [exact Hij|]. subst j. congruence.
Qed.

(** Over a chart whose midpoints are finite the distances are ordered. *)
Lemma rowDistApi_Ordered (b w h : option float) (chart : list F64.SizeRow) :
  forallb Spec64.midsFinite chart = true -> Spec64.Ordered (F64.rowDistApi b w h) chart.
Proof.
  intros M r r' r'' I1 I2 I3 H1 H2. rewrite forallb_forall in M.
  pose proof (rowDistApi_cases b w h r (M r I1)) as C1.
  pose proof (rowDistApi_cases b w h r' (M r' I2)) as C2.
  destruct (Spec64.isNaN b || Spec64.isNaN w || Spec64.isNaN h).
  - rewrite (ltb_nan_r _ _ C2) in H2. discriminate.
  - apply (ltb_negtrans _ _ _ (nonneg_not_nan _ C1) (nonneg_not_nan _ C2) H1 H2).
Qed.

(** * Chart lookup over doubles (C1, C9) *)

Lemma chart64_mids : forallb Spec64.midsFinite F64.SIZE_CHART = true.
Proof. vm_compute. reflexivity. Qed.

Lemma chartLoop64_ext (score : F64.SizeRow -> nat) (dist dist' : F64.SizeRow -> float)
    (chart : list F64.SizeRow) :
  (forall r, In r chart -> dist r = dist' r) ->
  F64.chartLoop score dist chart = F64.chartLoop score dist' chart.
Proof.
  unfold F64.chartLoop. generalize (@None F64.Cand).
  induction chart as [|s chart IH]; intros best H; [reflexivity|].
  cbn [fold_left]. unfold F64.chartStep at 2 4, F64.candOf.
  rewrite (H s) by now left. apply IH. intros r Hr. apply H. now right.
Qed.

Lemma chart64_labels_truthy (r : F64.SizeRow) :
  In r F64.SIZE_CHART -> Js.truthy_str (Some (F64.label r)) = true.
Proof.
  simpl. intros [<-|[<-|[<-|[<-|[<-|[]]]]]]; reflexivity.
Qed.

Lemma Selects64_spec (b w h : option float) (chart : list F64.SizeRow) (i : nat)
    (r : F64.SizeRow) :
  Spec64.Selects (F64.rowScore b w h) (F64.rowDistApi b w h) chart i r ->
  Spec64.Selects (Spec64.specScore b w h) (Spec64.specDist b w h) chart i r.
Proof.
  intros [Hi Hbest]. split; [exact Hi|]. intros j r' Hj.
  destruct (Hbest j r' Hj) as (Hs & Hd & He).
  rewrite <- !rowScore64_spec. auto.
Qed.

(** The label both loops end with, over the chart of the routes. *)
Lemma chart64_lookup (b w h : option float) :
  exists i r,
    Spec64.Selects (Spec64.specScore b w h) (Spec64.specDist b w h) F64.SIZE_CHART i r /\
    F64.labelOrNull
      (F64.chartLoop (F64.rowScore b w h) (F64.rowDistApp b w h) F64.SIZE_CHART)
    = Some (F64.label r) /\
    F64.labelOrNull
      (F64.chartLoop (F64.rowScore b w h) (F64.rowDistApi b w h) F64.SIZE_CHART)
    = Some (F64.label r).
Proof.
  destruct (chartLoop64_selects (F64.rowScore b w h) (F64.rowDistApi b w h) F64.SIZE_CHART)
    as (i & r & Hsel & Hloop); [discriminate|apply rowDistApi_Ordered, chart64_mids|].
  exists i, r. split; [now apply Selects64_spec|].
  assert (E : F64.chartLoop (F64.rowScore b w h) (F64.rowDistApp b w h) F64.SIZE_CHART
              = F64.chartLoop (F64.rowScore b w h) (F64.rowDistApi b w h) F64.SIZE_CHART).
  { apply chartLoop64_ext. intros r0 Hr0. apply rowDistApp_Api.
    pose proof chart64_mids as M. rewrite forallb_forall in M. now apply M. }
  rewrite E, Hloop. unfold F64.labelOrNull. cbn [F64.candOf F64.c_label].
  rewrite chart64_labels_truthy; [split; reflexivity|].
  destruct Hsel as [Hi _]. now apply nth_error_In in Hi.
Qed.

Lemma App64_pick_eq (b w h : option float) :
  App64.pickFromChart b w h =
  if Spec64.allFalsy b w h then None
  else F64.labelOrNull
         (F64.chartLoop (F64.rowScore b w h) (F64.rowDistApp b w h) F64.SIZE_CHART).
Proof. reflexivity. Qed.

Lemma Api64_pick_eq (b w h : option float) :
  Api64.pickFromChart b w h =
  if Spec64.allAbsent b w h then None
  else F64.labelOrNull
         (F64.chartLoop (F64.rowScore b w h) (F64.rowDistApi b w h) F64.SIZE_CHART).
Proof. destruct b, w, h; reflexivity. Qed.

Lemma allAbsent64_true (b w h : option float) :
  Spec64.allAbsent b w h = true <-> b = None /\ w = None /\ h = None.
Proof.
  destruct b, w, h; simpl; split; try discriminate; try tauto;
    intros (H1 & H2 & H3); discriminate.
Qed.

Lemma truthy64_false (v : option float) :
  F64.truthy_num v = false <-> Spec64.Falsy v.
Proof.
  unfold Spec64.Falsy. destruct v as [x|]; simpl.
  - rewrite andb_false_iff, !negb_false_iff. split.
    + intros H. right. exists x. split; [reflexivity|exact H].
    + intros [H|(y & Hy & H)]; [discriminate|]. injection Hy as <-. exact H.
  - split; auto.
Qed.

Lemma truthy64_true (v : option float) :
  F64.truthy_num v = true <->
  exists x, v = Some x /\ PrimFloat.eqb x 0 = false /\ PrimFloat.is_nan x = false.
Proof.
  destruct v as [x|]; simpl.
  - rewrite andb_true_iff, !negb_true_iff. split.
    + intros H. exists x. split; [reflexivity|exact H].
    + intros (y & Hy & H). injection Hy as <-. exact H.
  - split; [discriminate|]. intros (y & Hy & _). discriminate.
Qed.

Lemma allFalsy64_true (b w h : option float) :
  Spec64.allFalsy b w h = true <-> Spec64.Falsy b /\ Spec64.Falsy w /\ Spec64.Falsy h.
Proof.
  unfold Spec64.allFalsy.
  rewrite !andb_true_iff, !negb_true_iff, !truthy64_false. tauto.
Qed.

(** Both lookups end with the label of the one selected row, unless their
    guard answers null first. *)
Lemma pick64_selected (b w h : option float) :
  exists i r,
    Spec64.Selects (Spec64.specScore b w h) (Spec64.specDist b w h) F64.SIZE_CHART i r /\
    App64.pickFromChart b w h
    = (if Spec64.allFalsy b w h then None else Some (F64.label r)) /\
    Api64.pickFromChart b w h
    = (if Spec64.allAbsent b w h then None else Some (F64.label r)).
Proof.
  destruct (chart64_lookup b w h) as (i & r & Hsel & Happ & Hapi).
  exists i, r. now rewrite App64_pick_eq, Api64_pick_eq, Happ, Hapi.
Qed.

(** C1 (amended).  Over doubles, as the engine computes: [pickFromChart]
    returns null exactly when every one of bust, waist, hip is absent or
    falsy (zero or NaN) in [src/app/size/recommend/route.ts], whose guard
    is [!bust_cm && !waist_cm && !hip_cm], and exactly when all three are
    absent in [src/app/api/size/recommend/route.ts]; otherwise it returns
    the label of the one chart row that the rule selects: the highest
    score (count of present measurements inside the row's inclusive
    range), ties broken by the lowest distance (per axis 0 if absent, low
    - value below, value - high above, |value - midpoint| * 0.1 inside,
    the three added from left to right, every operation rounded to a
    double and distances compared as doubles), remaining ties by the
    earliest row in table order. *)
Theorem pickFromChart_selection (b w h : option float) :
  map F64.label F64.SIZE_CHART = ["S"; "M"; "L"; "XL"; "XXL"] /\
  (App64.pickFromChart b w h = None
   <-> Spec64.Falsy b /\ Spec64.Falsy w /\ Spec64.Falsy h) /\
  (Api64.pickFromChart b w h = None <-> b = None /\ w = None /\ h = None) /\
  exists i r,
    Spec64.Selects (Spec64.specScore b w h) (Spec64.specDist b w h) F64.SIZE_CHART i r /\
    (forall j r',
       Spec64.Selects (Spec64.specScore b w h) (Spec64.specDist b w h) F64.SIZE_CHART j r' ->
       j = i /\ r' = r) /\
    App64.pickFromChart b w h
    = (if Spec64.allFalsy b w h then None else Some (F64.label r)) /\
    Api64.pickFromChart b w h
    = (if Spec64.allAbsent b w h then None else Some (F64.label r)).
Proof.
  destruct (pick64_selected b w h) as (i & r & Hsel & Happ & Hapi).
  rewrite <- allAbsent64_true, <- allFalsy64_true.
  split; [reflexivity|].
  split; [|split].
  - rewrite Happ. destruct (Spec64.allFalsy b w h); split; congruence.
  - rewrite Hapi. destruct (Spec64.allAbsent b w h); split; congruence.
  - exists i, r. split; [exact Hsel|]. split; [|split; assumption].
    intros j r' Hj. exact (Selects64_unique _ _ _ _ _ _ _ Hj Hsel).
Qed.

(** C1, as stated, fails in [src/app/size/recommend/route.ts]: a bust of 0
    is present, yet the lookup returns null. *)
Lemma pickFromChart_zero_bust_is_null :
  (Some 0%float : option float) <> None /\ App64.pickFromChart (Some 0%float) None None = None.
Proof. split; [discriminate|reflexivity]. Qed.

(** Rounding decides.  For a bust of 82.53 and a waist of 74.43 the rows S
    and M score 1 each and their distances, 4.4770000000000065 and
    4.4769999999999985 as doubles, differ in the last places only: the
    lookup answers M.  Far above the chart the differences [value - high]
    round to the same double for several rows and the earliest of them
    wins. *)
Example pick_close_call :
  App64.pickFromChart (Some 82.53%float) (Some 74.43%float) None = Some "M"
  /\ Api64.pickFromChart (Some 82.53%float) (Some 74.43%float) None = Some "M"
  /\ App64.pickFromChart (Some 1e17%float) None None = Some "XL"
  /\ App64.pickFromChart (Some 1e20%float) None None = Some "S"
  /\ App64.pickFromChart (Some 200%float) None None = Some "XXL".
Proof. repeat split; vm_compute; reflexivity. Qed.

(** ** No measurement reaching the lookup is falsy *)

(** A double is truthy when it is an infinity or finite and not a zero. *)
Lemma truthy64_SF (y : float) :
  F64.truthy_num (Some y) = true <->
  match Prim2SF y with
  | S754_finite _ _ _ | S754_infinity _ => True
  | _ => False
  end.
Proof.
  rewrite truthy64_true. split.
  - intros (x & [= <-] & E & N). apply is_nan_false_SF in N.
    rewrite eqb_spec in E. change (Prim2SF 0) with (S754_zero false) in E.
    destruct (Prim2SF y) as [s|s| |s m e]; try exact I.
    + vm_compute in E. discriminate.
    + exfalso. apply N. reflexivity.
  - intros H. exists y. split; [reflexivity|]. rewrite eqb_spec.
    change (Prim2SF 0) with (S754_zero false). split.
    + destruct (Prim2SF y) as [s|s| |s m e]; try contradiction; destruct s; reflexivity.
    + apply is_nan_false_SF. destruct (Prim2SF y); try contradiction; discriminate.
Qed.

Lemma SFmag_least (s : bool) (m : positive) (e : Z) :
  valid_binary (S754_finite s m e) = true -> eta <= SFmag (S754_finite s m e).
Proof.
  intros V. destruct (valid_finite _ _ _ V) as (B & _ & _).
  unfold SFmag, eta. apply Qle_trans with (twoPow e); [apply twoPow_le; lia|].
  pose proof (twoPow_pos e) as P.
  assert (1 * twoPow e <= inject_Z (Z.pos m) * twoPow e).
  { apply Qmult_le_compat_r; [rewrite <- (Zle_Qle 1); lia|apply Qlt_le_weak, P]. }
  lra.
Qed.

(** Inches times 2.54 are truthy when the inches are. *)
Lemma inToCm_truthy (x : float) :
  F64.truthy_num (Some x) = true -> F64.truthy_num (Some (F64.inToCm x)) = true.
Proof.
  rewrite !truthy64_SF. unfold F64.inToCm. intros H.
  assert (Ec : Prim2SF 2.54 = S754_finite false 5719571526760530 (-51)) by reflexivity.
  destruct (Prim2SF x) as [s|s| |s m e] eqn:Ex; try contradiction.
  - rewrite mul_spec, Ex, Ec. exact I.
  - pose proof (mul_approx x 2.54 s false m _ e _ Ex Ec) as A.
    pose proof (Prim2SF_valid x) as V. rewrite Ex in V.
    pose proof (SFmag_least _ _ _ V) as L. rewrite Ex, Ec in A.
    assert (C : 2 < SFmag (S754_finite false 5719571526760530 (-51))) by reflexivity.
    pose proof eta_pos as P.
    destruct (Prim2SF (x * 2.54)) as [s'|s'| |s' m' e']; cbn [Approx] in A; try exact I.
    + destruct A as [_ A]. exfalso.
      set (X := SFmag (S754_finite s m e)) in *.
      set (K := SFmag (S754_finite false 5719571526760530 (-51))) in *.
      assert (X * 2 < X * K) by (apply Qmult_lt_l; lra). lra.
    + contradiction.
Qed.

Lemma normField64_truthy (unit : string) (v : option float) (y : float) :
  F64.normField unit F64.inToCm (fun x => x) v = Some y -> F64.truthy_num (Some y) = true.
Proof.
  unfold F64.normField. destruct (F64.truthy_num v) eqn:T; [|discriminate].
  destruct v as [x|]; [|discriminate]. intros [= <-].
  destruct (String.eqb unit "imperial"); [now apply inToCm_truthy|exact T].
Qed.

Lemma bands_has (n : Z) : (0 <= n <= 99)%Z -> In n Spec64.bands.
Proof.
  intros H. unfold Spec64.bands. rewrite <- (Z2Nat.id n) by lia.
  apply in_map, in_seq. lia.
Qed.

Lemma cupIncrement64_known (cup : string) : In (F64.cupIncrement cup) Spec64.increments.
Proof.
  unfold F64.cupIncrement, F64.cupMap, F64.lookup.
  repeat match goal with
         | |- context [String.eqb ?k cup] => destruct (String.eqb k cup)
         end; vm_compute; tauto.
Qed.

(** Every estimate a band and a cup can give is truthy. *)
Lemma estimates_truthy :
  forallb (fun n => forallb (fun inc =>
             F64.truthy_num (Some (F64.ofZ n * 2.54 + inc * 2.54)%float))
             Spec64.increments) Spec64.bands = true.
Proof. vm_compute. reflexivity. Qed.

Lemma matchBra_band_range (s m1 m2 : string) :
  matchBra s = Some (m1, m2) -> (0 <= parseInt10 m1 <= 99)%Z.
Proof.
  intros H. apply matchBra_Some in H.
  destruct H as (d1 & d2 & _ & H1 & H2 & _ & _ & ->).
  pose proof (digitVal_range _ H1). pose proof (digitVal_range _ H2). lia.
Qed.

Lemma parseBra64_band (bra : option string) (band : float) (cup : option string) :
  F64.parseBra bra = (Some band, cup) ->
  exists n, In n Spec64.bands /\ band = F64.ofZ n.
Proof.
  unfold F64.parseBra. destruct bra as [s|]; [|discriminate].
  destruct (negb (Js.truthy_str (Some s))); [discriminate|].
  destruct (matchBra _) as [[m1 m2]|] eqn:E; [|discriminate].
  intros [= <- _]. exists (parseInt10 m1). split; [|reflexivity].
  apply bands_has. exact (matchBra_band_range _ _ _ E).
Qed.

Lemma estimateBust64_truthy (bust_cm band : option float) (cup : option string) (y : float) :
  (forall x, bust_cm = Some x -> F64.truthy_num (Some x) = true) ->
  (forall x, band = Some x -> exists n, In n Spec64.bands /\ x = F64.ofZ n) ->
  F64.estimateBust bust_cm band cup = Some y -> F64.truthy_num (Some y) = true.
Proof.
  intros Hb Hband. unfold F64.estimateBust.
  destruct (negb (F64.truthy_num bust_cm) && F64.truthy_num band && Js.truthy_str cup).
  - destruct band as [x|]; [|now apply Hb]. destruct cup as [c|]; [|now apply Hb].
    intros [= <-]. destruct (Hband x eq_refl) as (n & Hn & ->).
    pose proof estimates_truthy as E. rewrite forallb_forall in E.
    specialize (E n Hn). rewrite forallb_forall in E.
    exact (E _ (cupIncrement64_known c)).
  - now apply Hb.
Qed.

Lemma App64_bustEst_truthy (body : F64.Body.t) (y : float) :
  App64.bustEst body = Some y -> F64.truthy_num (Some y) = true.
Proof.
  unfold App64.bustEst.
  destruct (F64.parseBra (F64.Body.bra body)) as [band cup] eqn:E.
  apply estimateBust64_truthy.
  - intros x. apply normField64_truthy.
  - intros x ->. exact (parseBra64_band _ _ _ E).
Qed.

Lemma App64_pick_total (b w h : option float) :
  Spec64.allFalsy b w h = false ->
  exists r, In r F64.SIZE_CHART /\ App64.pickFromChart b w h = Some (F64.label r).
Proof.
  intro Hf. destruct (pick64_selected b w h) as (i & r & Hsel & Happ & _).
  rewrite Hf in Happ. exists r. split; [|exact Happ].
  destruct Hsel as [Hi _]. now apply nth_error_In in Hi.
Qed.

Lemma truthy_of_present (v : option float) :
  v <> None -> (forall y, v = Some y -> F64.truthy_num (Some y) = true) ->
  F64.truthy_num v = true.
Proof. destruct v as [y|]; [auto|congruence]. Qed.

Lemma measured64_not_allFalsy (body : F64.Body.t) :
  Spec64.measured body ->
  Spec64.allFalsy (App64.bustEst body) (F64.waist_cm (App64.normalized body))
    (F64.hip_cm (App64.normalized body)) = false.
Proof.
  unfold Spec64.measured, Spec64.allFalsy. intros [H|[H|H]].
  - rewrite (truthy_of_present _ H (App64_bustEst_truthy body)). reflexivity.
  - rewrite (truthy_of_present _ H); [apply andb_false_iff; left; apply andb_false_r|].
    intros y. apply normField64_truthy.
  - rewrite (truthy_of_present _ H); [apply andb_false_r|].
    intros y. apply normField64_truthy.
Qed.

Lemma sizeByHW64_label (height_cm weight_kg : option float) (l : string) :
  F64.sizeByHW height_cm weight_kg = Some l -> In l sizeLabels.
Proof.
  unfold F64.sizeByHW.
  destruct (negb (F64.truthy_num height_cm) || negb (F64.truthy_num weight_kg));
    [discriminate|].
  destruct height_cm as [hh|], weight_kg as [ww|]; try discriminate.
  cbv zeta.
  repeat match goal with
         | |- context [PrimFloat.ltb ?p ?q] => destruct (PrimFloat.ltb p q)
         end; intros [= <-]; simpl; tauto.
Qed.

(** C9 (amended).  Over doubles: whenever at least one of bust, waist,
    hip is present and truthy (not zero, not NaN), [pickFromChart] returns
    the label of a chart row, also when the value lies inside no row's
    range; and in the handler, where no normalised measurement is ever
    falsy, as soon as the bust (measured, or estimated from the bra
    string), the waist or the hip is present the chart lookup answers the
    label of a row and the size is that label, whatever height and weight
    are; with none of the three present (the bra string, if any, being
    made of ASCII characters) the lookup answers null and the size is the
    one height and weight give, or "M". *)
Theorem chart_lookup_total :
  (forall (b w h : option float) (x : float),
     b = Some x \/ w = Some x \/ h = Some x ->
     F64.truthy_num (Some x) = true ->
     exists r, In r F64.SIZE_CHART /\ App64.pickFromChart b w h = Some (F64.label r)) /\
  (forall body : F64.Body.t,
     Spec64.measured body ->
     exists r, In r F64.SIZE_CHART /\
       App64.byChart body = Some (F64.label r) /\
       forall hh ww : option float,
         App64.byChart (F64.Body.withHW body hh ww) = Some (F64.label r) /\
         App64.sizeOf (F64.Body.withHW body hh ww) = F64.label r) /\
  (forall body : F64.Body.t,
     Spec64.asciiBra body = true ->
     ~ Spec64.measured body ->
     App64.byChart body = None /\
     App64.sizeOf body = match App64.byHW body with Some l => l | None => "M" end).
Proof.
  split; [|split].
  { intros b w h x Hx Ht. apply App64_pick_total.
    unfold Spec64.allFalsy.
    destruct Hx as [ -> | [ -> | -> ] ]; rewrite Ht; cbn [negb andb];
      [reflexivity|now rewrite andb_false_r|apply andb_false_r]. }
  { intros body Hm.
    destruct (App64_pick_total _ _ _ (measured64_not_allFalsy body Hm)) as (r & Hin & Hpick).
    exists r. split; [exact Hin|]. split; [exact Hpick|]. intros hh ww.
    assert (E : App64.byChart (F64.Body.withHW body hh ww) = Some (F64.label r)) by exact Hpick.
    split; [exact E|]. unfold App64.sizeOf. rewrite E.
    apply sizeOr_chart. now apply chart64_labels_truthy. }
  intros body _ Hn. unfold Spec64.measured in Hn.
  assert (Hb : App64.bustEst body = None) by (destruct (App64.bustEst body); [exfalso; apply Hn; left; discriminate|reflexivity]).
  assert (Hw : F64.waist_cm (App64.normalized body) = None)
    by (destruct (F64.waist_cm _); [exfalso; apply Hn; right; left; discriminate|reflexivity]).
  assert (Hh : F64.hip_cm (App64.normalized body) = None)
    by (destruct (F64.hip_cm _); [exfalso; apply Hn; right; right; discriminate|reflexivity]).
  assert (E : App64.byChart body = None) by (unfold App64.byChart; rewrite Hb, Hw, Hh; reflexivity).
  split; [exact E|]. unfold App64.sizeOf. rewrite E.
  destruct (App64.byHW body) as [l|] eqn:B; [|reflexivity].
  apply sizeByHW64_label in B.
  destruct B as [<-|[<-|[<-|[<-|[<-|[]]]]]]; reflexivity.
Qed.

(** C9, as stated, fails: waist and hip are present, with value 0, and the
    lookup of [src/app/size/recommend/route.ts] returns null. *)
Lemma pickFromChart_zero_waist_hip_is_null :
  (Some 0%float : option float) <> None
  /\ App64.pickFromChart None (Some 0%float) (Some 0%float) = None.
Proof. split; [discriminate|reflexivity]. Qed.

(** [chart_lookup_total] at a bust of 200 cm, inside no range, and at the
    payload [{ bra: "36C" }]. *)
Lemma chart_lookup_total_witness :
  (exists r, In r F64.SIZE_CHART
     /\ App64.pickFromChart (Some 200%float) None None = Some (F64.label r)) /\
  (exists r, In r F64.SIZE_CHART /\
     App64.byChart (Spec64.bodyBra "36C") = Some (F64.label r) /\
     forall hh ww : option float,
       App64.byChart (F64.Body.withHW (Spec64.bodyBra "36C") hh ww) = Some (F64.label r) /\
       App64.sizeOf (F64.Body.withHW (Spec64.bodyBra "36C") hh ww) = F64.label r).
Proof.
  split.
  - apply (proj1 chart_lookup_total (Some 200%float) None None 200%float).
    + left. reflexivity.
    + reflexivity.
  - apply (proj1 (proj2 chart_lookup_total)). left. vm_compute. discriminate.
Defined.

(** * Size fallback chain over doubles (C2) *)

Lemma sizeByHW64_spec (hh ww : float) :
  F64.sizeByHW (Some hh) (Some ww)
  = if F64.truthy_num (Some hh) && F64.truthy_num (Some ww)
    then Some (Spec64.specBmiLabel (Spec64.specBmi hh ww)) else None.
Proof.
  unfold F64.sizeByHW. rewrite <- negb_andb.
  destruct (F64.truthy_num (Some hh) && F64.truthy_num (Some ww)); [|reflexivity].
  cbn [negb]. unfold Spec64.specBmiLabel, Spec64.specBmi, F64.pow2. cbv zeta.
  repeat match goal with
         | |- context [PrimFloat.ltb ?p ?q] => destruct (PrimFloat.ltb p q)
         end; reflexivity.
Qed.

Lemma sizeByHW64_absent (height_cm weight_kg : option float) :
  height_cm = None \/ weight_kg = None -> F64.sizeByHW height_cm weight_kg = None.
Proof.
  intros [ -> | -> ]; unfold F64.sizeByHW; simpl; [reflexivity|].
  now rewrite orb_true_r.
Qed.

Lemma specBmiLabel_truthy (bmi : float) :
  Js.truthy_str (Some (Spec64.specBmiLabel bmi)) = true.
Proof.
  unfold Spec64.specBmiLabel.
  repeat match goal with
         | |- context [PrimFloat.ltb ?p ?q] => destruct (PrimFloat.ltb p q)
         end; reflexivity.
Qed.

Lemma sizeOr64_spec (byChart : option string) (height_cm weight_kg : option float) :
  (forall l, byChart = Some l -> Js.truthy_str (Some l) = true) ->
  sizeOr byChart (F64.sizeByHW height_cm weight_kg)
  = Spec64.specSize byChart height_cm weight_kg.
Proof.
  intro Hl. destruct byChart as [l|].
  - now apply sizeOr_chart, Hl.
  - unfold Spec64.specSize. destruct height_cm as [hh|], weight_kg as [ww|];
      try (rewrite sizeByHW64_absent by auto; reflexivity).
    rewrite sizeByHW64_spec.
    destruct (F64.truthy_num (Some hh) && F64.truthy_num (Some ww)); [|reflexivity].
    pose proof (specBmiLabel_truthy (Spec64.specBmi hh ww)) as T.
    destruct (Spec64.specBmiLabel (Spec64.specBmi hh ww)); [discriminate|reflexivity].
Qed.

Lemma App64_pick_truthy (b w h : option float) (l : string) :
  App64.pickFromChart b w h = Some l -> Js.truthy_str (Some l) = true.
Proof.
  destruct (pick64_selected b w h) as (i & r & [Hi _] & Happ & _).
  rewrite Happ. destruct (Spec64.allFalsy b w h); [discriminate|].
  intro H. injection H as <-. apply chart64_labels_truthy. now apply nth_error_In in Hi.
Qed.

(** C2 (amended).  Over doubles: the returned size is the chart lookup's
    label when it is non-null; otherwise, when height (cm) and weight (kg)
    are both present and truthy (not zero, not NaN), the BMI label with
    bmi = weight / (height/100)^2, every operation rounded to a double,
    and bmi<21 -> S, <24 -> M, <27 -> L, <31 -> XL, else XXL; otherwise
    exactly "M".  With no measurements, height 165 and weight 60 the size
    is "M"; with no inputs at all it is "M". *)
Theorem size_fallback_chain :
  (forall body : F64.Body.t,
     App64.sizeOf body
     = Spec64.specSize (App64.byChart body)
         (F64.height_cm (App64.normalized body)) (F64.weight_kg (App64.normalized body))) /\
  (forall hh ww : float,
     F64.sizeByHW (Some hh) (Some ww)
     = if F64.truthy_num (Some hh) && F64.truthy_num (Some ww)
       then Some (Spec64.specBmiLabel (Spec64.specBmi hh ww)) else None) /\
  (App64.byChart (Spec64.bodyHW 165 60) = None /\
   App64.byHW (Spec64.bodyHW 165 60) = Some "M" /\
   App64.sizeOf (Spec64.bodyHW 165 60) = "M") /\
  (App64.byChart F64.Body.empty = None /\
   App64.byHW F64.Body.empty = None /\
   App64.sizeOf F64.Body.empty = "M") /\
  (F64.sizeByHW (Some 160%float) (Some 53.76%float) = Some "S" /\
   F64.sizeByHW (Some 170%float) (Some 60.69%float) = Some "M").
Proof.
  split; [|split; [exact sizeByHW64_spec|repeat split]].
  intros body. unfold App64.sizeOf, App64.byHW.
  apply sizeOr64_spec. intros l. apply App64_pick_truthy.
Qed.

(** C2, as stated, fails: for [{ height: 165, weight: 0.4 }] the weight is
    present, it normalises to 0 kg, the BMI 0 would give "S", and the
    handler answers "M". *)
Lemma size_of_zero_weight_is_M :
  App64.byChart (Spec64.bodyHW 165 0.4) = None /\
  F64.height_cm (App64.normalized (Spec64.bodyHW 165 0.4)) = Some 165%float /\
  F64.weight_kg (App64.normalized (Spec64.bodyHW 165 0.4)) = Some 0%float /\
  Spec64.statedSize (App64.byChart (Spec64.bodyHW 165 0.4))
    (F64.height_cm (App64.normalized (Spec64.bodyHW 165 0.4)))
    (F64.weight_kg (App64.normalized (Spec64.bodyHW 165 0.4))) = "S" /\
  App64.sizeOf (Spec64.bodyHW 165 0.4) = "M".
Proof. repeat split. Qed.

(** * Normalisation over doubles (C5) *)









(** * Bra string over doubles (C6) *)

Lemma parseBra64_pattern (bra : string) (band : Z) (cup : string) :
  BraPattern (cleanBra bra) band cup ->
  F64.parseBra (Some bra) = (Some (F64.ofZ band), Some cup).
Proof.
  intro Hp. destruct (matchBra_pattern _ _ _ Hp) as (m1 & Hm & Hband).
  unfold F64.parseBra. destruct bra as [|c bra].
  - destruct Hp as (d1 & d2 & Hs & _). discriminate Hs.
  - cbn [Js.truthy_str negb]. unfold cleanBra in Hm. now rewrite Hm, Hband.
Qed.

Lemma parseBra64_no_pattern (bra : string) :
  (forall band cup, ~ BraPattern (cleanBra bra) band cup) ->
  F64.parseBra (Some bra) = (None, None).
Proof.
  intro Hn. unfold F64.parseBra.
  destruct (negb (Js.truthy_str (Some bra))); [reflexivity|].
  destruct (matchBra (toUpperCase (stripSpaces bra))) as [[m1 m2]|] eqn:E; [|reflexivity].
  apply matchBra_Some in E. exfalso. exact (Hn _ _ E).
Qed.

Lemma cupIncrement64_spec (cup : string) :
  F64.cupIncrement cup = Spec64.specCupIncrement cup.
Proof.
  unfold F64.cupIncrement, Spec64.specCupIncrement, F64.cupMap, F64.lookup.
  rewrite !(String.eqb_sym cup).
  repeat match goal with
         | |- context [String.eqb ?k cup] => destruct (String.eqb k cup)
         end; reflexivity.
Qed.

Lemma pattern_band_range (s : string) (band : Z) (cup : string) :
  BraPattern s band cup -> (0 <= band <= 99)%Z.
Proof.
  intros (d1 & d2 & _ & H1 & H2 & _ & _ & ->).
  pose proof (digitVal_range _ H1). pose proof (digitVal_range _ H2). lia.
Qed.

Lemma bands_truthy :
  forallb (fun n => (n =? 0)%Z || F64.truthy_num (Some (F64.ofZ n))) Spec64.bands = true.
Proof. vm_compute. reflexivity. Qed.

Lemma truthy64_band (band : Z) :
  (0 <= band <= 99)%Z -> band <> 0%Z -> F64.truthy_num (Some (F64.ofZ band)) = true.
Proof.
  intros R N. pose proof bands_truthy as B. rewrite forallb_forall in B.
  specialize (B band (bands_has band R)). apply orb_true_iff in B.
  destruct B as [B|B]; [apply Z.eqb_eq in B; contradiction|exact B].
Qed.

(** C6 (amended).  Over doubles: when no bust measurement is otherwise
    derived and the bra string, after stripping whitespace and
    uppercasing, is two digits followed by one or more letters, [parseBra]
    yields that band and cup, and, for a band other than 00, the estimated
    bust is band * 2.54 + cupIncrement * 2.54 with A=2.5, B=5, C=7.5,
    D=10, DD=12.5, E=12.5, F=15 and 7.5 for any other cup; the chart
    lookup classifies that value.  For "36C": band 36, cup "C", estimate
    36*2.54 + 7.5*2.54, which is 110.49 up to rounding, classified "XXL".
    A bra string of ASCII characters that does not match the pattern
    yields no band and no cup and leaves the bust as it was. *)
Theorem bra_bust_estimate :
  (forall (body : F64.Body.t) (bra : string) (band : Z) (cup : string),
     F64.Body.bra body = Some bra ->
     F64.bust_cm (App64.normalized body) = None ->
     BraPattern (cleanBra bra) band cup ->
     band <> 0%Z ->
     F64.parseBra (Some bra) = (Some (F64.ofZ band), Some cup) /\
     App64.bustEst body = Some (Spec64.specEstimate band cup) /\
     App64.byChart body
     = App64.pickFromChart (Some (Spec64.specEstimate band cup))
         (F64.waist_cm (App64.normalized body)) (F64.hip_cm (App64.normalized body))) /\
  (forall (body : F64.Body.t) (bra : string),
     F64.Body.bra body = Some bra ->
     isAscii bra = true ->
     (forall band cup, ~ BraPattern (cleanBra bra) band cup) ->
     F64.parseBra (Some bra) = (None, None) /\
     App64.bustEst body = F64.bust_cm (App64.normalized body)) /\
  (F64.parseBra (Some "36C") = (Some 36%float, Some "C") /\
   App64.bustEst (Spec64.bodyBra "36C") = Some (36 * 2.54 + 7.5 * 2.54)%float /\
   Qabs (SFval (Prim2SF (36 * 2.54 + 7.5 * 2.54)%float) - 110.49) <= 1 # 1000000000000 /\
   App64.byChart (Spec64.bodyBra "36C") = Some "XXL" /\
   App64.sizeOf (Spec64.bodyBra "36C") = "XXL").
Proof.
  split; [|split].
  - intros body bra band cup Hbra Hbust Hp Hband.
    pose proof (parseBra64_pattern _ _ _ Hp) as Hparse.
    assert (Hest : App64.bustEst body = Some (Spec64.specEstimate band cup)).
    { unfold App64.bustEst. rewrite Hbra, Hparse, Hbust. unfold F64.estimateBust.
      rewrite (truthy64_band band (pattern_band_range _ _ _ Hp) Hband), (truthy_cup _ _ _ Hp).
      cbn [F64.truthy_num negb andb]. rewrite cupIncrement64_spec. reflexivity. }
    split; [exact Hparse|]. split; [exact Hest|].
    unfold App64.byChart. now rewrite Hest.
  - intros body bra Hbra _ Hn.
    pose proof (parseBra64_no_pattern bra Hn) as Hparse.
    split; [exact Hparse|]. unfold App64.bustEst. rewrite Hbra, Hparse.
    unfold F64.estimateBust. cbn [F64.truthy_num]. now rewrite andb_false_r.
  - repeat split. vm_compute. discriminate.
Qed.

(** [bra_bust_estimate] at the bra strings "34 b" and "C36". *)
Lemma bra_bust_estimate_witness :
  (F64.parseBra (Some "34 b") = (Some (F64.ofZ 34), Some "B") /\
   App64.bustEst (Spec64.bodyBra "34 b") = Some (Spec64.specEstimate 34 "B") /\
   App64.byChart (Spec64.bodyBra "34 b")
   = App64.pickFromChart (Some (Spec64.specEstimate 34 "B"))
       (F64.waist_cm (App64.normalized (Spec64.bodyBra "34 b")))
       (F64.hip_cm (App64.normalized (Spec64.bodyBra "34 b")))) /\
  (F64.parseBra (Some "C36") = (None, None) /\
   App64.bustEst (Spec64.bodyBra "C36")
   = F64.bust_cm (App64.normalized (Spec64.bodyBra "C36"))).
Proof.
  split.
  - apply (proj1 bra_bust_estimate (Spec64.bodyBra "34 b") "34 b" 34%Z "B").
    + reflexivity.
    + reflexivity.
    + exists "3"%char, "4"%char. repeat split. discriminate.
    + discriminate.
  - apply (proj1 (proj2 bra_bust_estimate) (Spec64.bodyBra "C36") "C36").
    + reflexivity.
    + reflexivity.
    + intros band cup (d1 & d2 & Hs & Hd1 & _).
      vm_compute in Hs. injection Hs as <- _ _. discriminate Hd1.
Defined.

(** C6, as stated, fails twice: "00C" is two digits followed by a letter
    and there is no bust, yet no estimate is made (the band 0 is falsy);
    and the estimate for "36C" is 110.49 up to rounding, more than 0.9
    away from the 111.4 the specification gives. *)
Lemma bra_estimate_band_zero_and_36C :
  (BraPattern (cleanBra "00C") 0 "C" /\
   F64.bust_cm (App64.normalized (Spec64.bodyBra "00C")) = None /\
   App64.bustEst (Spec64.bodyBra "00C") = None) /\
  (App64.bustEst (Spec64.bodyBra "36C") = Some (36 * 2.54 + 7.5 * 2.54)%float /\
   0.9 < Qabs (SFval (Prim2SF (36 * 2.54 + 7.5 * 2.54)%float) - 111.4)).
Proof.
  split; split.
  - exists "0"%char, "0"%char. repeat split. discriminate.
  - split; reflexivity.
  - reflexivity.
  - vm_compute. reflexivity.
Qed.

(** * Analytics write (C4) *)








(** * The tummy-control flag (C10) *)

Lemma append_inv_head (s a b : string) : (s ++ a = s ++ b -> a = b)%string.
Proof.
  induction s as [|c s IH]; simpl; intros H; [exact H|].
  injection H as H. now apply IH.
Qed.

(** The hints with the flag set are the hint of the flag followed by the
    hints without it, which never include that hint. *)
Lemma hintsOf_tummy (a m : option string) (coverage : string) :
  hintsOf (Some true) a m coverage
  = "tummy-control panels" :: hintsOf (Some false) a m coverage
  /\ hintsOf None a m coverage = hintsOf (Some false) a m coverage
  /\ ~ In "tummy-control panels" (hintsOf (Some false) a m coverage).
Proof.
  unfold hintsOf. cbn [Js.truthy_bool app].
  split; [reflexivity|]. split; [reflexivity|].
  destruct (Js.str_is a "swim_class"), (Js.str_is m "high" || String.eqb coverage "burkini");
    simpl; intros H; repeat destruct H as [H|H]; try discriminate; exact H.
Qed.

(** The clause with the flag set differs from the clause without it, and
    so does whatever text follows them. *)
Lemma clause_tummy_differs (a m : option string) (coverage tail : string) :
  (hintClause (hintsOf (Some true) a m coverage) ++ "." ++ tail
   <> hintClause (hintsOf (Some false) a m coverage) ++ "." ++ tail)%string.
Proof.
  unfold hintsOf. cbn [Js.truthy_bool app].
  destruct (Js.str_is a "swim_class"), (Js.str_is m "high" || String.eqb coverage "burkini");
    cbn; discriminate.
Qed.

Lemma App64_coverage_tummy (body : F64.Body.t) (flag : option bool) :
  App64.coverageOf (F64.Body.withTummy body flag) = App64.coverageOf body.
Proof. apply chooseCoverage_tummy. Qed.

Lemma Api64_coverage_tummy (body : F64.Body.t) (flag : option bool) :
  Api64.coverageOf (F64.Body.withTummy body flag) = Api64.coverageOf body.
Proof. apply chooseCoverage_tummy. Qed.

Lemma App64_notes_tummy_differ (body : F64.Body.t) :
  App64.notesOf (F64.Body.withTummy body (Some true))
  <> App64.notesOf (F64.Body.withTummy body (Some false)).
Proof.
  unfold App64.notesOf, App64.fitCopy.
  change (App64.sizeOf (F64.Body.withTummy body (Some true))) with (App64.sizeOf body).
  change (App64.sizeOf (F64.Body.withTummy body (Some false))) with (App64.sizeOf body).
  rewrite !App64_coverage_tummy.
  cbn [F64.Body.withTummy F64.Body.tummy_control F64.Body.activity F64.Body.modesty].
  cbv zeta. intros H.
  do 5 apply append_inv_head in H.
  revert H. apply clause_tummy_differs.
Qed.

Lemma Api64_notes_tummy_differ (body : F64.Body.t) :
  Api64.notesOf (F64.Body.withTummy body (Some true))
  <> Api64.notesOf (F64.Body.withTummy body (Some false)).
Proof.
  unfold Api64.notesOf, Api.fitCopy.
  change (Api64.sizeOf (F64.Body.withTummy body (Some true))) with (Api64.sizeOf body).
  change (Api64.sizeOf (F64.Body.withTummy body (Some false))) with (Api64.sizeOf body).
  rewrite !Api64_coverage_tummy.
  cbn [F64.Body.withTummy F64.Body.tummy_control F64.Body.activity F64.Body.modesty
       Api.t Api.a Api.m Js.truthy_bool].
  cbv zeta. intros H.
  do 5 apply append_inv_head in H.
  revert H. apply clause_tummy_differs.
Qed.

(** C10.  The tummy-control flag never affects the coverage decision: for
    every activity, modesty and style preference [chooseCoverage] returns
    the same with the flag set as with it cleared, and in both handlers
    the size and the coverage of a request do not depend on
    [tummy_control].  The flag reaches the advice text, where it adds the
    hint "tummy-control panels" in front of the other hints, so that the
    notes of a request with the flag set differ from its notes with the
    flag cleared, and the analytics row, which records it. *)
Theorem tummy_flag_not_in_coverage (a m p : option string) (coverage : string)
    (body : F64.Body.t) (flag : option bool) :
  chooseCoverage a m (Some true) p = chooseCoverage a m (Some false) p /\
  (forall t t', chooseCoverage a m t p = chooseCoverage a m t' p) /\
  App64.coverageOf (F64.Body.withTummy body flag) = App64.coverageOf body /\
  App64.sizeOf (F64.Body.withTummy body flag) = App64.sizeOf body /\
  Api64.coverageOf (F64.Body.withTummy body flag) = Api64.coverageOf body /\
  Api64.sizeOf (F64.Body.withTummy body flag) = Api64.sizeOf body /\
  F64.QuizResponse.tummy_control (App64.rowFor (F64.Body.withTummy body flag)) = flag /\
  F64.QuizResponse.tummy_control (Api64.rowFor (F64.Body.withTummy body flag)) = flag /\
  (hintsOf (Some true) a m coverage
   = "tummy-control panels" :: hintsOf (Some false) a m coverage /\
   hintsOf None a m coverage = hintsOf (Some false) a m coverage /\
   ~ In "tummy-control panels" (hintsOf (Some false) a m coverage)) /\
  App64.notesOf (F64.Body.withTummy body flag)
  = App64.fitCopy (App64.sizeOf body) (App64.coverageOf body)
      (F64.Body.withTummy body flag) /\
  Api64.notesOf (F64.Body.withTummy body flag)
  = Api.fitCopy (Api64.sizeOf body) (Api64.coverageOf body)
      (Api.mkOpts (Some (Js.truthy_bool flag)) (F64.Body.activity body)
         (F64.Body.modesty body)) /\
  App64.notesOf (F64.Body.withTummy body (Some true))
  <> App64.notesOf (F64.Body.withTummy body (Some false)) /\
  Api64.notesOf (F64.Body.withTummy body (Some true))
  <> Api64.notesOf (F64.Body.withTummy body (Some false)).
Proof.
  split; [apply chooseCoverage_tummy|].
  split; [intros; apply chooseCoverage_tummy|].
  split; [apply App64_coverage_tummy|].
  split; [reflexivity|].
  split; [apply Api64_coverage_tummy|].
  split; [reflexivity|].
  split.
  { unfold App64.rowFor. cbn [F64.Body.withTummy F64.Body.bra].
    destruct (F64.parseBra (F64.Body.bra body)); reflexivity. }
  split.
  { unfold Api64.rowFor. cbn [F64.Body.withTummy F64.Body.bra].
    destruct (F64.parseBra (F64.Body.bra body)); reflexivity. }
  split; [apply hintsOf_tummy|].
  split.
  { unfold App64.notesOf.
    change (App64.sizeOf (F64.Body.withTummy body flag)) with (App64.sizeOf body).
    now rewrite App64_coverage_tummy. }
  split.
  { unfold Api64.notesOf.
    change (Api64.sizeOf (F64.Body.withTummy body flag)) with (Api64.sizeOf body).
    now rewrite Api64_coverage_tummy. }
  split; [apply App64_notes_tummy_differ|apply Api64_notes_tummy_differ].
Qed.

(** * Unit round trips over doubles (C8) *)

Lemma factor_cm : Prim2SF 2.54%float = S754_finite false 5719571526760530 (-51).
Proof. reflexivity. Qed.

Lemma factor_cm_range : 1 # 4 <= SFmag (Prim2SF 2.54%float) <= 4.
Proof. split; apply Qle_bool_iff; vm_compute; reflexivity. Qed.

Lemma factor_kg : Prim2SF 0.453592%float = S754_finite false 8171187048712952 (-54).
Proof. reflexivity. Qed.

Lemma factor_kg_range : 1 # 4 <= SFmag (Prim2SF 0.453592%float) <= 4.
Proof. split; apply Qle_bool_iff; vm_compute; reflexivity. Qed.

Lemma within_weaken (t t' : Q) (y x : float) :
  t <= t' -> Spec64.within t y x -> Spec64.within t' y x.
Proof. intros L [F B]. split; [exact F|]. eapply Qle_trans; eassumption. Qed.

(** C8 (amended).  Over doubles: a finite measurement of magnitude at most
    10^12 comes back from inches to centimetres and back (and from
    centimetres to inches and back, and from pounds to kilograms and
    back) as a finite double within 0.01 of the original (in fact within
    0.005), every product and quotient rounded as the engine rounds it. *)
Theorem unit_round_trip (x : float) :
  SFfinite (Prim2SF x) = true ->
  Qabs (SFval (Prim2SF x)) <= 1000000000000 ->
  Spec64.within (1 # 100) (F64.cmToIn (F64.inToCm x)) x /\
  Spec64.within (1 # 100) (F64.inToCm (F64.cmToIn x)) x /\
  Spec64.within (1 # 100) (Spec64.kgToLb (F64.lbToKg x)) x /\
  Spec64.within (1 # 200) (F64.cmToIn (F64.inToCm x)) x.
Proof.
  intros F B.
  pose proof (mul_div_round_trip _ _ _ factor_cm factor_cm_range x F B) as H1.
  pose proof (div_mul_round_trip _ _ _ factor_cm factor_cm_range x F B) as H2.
  pose proof (mul_div_round_trip _ _ _ factor_kg factor_kg_range x F B) as H3.
  assert (L : 1 # 200 <= 1 # 100) by (apply Qle_bool_iff; reflexivity).
  split; [|split; [|split]].
  - apply (within_weaken (1 # 200)); [exact L|exact H1].
  - apply (within_weaken (1 # 200)); [exact L|exact H2].
  - apply (within_weaken (1 # 200)); [exact L|exact H3].
  - exact H1.
Qed.

Lemma unit_round_trip_witness :
  SFfinite (Prim2SF 36%float) = true /\
  Qabs (SFval (Prim2SF 36%float)) <= 1000000000000 /\
  Spec64.within (1 # 100) (F64.cmToIn (F64.inToCm 36)) 36%float.
Proof.
  assert (F : SFfinite (Prim2SF 36%float) = true) by reflexivity.
  assert (B : Qabs (SFval (Prim2SF 36%float)) <= 1000000000000)
    by (apply Qle_bool_iff; vm_compute; reflexivity).
  split; [exact F|]. split; [exact B|].
  exact (proj1 (unit_round_trip 36%float F B)).
Defined.

(** C8 as stated, for every value, fails: 10^15 + 4 inches is a double,
    and comes back from centimetres as 10^15 + 3.875, an eighth of an
    inch short. *)
Lemma unit_round_trip_fails_at_1e15 :
  SFfinite (Prim2SF 1000000000000004%float) = true /\
  SFval (Prim2SF (F64.cmToIn (F64.inToCm 1000000000000004)))
    - SFval (Prim2SF 1000000000000004%float) == - (1 # 8) /\
  ~ Spec64.within (1 # 100) (F64.cmToIn (F64.inToCm 1000000000000004))
      1000000000000004%float.
Proof.
  split; [reflexivity|].
  assert (E : SFval (Prim2SF (F64.cmToIn (F64.inToCm 1000000000000004)))
              - SFval (Prim2SF 1000000000000004%float) == - (1 # 8))
    by (apply Qeq_bool_iff; vm_compute; reflexivity).
  split; [exact E|].
  intros [_ B]. rewrite E in B. apply Qle_bool_iff in B. vm_compute in B. discriminate.
Qed.

(** * A bust alone, over doubles *)














(** ** The inch chart *)







